(** * spi-test: a shallow embedding of the SPI test driver

    The repository holds the driver in two generations that the claims cite:

    - [Basic]: src/spi-test.c (first listing), iterating over transfer
      lengths and tx/rx offsets;
    - [Loopback]: src/unnamed/part_000, the richer driver with DMA-alignment
      iteration, the extra page of buffer slack and the loopback verifier.

    src/spi-test.c carries a second, earlier listing after the first one,
    which no claim refers to; [Early] holds the part of it that is
    well-defined.

    Pointers and [size_t] values are machine words of [ptr_bits] bits, held
    in [Z] with the wrap-around written out; [unsigned]/[u32] values wrap at
    32 bits and bytes at 8.  The kernel is built with wrapping pointer
    arithmetic, and the placeholder addresses the driver computes with are
    plain numbers, so pointer arithmetic is arithmetic modulo [2^ptr_bits].

    Diagnostics ([dev_info], [dev_err], hex dumps) do not influence any
    returned value or buffer and are left out, except for the message of the
    loopback verifier, which is part of what it reports. *)

From Stdlib Require Import ZArith List Bool Lia String.
Import ListNotations.
Local Open Scope Z_scope.

(** ** The compilation target *)

Class Target : Type := {
  ptr_bits   : Z;      (* width of [void *], [size_t] and [unsigned long] *)
  PAGE_SIZE  : Z;      (* the kernel's page size *)
  BIG_ENDIAN : bool    (* whether [__BIG_ENDIAN] is defined *)
}.

(** Targets the kernel supports: words of at least 32 bits, and pages small
    enough for 33 of them to fit between the two placeholder bases. *)
Definition target_ok `{Target} : Prop :=
  32 <= ptr_bits /\ 0 < PAGE_SIZE /\ 33 * PAGE_SIZE < 2 ^ 30.

(** A 32-bit little-endian machine with 4 KiB pages. *)
Definition arm32 : Target :=
  {| ptr_bits := 32; PAGE_SIZE := 4096; BIG_ENDIAN := false |}.

(** A 64-bit big-endian machine with 64 KiB pages. *)
Definition ppc64 : Target :=
  {| ptr_bits := 64; PAGE_SIZE := 65536; BIG_ENDIAN := true |}.

(** ** Integer conversions of C *)

Definition to_u8 (v : Z) : Z := v mod 2 ^ 8.
Definition to_uint (v : Z) : Z := v mod 2 ^ 32.
Definition to_int (v : Z) : Z := (v + 2 ^ 31) mod 2 ^ 32 - 2 ^ 31.
Definition to_size_t `{Target} (v : Z) : Z := v mod 2 ^ ptr_bits.

(** [p + n] on [void *] (GNU C: byte granularity). *)
Definition ptr_add `{Target} (p n : Z) : Z := to_size_t (p + n).
(** [p - q] on [void *], stored into a [size_t]. *)
Definition ptr_diff `{Target} (p q : Z) : Z := to_size_t (p - q).

(** ** errno values (include/uapi/asm-generic/errno-base.h) *)

Definition EIO : Z := 5.
Definition E2BIG : Z := 7.
Definition ENOMEM : Z := 12.
Definition EFAULT : Z := 14.
Definition EINVAL : Z := 22.

(** ** Memory and transfers *)

(** Byte-addressed memory. *)
Definition mem : Type := Z -> Z.

Definition load (m : mem) (a : Z) : Z := to_u8 (m a).
Definition store (m : mem) (a v : Z) : mem :=
  fun x => if x =? a then to_u8 v else m x.

(** A byte store [*p = v], as performed by the fill pass. *)
Definition store_op : Type := (Z * Z)%type.

Definition exec_stores (ops : list store_op) (m : mem) : mem :=
  fold_left (fun m' op => store m' (fst op) (snd op)) ops m.

(** The fields of [struct spi_transfer] the driver touches. *)
Record spi_transfer : Type := mk_xfer {
  tx_buf : Z;          (* const void *, 0 is NULL *)
  rx_buf : Z;          (* void *, 0 is NULL *)
  len    : Z           (* unsigned *)
}.

Definition set_tx_buf (x : spi_transfer) (p : Z) : spi_transfer :=
  mk_xfer p (rx_buf x) (len x).
Definition set_rx_buf (x : spi_transfer) (p : Z) : spi_transfer :=
  mk_xfer (tx_buf x) p (len x).
Definition set_len (x : spi_transfer) (n : Z) : spi_transfer :=
  mk_xfer (tx_buf x) (rx_buf x) n.

(** What [spi_sync] leaves behind: its return value, the two length fields
    of the message and the memory after the bus operation. *)
Record sync_result : Type := mk_sync {
  sync_ret      : Z;
  frame_length  : Z;
  actual_length : Z;
  sync_mem      : mem
}.

(** ** Fill options ([fill_option] of [struct spi_test]) *)

Abbreviation FILL_MEMSET_8 := (0%Z) (only parsing).
Abbreviation FILL_MEMSET_16 := (1%Z) (only parsing).
Abbreviation FILL_MEMSET_24 := (2%Z) (only parsing).
Abbreviation FILL_MEMSET_32 := (3%Z) (only parsing).
Abbreviation FILL_COUNT_8 := (4%Z) (only parsing).
Abbreviation FILL_COUNT_16 := (5%Z) (only parsing).
Abbreviation FILL_COUNT_24 := (6%Z) (only parsing).
Abbreviation FILL_COUNT_32 := (7%Z) (only parsing).
Abbreviation FILL_TRANSFER_BYTE_8 := (8%Z) (only parsing).
Abbreviation FILL_TRANSFER_BYTE_16 := (9%Z) (only parsing).
Abbreviation FILL_TRANSFER_BYTE_24 := (10%Z) (only parsing).
Abbreviation FILL_TRANSFER_BYTE_32 := (11%Z) (only parsing).
Abbreviation FILL_TRANSFER_NUM := (16%Z) (only parsing).

(** ** Limits shared by both generations *)

Definition SPI_TEST_MAX_TRANSFERS : Z := 4.
Definition SPI_TEST_MAX_ITERATE : Z := 12.

(** ** Loops that return on the first error *)

(** [for (x in l) { ret = body(x); if (ret) return ret; } return 0;] *)
Fixpoint for_each {A St : Type} (body : A -> St -> Z * St) (l : list A)
  (s : St) : Z * St :=
  match l with
  | [] => (0, s)
  | a :: l' =>
      let (ret, s') := body a s in
      if ret =? 0 then for_each body l' s' else (ret, s')
  end.

(** The same body, recording every call it receives. *)
Definition traced {A St : Type} (body : A -> St -> Z * St)
  : A -> St * list A -> Z * (St * list A) :=
  fun a st =>
    let (ret, s') := body a (fst st) in (ret, (s', snd st ++ [a])).

(** [for (test = spi_tests; test->description[0]; test = &test[1])] of
    [spi_test_probe], over any callee in the place of [spi_test_run]. *)
Fixpoint probe_loop {T St : Type} (descr : T -> string)
  (run : T -> St -> Z * St) (tests : list T) (s : St) : Z * St :=
  match tests with
  | [] => (0, s)
  | t :: tests' =>
      match descr t with
      | EmptyString => (0, s)
      | _ =>
          let (ret, s') := run t s in
          if ret =? 0 then probe_loop descr run tests' s' else (ret, s')
      end
  end.

Section IterationMacros.
Context {tg : Target} {St : Type}.

(** The passes of [FOR_EACH_ITERATE] with [idx >= 0]: [n] is the number of
    array slots from [idx] up to [SPI_TEST_MAX_ITERATE].  The loop condition
    assigns the slot (an [int]) to the [size_t] loop variable and tests it.
    A non-zero result of the body is the [return ret] inside the loops. *)
Fixpoint iterate_slots (n : nat) (idx : Z) (arr : list Z)
  (body : Z -> St -> Z * St) (s : St) : Z * St :=
  match n with
  | O => (0, s)
  | S n' =>
      let var := to_size_t (nth (Z.to_nat idx) arr 0) in
      if var =? 0 then (0, s)
      else
        let (ret, s') := body var s in
        if ret =? 0 then iterate_slots n' (idx + 1) arr body s'
        else (ret, s')
  end.

(** [FOR_EACH_ITERATE(var, defaultvalue)]: the pass with [idx = -1] runs the
    body on the default value, then the slots follow. *)
Definition FOR_EACH_ITERATE (defaultvalue : Z) (arr : list Z)
  (body : Z -> St -> Z * St) (s : St) : Z * St :=
  let (ret, s') := body defaultvalue s in
  if ret =? 0 then
    iterate_slots (Z.to_nat SPI_TEST_MAX_ITERATE) 0 arr body s'
  else (ret, s').

(** [for (var = 0; var < bound; var++)], [n] passes left. *)
Fixpoint alignment_steps (n : nat) (var : Z) (body : Z -> St -> Z * St) (s : St)
  : Z * St :=
  match n with
  | O => (0, s)
  | S n' =>
      let (ret, s') := body var s in
      if ret =? 0 then alignment_steps n' (var + 1) body s' else (ret, s')
  end.

(** The bound of [FOR_EACH_ALIGNMENT]: an [int] expression compared with a
    [size_t]. *)
Definition alignment_bound (dma iterate_var : Z) : Z :=
  to_size_t (if negb (iterate_var =? 0)
             then (if negb (dma =? 0) then dma else iterate_var)
             else 1).

Definition FOR_EACH_ALIGNMENT (dma iterate_var : Z)
  (body : Z -> St -> Z * St) (s : St) : Z * St :=
  alignment_steps (Z.to_nat (alignment_bound dma iterate_var)) 0 body s.

End IterationMacros.

(** * The basic driver (src/spi-test.c) *)

Module Basic.

Section Driver.
Context {tg : Target}.

Definition SPI_TEST_MAX_SIZE : Z := 32 * PAGE_SIZE.

(** [(1<<30)] and [(2<<30)] are [int] constants; the second one wraps to
    [INT_MIN] and is sign-extended when it becomes a pointer.  The driver
    applies [RX] and [TX] to 0 and to [SPI_TEST_MAX_SIZE] only. *)
Definition RX_START : Z := to_int (2 ^ 30).
Definition TX_START : Z := to_int (2 * 2 ^ 30).
Definition RX (off : Z) : Z := to_size_t (RX_START + off).
Definition TX (off : Z) : Z := to_size_t (TX_START + off).

(** [spi_test_translate]: the return value and the new value of [*ptr]. *)
Definition spi_test_translate (ptr len0 tx rx : Z) : Z * Z :=
  if ptr =? 0 then (0, ptr)
  else if (RX 0 <=? ptr) && (ptr_add ptr len0 <? RX SPI_TEST_MAX_SIZE)
  then (0, ptr_add rx (ptr_diff ptr (RX 0)))
  else if (TX 0 <=? ptr) && (ptr_add ptr len0 <? TX SPI_TEST_MAX_SIZE)
  then (0, ptr_add tx (ptr_diff ptr (TX 0)))
  else (- EINVAL, ptr).

Record spi_test : Type := mk_test {
  description     : string;
  iterate_len     : list Z;             (* int [SPI_TEST_MAX_ITERATE] *)
  iterate_tx_off  : list Z;             (* int [SPI_TEST_MAX_ITERATE] *)
  iterate_rx_off  : list Z;             (* int [SPI_TEST_MAX_ITERATE] *)
  test            : Z;                  (* custom test code, 0 is NULL *)
  expected_return : Z;                  (* int *)
  transfers       : Z;                  (* unsigned int *)
  xfers           : list spi_transfer;  (* [SPI_TEST_MAX_TRANSFERS] *)
  fill            : Z;                  (* u32 *)
  fill_option     : Z                   (* u32 *)
}.

Definition set_xfers (t : spi_test) (xs : list spi_transfer) : spi_test :=
  mk_test (description t) (iterate_len t) (iterate_tx_off t)
          (iterate_rx_off t) (test t) (expected_return t)
          (transfers t) xs (fill t) (fill_option t).

Definition active_xfers (t : spi_test) : list spi_transfer :=
  firstn (Z.to_nat (transfers t)) (xfers t).

Record env : Type := mk_env {
  simulate_only : Z;
  dump_messages : Z;
  spi_sync      : list spi_transfer -> mem -> sync_result;
  custom_test   : Z -> spi_test -> list spi_transfer -> Z -> Z -> mem
                  -> Z * mem
}.

Definition spi_test_execute_msg (e : env) (msg : list spi_transfer) (m : mem)
  : Z * mem :=
  if negb (simulate_only e =? 0) then (0, m)
  else let r := spi_sync e msg m in (sync_ret r, sync_mem r).

(** *** spi_test_fill_tx *)

Definition GET_VALUE_BYTE (count : Z) (value index bytes : Z) : Z :=
  if BIG_ENDIAN then Z.shiftr value (8 * (bytes - 1 - count mod bytes))
  else Z.shiftr value (8 * (count mod bytes)).

(** The [switch]: the value assigned to [*cbuf] and [count] after the case,
    [None] for [default:].  The counter cases end in [count++]. *)
Definition fill_step (t : spi_test) (i j count : Z) : option (Z * Z) :=
  match fill_option t with
  | FILL_MEMSET_8 => Some (fill t, count)
  | FILL_MEMSET_16 => Some (GET_VALUE_BYTE count (fill t) count 2, count)
  | FILL_MEMSET_24 => Some (GET_VALUE_BYTE count (fill t) count 3, count)
  | FILL_MEMSET_32 => Some (GET_VALUE_BYTE count (fill t) count 4, count)
  | FILL_COUNT_8 => Some (count, to_size_t (count + 1))
  | FILL_COUNT_16 =>
      Some (GET_VALUE_BYTE count count count 2, to_size_t (count + 1))
  | FILL_COUNT_24 =>
      Some (GET_VALUE_BYTE count count count 3, to_size_t (count + 1))
  | FILL_COUNT_32 =>
      Some (GET_VALUE_BYTE count count count 4, to_size_t (count + 1))
  | FILL_TRANSFER_BYTE_8 => Some (j, count)
  | FILL_TRANSFER_BYTE_16 => Some (GET_VALUE_BYTE count j j 2, count)
  | FILL_TRANSFER_BYTE_24 => Some (GET_VALUE_BYTE count j j 3, count)
  | FILL_TRANSFER_BYTE_32 => Some (GET_VALUE_BYTE count j j 4, count)
  | FILL_TRANSFER_NUM => Some (i, count)
  | _ => None
  end.

(** [for (j = 0; j < len; j++, cbuf++, count++)], [n] bytes left. *)
Fixpoint fill_bytes (t : spi_test) (i : Z) (n : nat) (j cbuf count : Z)
  : Z * Z * list store_op :=
  match n with
  | O => (0, count, [])
  | S n' =>
      match fill_step t i j count with
      | None => (- EINVAL, count, [])
      | Some (v, count1) =>
          let '(ret, c, ops) :=
            fill_bytes t i n' (j + 1) (ptr_add cbuf 1)
                       (to_size_t (count1 + 1)) in
          (ret, c, (cbuf, to_u8 v) :: ops)
      end
  end.

(** [for (i = 0; i < test->transfers; i++)]: every transfer is filled from
    its [tx_buf], whatever that pointer is; the local [cbuf] holds that
    pointer as a machine word. *)
Fixpoint fill_xfers (t : spi_test) (i : Z) (xs : list spi_transfer)
  (count : Z) : Z * list store_op :=
  match xs with
  | [] => (0, [])
  | x :: xs' =>
      let '(ret, c, ops) :=
        fill_bytes t i (Z.to_nat (len x)) 0 (ptr_add (tx_buf x) 0) count in
      if ret =? 0 then
        let (ret', ops') := fill_xfers t (i + 1) xs' c in
        (ret', ops ++ ops')
      else (ret, ops)
  end.

Definition spi_test_fill_tx (t : spi_test) : Z * list store_op :=
  fill_xfers t 0 (active_xfers t) 0.

(** *** _spi_test_run *)

Fixpoint translate_xfers (xs : list spi_transfer) (tx rx : Z)
  : Z * list spi_transfer :=
  match xs with
  | [] => (0, [])
  | x :: xs' =>
      let (r1, p1) := spi_test_translate (tx_buf x) (len x) tx rx in
      if r1 =? 0 then
        let (r2, p2) := spi_test_translate (rx_buf x) (len x) tx rx in
        if r2 =? 0 then
          let (r, ys) := translate_xfers xs' tx rx in
          (r, mk_xfer p1 p2 (len x) :: ys)
        else (r2, [])
      else (r1, [])
  end.

Definition handle_result (ret expected : Z) : Z :=
  if ret =? expected then 0
  else if negb (ret =? 0) then ret
  else - EFAULT.

(** [_spi_test_run] past the test for transfers. *)
Definition build_and_execute (e : env) (t : spi_test) (tx rx : Z) (m : mem)
  : Z * mem :=
  let (r, msg) := translate_xfers (active_xfers t) tx rx in
  if negb (r =? 0) then (r, m)
  else
    let t' := set_xfers t (msg ++ skipn (Z.to_nat (transfers t)) (xfers t)) in
    let (rf, ops) := spi_test_fill_tx t' in
    let m1 := exec_stores ops m in
    if negb (rf =? 0) then (rf, m1)
    else
      let (ret, m2) :=
        if negb (test t' =? 0) then custom_test e (test t') t' msg tx rx m1
        else spi_test_execute_msg e msg m1 in
      (handle_result ret (expected_return t'), m2).

Definition _spi_test_run (e : env) (t : spi_test) (tx rx : Z) (m : mem)
  : Z * mem :=
  if transfers t >=? SPI_TEST_MAX_TRANSFERS then (- E2BIG, m)
  else build_and_execute e t tx rx m.

(** *** spi_test_run_iter *)

(** The body of the loop [/* fill in the values from iterations */]. *)
Definition patch_xfer (len0 tx_off rx_off : Z) (x : spi_transfer)
  : spi_transfer :=
  let x1 := if negb (len0 =? 0) then set_len x (to_uint len0) else x in
  let x2 := if negb (tx_off =? 0) && negb (tx_buf x1 =? 0)
            then set_tx_buf x1 (ptr_add (tx_buf x1) tx_off) else x1 in
  if negb (rx_off =? 0) && negb (rx_buf x2 =? 0)
  then set_rx_buf x2 (ptr_add (rx_buf x2) rx_off) else x2.

Definition iter_working_copy (testtemplate : spi_test)
  (len0 tx_off rx_off : Z) : spi_test :=
  set_xfers testtemplate
    (map (patch_xfer len0 tx_off rx_off) (active_xfers testtemplate)
     ++ skipn (Z.to_nat (transfers testtemplate)) (xfers testtemplate)).

Definition spi_test_run_iter (e : env) (testtemplate : spi_test) (tx rx : Z)
  (len0 tx_off rx_off : Z) (m : mem) : Z * mem :=
  _spi_test_run e (iter_working_copy testtemplate len0 tx_off rx_off) tx rx m.

(** *** spi_test_run and spi_test_probe *)

Definition spi_test_run_loop {St : Type}
  (run_iter : Z * Z * Z -> St -> Z * St) (t : spi_test) (s : St) : Z * St :=
  FOR_EACH_ITERATE 0 (iterate_len t) (fun len0 =>
    FOR_EACH_ITERATE 0 (iterate_tx_off t) (fun tx_off =>
      FOR_EACH_ITERATE 0 (iterate_rx_off t) (fun rx_off =>
        run_iter (len0, tx_off, rx_off)))) s.

Definition run_iter_at (e : env) (t : spi_test) (tx rx : Z)
  (p : Z * Z * Z) : mem -> Z * mem :=
  let '(len0, tx_off, rx_off) := p in
  spi_test_run_iter e t tx rx len0 tx_off rx_off.

Definition spi_test_run (e : env) (tx rx : Z) (t : spi_test) (m : mem)
  : Z * mem :=
  spi_test_run_loop (run_iter_at e t tx rx) t m.

Definition spi_test_probe (e : env) (spi_tests : list spi_test) (rx tx : Z)
  (m : mem) : Z * mem :=
  if rx =? 0 then (- ENOMEM, m)
  else if tx =? 0 then (- ENOMEM, m)
  else probe_loop description (spi_test_run e tx rx) spi_tests m.

End Driver.

End Basic.

(** * The loopback driver (src/unnamed/part_000) *)

Module Loopback.

Section Driver.
Context {tg : Target}.

Definition SPI_TEST_MAX_SIZE : Z := 32 * PAGE_SIZE.

(** [BIT(30)] and [BIT(31)] are [unsigned long]. *)
Definition RX_START : Z := to_size_t (2 ^ 30).
Definition TX_START : Z := to_size_t (2 ^ 31).
Definition RX (off : Z) : Z := to_size_t (RX_START + off).
Definition TX (off : Z) : Z := to_size_t (TX_START + off).

Definition SPI_TEST_MAX_SIZE_PLUS : Z := SPI_TEST_MAX_SIZE + PAGE_SIZE.

(** [spi_test_translate]: the return value and the new value of [*ptr]. *)
Definition spi_test_translate (ptr len0 tx rx : Z) : Z * Z :=
  if ptr =? 0 then (0, ptr)
  else if (RX 0 <=? ptr) && (ptr_add ptr len0 <=? RX SPI_TEST_MAX_SIZE_PLUS)
  then (0, ptr_add rx (ptr_diff ptr (RX 0)))
  else if (TX 0 <=? ptr) && (ptr_add ptr len0 <=? TX SPI_TEST_MAX_SIZE_PLUS)
  then (0, ptr_add tx (ptr_diff ptr (TX 0)))
  else (- EINVAL, ptr).

(** [struct spi_test].  Arrays are lists; a static initialiser leaves the
    entries it does not name zero, which is what reading past the end of the
    list yields here ([nth _ _ 0]). *)
Record spi_test : Type := mk_test {
  description      : string;
  iterate_len      : list Z;            (* int [SPI_TEST_MAX_ITERATE] *)
  iterate_tx_align : Z;                 (* int *)
  iterate_rx_align : Z;                 (* int *)
  test             : Z;                 (* custom test code, 0 is NULL *)
  expected_return  : Z;                 (* int *)
  transfer_count   : Z;                 (* unsigned int *)
  transfers        : list spi_transfer; (* [SPI_TEST_MAX_TRANSFERS] *)
  fill             : Z;                 (* u32 *)
  fill_option      : Z                  (* u32 *)
}.

Definition set_transfers (t : spi_test) (count : Z) (xs : list spi_transfer)
  : spi_test :=
  mk_test (description t) (iterate_len t) (iterate_tx_align t)
          (iterate_rx_align t) (test t) (expected_return t)
          count xs (fill t) (fill_option t).

(** The transfers the loops [for (i = 0; i < test->transfer_count; i++)]
    visit, in order. *)
Definition active_transfers (t : spi_test) : list spi_transfer :=
  firstn (Z.to_nat (transfer_count t)) (transfers t).

(** What the driver takes from its surroundings: the module parameters, the
    controller, the transport, the custom test functions (by address) and
    the indeterminate initial values of two locals of [spi_test_run_iter]. *)
Record env : Type := mk_env {
  simulate_only   : Z;
  dump_messages   : Z;
  loopback        : Z;
  dma_alignment   : Z;                  (* spi->master->dma_alignment, u16 *)
  spi_sync        : list spi_transfer -> mem -> sync_result;
  custom_test     : Z -> spi_test -> list spi_transfer -> Z -> Z -> mem
                    -> Z * mem;
  uninit_tx_count : Z;                  (* int tx_count; never initialised *)
  uninit_rx_count : Z                   (* int rx_count; never initialised *)
}.

(** *** spi_test_check_loopback_result *)

Inductive loopback_report : Type :=
| LoopbackOk
    (* return 0 *)
| LoopbackIdle (b : Z)
    (* "we expect 0x00 or 0xff, but not 0x%02x" *)
| LoopbackMismatch (i txb rxb : Z).
    (* "transfer missmatch on byte %i - expected 0x%02x, but got 0x%02x" *)

Definition loopback_ret (r : loopback_report) : Z :=
  match r with
  | LoopbackOk => 0
  | LoopbackIdle _ => - EINVAL
  | LoopbackMismatch _ _ _ => - EINVAL
  end.

(** [for (i = ...; i < xfer->len; i++)] comparing tx and rx bytes; [n] is
    the number of indices left below [len]. *)
Fixpoint check_duplex (m : mem) (x : spi_transfer) (n : nat) (i : Z)
  : loopback_report :=
  match n with
  | O => LoopbackOk
  | S n' =>
      let txb := load m (ptr_add (tx_buf x) i) in
      let rxb := load m (ptr_add (rx_buf x) i) in
      if txb =? rxb then check_duplex m x n' (i + 1)
      else LoopbackMismatch i txb rxb
  end.

(** The same loop for a pure receive, against the first byte received. *)
Fixpoint check_idle (m : mem) (x : spi_transfer) (txb : Z) (n : nat) (i : Z)
  : loopback_report :=
  match n with
  | O => LoopbackOk
  | S n' =>
      let rxb := load m (ptr_add (rx_buf x) i) in
      if rxb =? txb then check_idle m x txb n' (i + 1)
      else LoopbackMismatch i txb rxb
  end.

(** The body of [list_for_each_entry] for one transfer. *)
Definition check_transfer (m : mem) (x : spi_transfer) : loopback_report :=
  if rx_buf x =? 0 then LoopbackOk
  else if tx_buf x =? 0 then
    let txb := load m (ptr_add (rx_buf x) 0) in
    if (txb =? 0) || (txb =? 255) then
      check_idle m x txb (Z.to_nat (len x - 1)) 1
    else LoopbackIdle txb
  else check_duplex m x (Z.to_nat (len x - 1)) 1.

Fixpoint spi_test_check_loopback_result (m : mem) (msg : list spi_transfer)
  : loopback_report :=
  match msg with
  | [] => LoopbackOk
  | x :: msg' =>
      match check_transfer m x with
      | LoopbackOk => spi_test_check_loopback_result m msg'
      | err => err
      end
  end.

(** *** spi_test_execute_msg *)

Definition spi_test_execute_msg (e : env) (msg : list spi_transfer) (m : mem)
  : Z * mem :=
  if simulate_only e =? 0 then
    let r := spi_sync e msg m in
    if sync_ret r =? 0 then
      if frame_length r =? actual_length r then
        if loopback e =? 0 then (0, sync_mem r)
        else (loopback_ret (spi_test_check_loopback_result (sync_mem r) msg),
              sync_mem r)
      else (- EIO, sync_mem r)
    else (sync_ret r, sync_mem r)
  else (0, m).

(** *** spi_test_fill_tx *)

(** The macro reads the local [count] whatever it is given as [index]. *)
Definition GET_VALUE_BYTE (count : Z) (value index bytes : Z) : Z :=
  if BIG_ENDIAN then Z.shiftr value (8 * (bytes - 1 - count mod bytes))
  else Z.shiftr value (8 * (count mod bytes)).

(** The [switch]: the value assigned to [*tx_buf], [None] for [default:]. *)
Definition fill_value (t : spi_test) (i j count : Z) : option Z :=
  match fill_option t with
  | FILL_MEMSET_8 => Some (fill t)
  | FILL_MEMSET_16 => Some (GET_VALUE_BYTE count (fill t) count 2)
  | FILL_MEMSET_24 => Some (GET_VALUE_BYTE count (fill t) count 3)
  | FILL_MEMSET_32 => Some (GET_VALUE_BYTE count (fill t) count 4)
  | FILL_COUNT_8 => Some count
  | FILL_COUNT_16 => Some (GET_VALUE_BYTE count count count 2)
  | FILL_COUNT_24 => Some (GET_VALUE_BYTE count count count 3)
  | FILL_COUNT_32 => Some (GET_VALUE_BYTE count count count 4)
  | FILL_TRANSFER_BYTE_8 => Some j
  | FILL_TRANSFER_BYTE_16 => Some (GET_VALUE_BYTE count j j 2)
  | FILL_TRANSFER_BYTE_24 => Some (GET_VALUE_BYTE count j j 3)
  | FILL_TRANSFER_BYTE_32 => Some (GET_VALUE_BYTE count j j 4)
  | FILL_TRANSFER_NUM => Some i
  | _ => None
  end.

(** [for (j = 0; j < len; j++, tx_buf++, count++)]: the return value, the
    final [count] and the stores made, in order.  [n] is the number of bytes
    left.  ([j] is an [int]: on a 64-bit target the comparison with the
    [size_t] [len] ends the loop early once [j] has passed [INT_MAX]; the
    model follows the code for lengths up to 2^31, and for all lengths on a
    32-bit target.) *)
Fixpoint fill_bytes (t : spi_test) (i : Z) (n : nat) (j tx count : Z)
  : Z * Z * list store_op :=
  match n with
  | O => (0, count, [])
  | S n' =>
      match fill_value t i j count with
      | None => (- EINVAL, count, [])
      | Some v =>
          let '(ret, c, ops) :=
            fill_bytes t i n' (j + 1) (ptr_add tx 1) (to_size_t (count + 1)) in
          (ret, c, (tx, to_u8 v) :: ops)
      end
  end.

(** [for (i = 0; i < test->transfer_count; i++)];
    the local [tx_buf] holds the pointer as a machine word. *)
Fixpoint fill_transfers (t : spi_test) (i : Z) (xs : list spi_transfer)
  (count : Z) : Z * list store_op :=
  match xs with
  | [] => (0, [])
  | x :: xs' =>
      if tx_buf x =? 0 then fill_transfers t (i + 1) xs' count
      else
        let '(ret, c, ops) :=
          fill_bytes t i (Z.to_nat (len x)) 0 (ptr_add (tx_buf x) 0) count in
        if ret =? 0 then
          let (ret', ops') := fill_transfers t (i + 1) xs' c in
          (ret', ops ++ ops')
        else (ret, ops)
  end.

(** [spi_test_fill_tx] only writes: it is given by its return value and the
    sequence of byte stores it performs. *)
Definition spi_test_fill_tx (t : spi_test) : Z * list store_op :=
  fill_transfers t 0 (active_transfers t) 0.

(** *** _spi_test_run *)

(** The loop resolving [tx_buf] then [rx_buf] of every transfer and adding
    it to the message; the transfers resolved so far are returned. *)
Fixpoint translate_transfers (xs : list spi_transfer) (tx rx : Z)
  : Z * list spi_transfer :=
  match xs with
  | [] => (0, [])
  | x :: xs' =>
      let (r1, p1) := spi_test_translate (tx_buf x) (len x) tx rx in
      if r1 =? 0 then
        let (r2, p2) := spi_test_translate (rx_buf x) (len x) tx rx in
        if r2 =? 0 then
          let (r, ys) := translate_transfers xs' tx rx in
          (r, mk_xfer p1 p2 (len x) :: ys)
        else (r2, [])
      else (r1, [])
  end.

(** [/* handle result */] to the end of [_spi_test_run]. *)
Definition handle_result (ret expected : Z) : Z :=
  if ret =? expected then 0
  else if negb (ret =? 0) then ret
  else - EFAULT.

Definition _spi_test_run (e : env) (t : spi_test) (tx rx : Z) (m : mem)
  : Z * mem :=
  let (r, msg) := translate_transfers (active_transfers t) tx rx in
  if negb (r =? 0) then (r, m)
  else
    let t' := set_transfers t (transfer_count t)
                (msg ++ skipn (Z.to_nat (transfer_count t)) (transfers t)) in
    let (rf, ops) := spi_test_fill_tx t' in
    let m1 := exec_stores ops m in
    if negb (rf =? 0) then (rf, m1)
    else
      let (ret, m2) :=
        if negb (test t' =? 0) then custom_test e (test t') t' msg tx rx m1
        else spi_test_execute_msg e msg m1 in
      (handle_result ret (expected_return t'), m2).

(** *** spi_test_run_iter *)

(** [for (i = 0; (i < SPI_TEST_MAX_TRANSFERS) && test.transfers[i].len; i++)
    test.transfer_count++;] with [n] slots left. *)
Fixpoint count_transfers (n : nat) (xs : list spi_transfer) : Z :=
  match n, xs with
  | S n', x :: xs' => if len x =? 0 then 0 else 1 + count_transfers n' xs'
  | _, _ => 0
  end.

Definition count_bufs (buf : spi_transfer -> Z) (xs : list spi_transfer) : Z :=
  Z.of_nat (List.length (filter (fun x => negb (buf x =? 0)) xs)).

(** The body of the loop [/* update in the values from iteration values */]
    for one transfer; the third test reads [tx_buf] as just updated. *)
Definition patch_transfer (len0 tx_off rx_off : Z) (x : spi_transfer)
  : spi_transfer :=
  let x1 := if negb (len0 =? 0) then set_len x (to_uint len0) else x in
  let x2 := if negb (tx_buf x1 =? 0)
            then set_tx_buf x1 (ptr_add (tx_buf x1) tx_off) else x1 in
  if negb (tx_buf x2 =? 0)
  then set_rx_buf x2 (ptr_add (rx_buf x2) rx_off) else x2.

(** The working copy [spi_test_run_iter] hands to [_spi_test_run], or [None]
    where it warns and returns 0 early. *)
Definition iter_working_copy (e : env) (testtemplate : spi_test)
  (len0 tx_off rx_off : Z) : option spi_test :=
  let count :=
    if transfer_count testtemplate =? 0
    then count_transfers (Z.to_nat SPI_TEST_MAX_TRANSFERS)
                         (transfers testtemplate)
    else transfer_count testtemplate in
  let t0 := set_transfers testtemplate count (transfers testtemplate) in
  let tx_count :=
    to_int (uninit_tx_count e + count_bufs tx_buf (active_transfers t0)) in
  let rx_count :=
    to_int (uninit_rx_count e + count_bufs rx_buf (active_transfers t0)) in
  if negb (tx_off =? 0) && (tx_count =? 0) then None
  else if negb (rx_off =? 0) && (rx_count =? 0) then None
  else if negb ((len0 =? 0) && (tx_off =? 0) && (rx_off =? 0)) then
    Some (set_transfers t0 count
            (map (patch_transfer len0 tx_off rx_off) (active_transfers t0)
             ++ skipn (Z.to_nat count) (transfers t0)))
  else Some t0.

Definition spi_test_run_iter (e : env) (testtemplate : spi_test) (tx rx : Z)
  (len0 tx_off rx_off : Z) (m : mem) : Z * mem :=
  match iter_working_copy e testtemplate len0 tx_off rx_off with
  | None => (0, m)
  | Some t => _spi_test_run e t tx rx m
  end.

(** *** spi_test_run *)

(** The transfer-limit test and the three nested loops, over any callee in
    the place of [spi_test_run_iter]. *)
Definition spi_test_run_loop {St : Type}
  (run_iter : Z * Z * Z -> St -> Z * St)
  (dma : Z) (t : spi_test) (s : St) : Z * St :=
  if transfer_count t >=? SPI_TEST_MAX_TRANSFERS then (- E2BIG, s)
  else
    FOR_EACH_ITERATE 0 (iterate_len t) (fun len0 =>
      FOR_EACH_ALIGNMENT dma (iterate_tx_align t) (fun tx_align =>
        FOR_EACH_ALIGNMENT dma (iterate_rx_align t) (fun rx_align =>
          run_iter (len0, tx_align, rx_align)))) s.

Definition run_iter_at (e : env) (t : spi_test) (tx rx : Z)
  (p : Z * Z * Z) : mem -> Z * mem :=
  let '(len0, tx_off, rx_off) := p in
  spi_test_run_iter e t tx rx len0 tx_off rx_off.

Definition spi_test_run (e : env) (tx rx : Z) (t : spi_test) (m : mem)
  : Z * mem :=
  spi_test_run_loop (run_iter_at e t tx rx) (dma_alignment e) t m.

(** *** spi_test_probe *)

(** [rx] and [tx] are what the two [kzalloc] calls returned. *)
Definition spi_test_probe (e : env) (spi_tests : list spi_test) (rx tx : Z)
  (m : mem) : Z * mem :=
  if rx =? 0 then (- ENOMEM, m)
  else if tx =? 0 then (- ENOMEM, m)
  else probe_loop description (spi_test_run e tx rx) spi_tests m.

End Driver.

End Loopback.

(** * The earlier listing (src/spi-test.c, second listing)

    The first draft of the driver, kept as far as its functions are
    well-defined: [spi_test_translate], [spi_test_fill_tx], [_spi_test_run]
    and [spi_test_run_iter].  Its [spi_test_run] reads its arrays at index
    -1 and is left out, and with it [spi_test_probe].  [struct spi_test] is
    the basic driver's, the description being a pointer instead of an
    array. *)

Module Early.

Section Driver.
Context {tg : Target}.

Definition SPI_TEST_MAX_SIZE : Z := 32 * PAGE_SIZE.

Definition RX_START : Z := to_int (2 ^ 30).
Definition TX_START : Z := to_int (2 * 2 ^ 30).
Definition RX (off : Z) : Z := to_size_t (RX_START + off).
Definition TX (off : Z) : Z := to_size_t (TX_START + off).

(** One region of [spi_test_translate], entered with [*ptr >= base]: the
    offset is tested alone, then with the length added. *)
Definition translate_region (ptr len0 base buf : Z) : Z * Z :=
  let off := ptr_diff ptr base in
  if off >=? SPI_TEST_MAX_SIZE then (- EINVAL, ptr)
  else if to_size_t (off + len0) >=? SPI_TEST_MAX_SIZE then (- EINVAL, ptr)
  else (0, ptr_add buf off).

Definition spi_test_translate (ptr len0 tx rx : Z) : Z * Z :=
  if ptr =? 0 then (0, ptr)
  else if RX 0 <=? ptr then translate_region ptr len0 (RX 0) rx
  else if TX 0 <=? ptr then translate_region ptr len0 (TX 0) tx
  else (- EINVAL, ptr).

(** The transport and the custom test functions. *)
Record env : Type := mk_env {
  spi_sync    : list spi_transfer -> mem -> sync_result;
  custom_test : Z -> Basic.spi_test -> list spi_transfer -> Z -> Z -> mem
                -> Z * mem
}.

(** The fill loops are the basic driver's, the [default:] case returning 1
    instead of [-EINVAL]. *)
Fixpoint fill_bytes (t : Basic.spi_test) (i : Z) (n : nat) (j cbuf count : Z)
  : Z * Z * list store_op :=
  match n with
  | O => (0, count, [])
  | S n' =>
      match Basic.fill_step t i j count with
      | None => (1, count, [])
      | Some (v, count1) =>
          let '(ret, c, ops) :=
            fill_bytes t i n' (j + 1) (ptr_add cbuf 1)
                       (to_size_t (count1 + 1)) in
          (ret, c, (cbuf, to_u8 v) :: ops)
      end
  end.

Fixpoint fill_xfers (t : Basic.spi_test) (i : Z) (xs : list spi_transfer)
  (count : Z) : Z * list store_op :=
  match xs with
  | [] => (0, [])
  | x :: xs' =>
      let '(ret, c, ops) :=
        fill_bytes t i (Z.to_nat (len x)) 0 (ptr_add (tx_buf x) 0) count in
      if ret =? 0 then
        let (ret', ops') := fill_xfers t (i + 1) xs' c in
        (ret', ops ++ ops')
      else (ret, ops)
  end.

Definition spi_test_fill_tx (t : Basic.spi_test) : Z * list store_op :=
  fill_xfers t 0 (Basic.active_xfers t) 0.

Fixpoint translate_xfers (xs : list spi_transfer) (tx rx : Z)
  : Z * list spi_transfer :=
  match xs with
  | [] => (0, [])
  | x :: xs' =>
      let (r1, p1) := spi_test_translate (tx_buf x) (len x) tx rx in
      if r1 =? 0 then
        let (r2, p2) := spi_test_translate (rx_buf x) (len x) tx rx in
        if r2 =? 0 then
          let (r, ys) := translate_xfers xs' tx rx in
          (r, mk_xfer p1 p2 (len x) :: ys)
        else (r2, [])
      else (r1, [])
  end.

Definition _spi_test_run (e : env) (t : Basic.spi_test) (tx rx : Z) (m : mem)
  : Z * mem :=
  if Basic.transfers t >=? SPI_TEST_MAX_TRANSFERS then (- EINVAL, m)
  else
    let (r, msg) := translate_xfers (Basic.active_xfers t) tx rx in
    if negb (r =? 0) then (r, m)
    else
      let t' := Basic.set_xfers t
                  (msg ++ skipn (Z.to_nat (Basic.transfers t))
                                (Basic.xfers t)) in
      let (rf, ops) := spi_test_fill_tx t' in
      let m1 := exec_stores ops m in
      if negb (rf =? 0) then (rf, m1)
      else
        let (ret, m2) :=
          if negb (Basic.test t' =? 0)
          then custom_test e (Basic.test t') t' msg tx rx m1
          else let r := spi_sync e msg m1 in (sync_ret r, sync_mem r) in
        (if ret =? Basic.expected_return t' then 0
         else if negb (ret =? 0) then ret
         else - 9999, m2).

(** [spi_test_run_iter] patches the test it is handed in place. *)
Definition spi_test_run_iter (e : env) (t : Basic.spi_test) (tx rx : Z)
  (len0 tx_off rx_off : Z) (m : mem) : Z * mem :=
  _spi_test_run e (Basic.iter_working_copy t len0 tx_off rx_off) tx rx m.

End Driver.

End Early.

(** * Reference functions

    The values the iteration macros visit and the bytes the fill pass
    touches, written as lists, and the predicates the properties are stated
    with; the loops are proved below to run over exactly these lists. *)

Section Enumerations.
Context {tg : Target}.

Fixpoint slot_values (n : nat) (idx : Z) (arr : list Z) : list Z :=
  match n with
  | O => []
  | S n' =>
      let var := to_size_t (nth (Z.to_nat idx) arr 0) in
      if var =? 0 then [] else var :: slot_values n' (idx + 1) arr
  end.

Definition iterate_values (defaultvalue : Z) (arr : list Z) : list Z :=
  defaultvalue :: slot_values (Z.to_nat SPI_TEST_MAX_ITERATE) 0 arr.

Fixpoint count_up (n : nat) (var : Z) : list Z :=
  match n with
  | O => []
  | S n' => var :: count_up n' (var + 1)
  end.

Definition alignment_values (dma iterate_var : Z) : list Z :=
  count_up (Z.to_nat (alignment_bound dma iterate_var)) 0.

(** All triples of three value lists, the last one varying fastest. *)
Definition triples (ls ts rs : list Z) : list (Z * Z * Z) :=
  flat_map (fun l => flat_map (fun a => map (fun b => (l, a, b)) rs) ts) ls.

Definition loopback_iter_points (dma : Z) (t : Loopback.spi_test)
  : list (Z * Z * Z) :=
  triples (iterate_values 0 (Loopback.iterate_len t))
          (alignment_values dma (Loopback.iterate_tx_align t))
          (alignment_values dma (Loopback.iterate_rx_align t)).

Definition basic_iter_points (t : Basic.spi_test) : list (Z * Z * Z) :=
  triples (iterate_values 0 (Basic.iterate_len t))
          (iterate_values 0 (Basic.iterate_tx_off t))
          (iterate_values 0 (Basic.iterate_rx_off t)).

(** The slice of the running counter [k] the counter modes store: the
    [bytes] argument of [GET_VALUE_BYTE] is [fill_option - 3]. *)
Definition counter_byte (fill_opt k : Z) : Z :=
  let bytes := fill_opt - 3 in
  to_u8 (Z.shiftr k (8 * (if BIG_ENDIAN then bytes - 1 - k mod bytes
                          else k mod bytes))).

(** The addresses [p, p+1, ..., p+n-1] the fill loop walks through. *)
Definition byte_range (p : Z) (n : Z) : list Z :=
  map (fun d => ptr_add p d) (count_up (Z.to_nat n) 0).

End Enumerations.

(** The catalog entries [spi_test_probe] reaches: those before the first
    entry with an empty description. *)
Fixpoint catalog_entries {T : Type} (descr : T -> string) (tests : list T)
  : list T :=
  match tests with
  | [] => []
  | t :: tests' =>
      match descr t with
      | EmptyString => []
      | _ => t :: catalog_entries descr tests'
      end
  end.

(** The fill options [spi_test_fill_tx] has a case for. *)
Definition fill_supported (fill_opt : Z) : bool :=
  ((0 <=? fill_opt) && (fill_opt <=? 11)) || (fill_opt =? 16).

(** The running-counter options. *)
Definition fill_counting (fill_opt : Z) : bool :=
  (4 <=? fill_opt) && (fill_opt <=? 7).

(** The byte ranges of the transfers that have a transmit buffer, one after
    the other. *)
Definition tx_ranges {tg : Target} (xs : list spi_transfer) : list Z :=
  flat_map (fun x => if tx_buf x =? 0 then []
                     else byte_range (tx_buf x) (len x)) xs.

(** The byte the loopback fill pass stores for byte [j] of transfer [i] at
    counter value [count] (0 where the option has no case). *)
Definition loopback_fill_byte {tg : Target} (t : Loopback.spi_test)
  (i j count : Z) : Z :=
  match Loopback.fill_value t i j count with
  | Some v => to_u8 v
  | None => 0
  end.

(** The values the loopback fill pass stores, by global position. *)
Definition fill_values {tg : Target} (t : Loopback.spi_test) : list Z :=
  map snd (snd (Loopback.spi_test_fill_tx t)).

(** "The byte written at global position k depends only on k mod [w]", for
    the stores of filling [t]. *)
Definition residue_only {tg : Target} (t : Loopback.spi_test) (w : Z) : Prop :=
  forall k1 k2 : nat,
    (k1 < List.length (fill_values t))%nat ->
    (k2 < List.length (fill_values t))%nat ->
    Z.of_nat k1 mod w = Z.of_nat k2 mod w ->
    nth k1 (fill_values t) 0 = nth k2 (fill_values t) 0.

(** A length axis configured with exactly the values 16 and 32: the array
    holds them followed by zeros. *)
Definition length_axis_16_32 (arr : list Z) : Prop :=
  exists k : nat, arr = [16; 32] ++ repeat 0 k.

(** An axis array left unconfigured: all zero. *)
Definition unset_axis (arr : list Z) : Prop :=
  exists k : nat, arr = repeat 0 k.

(** The build succeeded (translation and fill returned 0) and the execution
    path, custom or default, returned [ret] and left memory [m2]. *)
Definition loopback_executes {tg : Target} (e : Loopback.env)
  (t : Loopback.spi_test) (tx rx : Z) (m : mem) (ret : Z) (m2 : mem) : Prop :=
  exists msg ops,
    let t' := Loopback.set_transfers t (Loopback.transfer_count t)
                (msg ++ skipn (Z.to_nat (Loopback.transfer_count t))
                              (Loopback.transfers t)) in
    Loopback.translate_transfers (Loopback.active_transfers t) tx rx
      = (0, msg) /\
    Loopback.spi_test_fill_tx t' = (0, ops) /\
    (if negb (Loopback.test t' =? 0)
     then Loopback.custom_test e (Loopback.test t') t' msg tx rx
            (exec_stores ops m)
     else Loopback.spi_test_execute_msg e msg (exec_stores ops m))
      = (ret, m2).

Definition basic_executes {tg : Target} (e : Basic.env)
  (t : Basic.spi_test) (tx rx : Z) (m : mem) (ret : Z) (m2 : mem) : Prop :=
  exists msg ops,
    let t' := Basic.set_xfers t
                (msg ++ skipn (Z.to_nat (Basic.transfers t)) (Basic.xfers t)) in
    Basic.transfers t < SPI_TEST_MAX_TRANSFERS /\
    Basic.translate_xfers (Basic.active_xfers t) tx rx = (0, msg) /\
    Basic.spi_test_fill_tx t' = (0, ops) /\
    (if negb (Basic.test t' =? 0)
     then Basic.custom_test e (Basic.test t') t' msg tx rx (exec_stores ops m)
     else Basic.spi_test_execute_msg e msg (exec_stores ops m))
      = (ret, m2).

(** * Example inputs *)

Definition zero_mem : mem := fun _ => 0.

(** Memory holding [bytes] from address [base] on, and [m] elsewhere. *)
Fixpoint mem_with (base : Z) (bytes : list Z) (m : mem) : mem :=
  match bytes with
  | [] => m
  | b :: bs => store (mem_with (base + 1) bs m) base b
  end.

(** Addresses standing for the two scratch buffers. *)
Definition tx_base : Z := 1048576.
Definition rx_base : Z := 2097152.

(** Simulate-only mode of the loopback driver. *)
Definition loopback_sim_env : Loopback.env :=
  Loopback.mk_env 1 0 0 0 (fun _ m => mk_sync 0 0 0 m)
                  (fun _ _ _ _ _ m => (0, m)) 0 0.

(** Simulate-only mode of the basic driver. *)
Definition basic_sim_env : Basic.env :=
  Basic.mk_env 1 0 (fun _ m => mk_sync 0 0 0 m) (fun _ _ _ _ _ m => (0, m)).

(** A full-duplex case iterating over the lengths 16 and 32 only. *)
Definition loopback_two_lengths : Loopback.spi_test :=
  Loopback.mk_test "two lengths" [16; 32] 0 0 0 0 0
    [mk_xfer (@Loopback.TX arm32 0) (@Loopback.RX arm32 0) 1] 0 4.

Definition basic_two_lengths : Basic.spi_test :=
  Basic.mk_test "two lengths" [16; 32] [] [] 0 0 1
    [mk_xfer (@Basic.TX arm32 0) (@Basic.RX arm32 0) 1] 0 0.

(** A case declaring as many transfers as the array holds. *)
Definition loopback_four_transfers : Loopback.spi_test :=
  Loopback.mk_test "four transfers" [] 0 0 0 0 4
    (repeat (mk_xfer (@Loopback.TX arm32 0) 0 1) 4) 0 0.

Definition basic_four_transfers : Basic.spi_test :=
  Basic.mk_test "four transfers" [] [] [] 0 0 4
    (repeat (mk_xfer (@Basic.TX arm32 0) 0 1) 4) 0 0.

(** A callee that fails with [-EIO] at length 16 and passes elsewhere. *)
Definition fail_at_16 (p : Z * Z * Z) (s : unit) : Z * unit :=
  (if fst (fst p) =? 16 then - EIO else 0, s).

(** A callee on catalog entries failing on the entry called "bad". *)
Definition fail_on_bad (t : Loopback.spi_test) (s : unit) : Z * unit :=
  (if String.eqb (Loopback.description t) "bad" then - EIO else 0, s).

Definition named_case (name : string) : Loopback.spi_test :=
  Loopback.mk_test name [] 0 0 0 0 0 [] 0 0.

(** A catalog with a failing entry and, further on, the closing sentinel. *)
Definition example_catalog : list Loopback.spi_test :=
  [named_case "first"; named_case "bad"; named_case "third";
   named_case ""; named_case "beyond"].

(** Two consecutive one-byte transmit transfers filled with FILL_COUNT_8. *)
Definition two_byte_case (a b : Z) : Loopback.spi_test :=
  Loopback.mk_test "two bytes" [] 0 0 0 0 2
    [mk_xfer a 0 1; mk_xfer b 0 1] 0 FILL_COUNT_8.

(** One transmit transfer of [n] bytes filled with a running counter. *)
Definition counting_case (fill_opt n : Z) : Loopback.spi_test :=
  Loopback.mk_test "counter" [] 0 0 0 0 1 [mk_xfer tx_base 0 n] 0 fill_opt.

(** The second entry of the basic driver's own table, on a 32-bit target
    with 4 KiB pages. *)
Definition basic_simple_rx : Basic.spi_test :=
  Basic.mk_test "simple rx-transfer"
    [16; 32; 64; 128; 256; 1024; 4096; 32768; 65536; 131072]
    [] [1; 2; 3; 4; 5; 6; 7] 0 0 1
    [mk_xfer 0 (@Basic.RX arm32 0) 1] 0 FILL_MEMSET_8.

(** The same transfer in the loopback driver's table format. *)
Definition loopback_simple_rx : Loopback.spi_test :=
  Loopback.mk_test "rx-transfer - only"
    [16; 32; 64; 128; 256; 1024; 4096; 131072] 0 4 0 0 1
    [mk_xfer 0 (@Loopback.RX arm32 0) 1] 0 FILL_MEMSET_8.

(** A transmit-only case that declares -EFAULT as its expected outcome. *)
Definition loopback_expects_efault : Loopback.spi_test :=
  Loopback.mk_test "expects EFAULT" [] 0 0 0 (- EFAULT) 1
    [mk_xfer (@Loopback.TX arm32 0) 0 1] 0 FILL_MEMSET_8.

Definition basic_expects_efault : Basic.spi_test :=
  Basic.mk_test "expects EFAULT" [] [] [] 0 (- EFAULT) 1
    [mk_xfer (@Basic.TX arm32 0) 0 1] 0 FILL_MEMSET_8.

(** In the loopback driver both pointers of [x] resolve and [y] is [x] with
    the resolved pointers. *)
Definition resolves {tg : Target} (tx rx : Z) (x y : spi_transfer) : Prop :=
  Loopback.spi_test_translate (tx_buf x) (len x) tx rx = (0, tx_buf y) /\
  Loopback.spi_test_translate (rx_buf x) (len x) tx rx = (0, rx_buf y) /\
  len y = len x.

(** A case whose second transfer starts one byte before the end of the RX
    region and is two bytes long. *)
Definition loopback_overrun_case : Loopback.spi_test :=
  Loopback.mk_test "overrun" [] 0 0 0 0 2
    [mk_xfer (@Loopback.TX arm32 0) 0 4;
     mk_xfer 0 (@Loopback.RX arm32 (33 * 4096 - 1)) 2] 0 FILL_MEMSET_8.

(** A transport that must not be reached: it fails and scribbles on memory. *)
Definition loopback_hostile_env : Loopback.env :=
  Loopback.mk_env 0 0 1 0 (fun _ _ => mk_sync (- EIO) 0 0 (fun _ => 255))
                  (fun _ _ _ _ _ _ => (- EIO, fun _ => 255)) 0 0.

(** A transmit-only case as the earlier listing's table has them. *)
Definition early_simple_tx : Basic.spi_test :=
  Basic.mk_test "simple tx-transfer" [16; 32] [1; 2] [] 0 0 1
    [mk_xfer (@Early.TX arm32 0) 0 1] 0 FILL_MEMSET_8.

Definition early_hostile_env : Early.env :=
  Early.mk_env (fun _ _ => mk_sync (- EIO) 0 0 (fun _ => 255))
               (fun _ _ _ _ _ _ => (- EIO, fun _ => 255)).

(** A case of three transfers, the middle one without a transmit buffer. *)
Definition loopback_three_transfers (fill_opt : Z) : Loopback.spi_test :=
  Loopback.mk_test "three transfers" [] 0 0 0 0 3
    [mk_xfer tx_base 0 1; mk_xfer 0 rx_base 8; mk_xfer (tx_base + 16) 0 2]
    43981 fill_opt.

(** The slice of [fill] the memset options store at counter value [k]: the
    [bytes] argument of [GET_VALUE_BYTE] is [fill_option + 1]. *)
Definition memset_byte {tg : Target} (t : Loopback.spi_test) (k : Z) : Z :=
  let bytes := Loopback.fill_option t + 1 in
  to_u8 (Z.shiftr (Loopback.fill t)
           (8 * (if BIG_ENDIAN then bytes - 1 - k mod bytes
                 else k mod bytes))).

(** The slice of the byte index [j] the transfer-byte options store at
    counter value [k]: [bytes] is [fill_option - 7]. *)
Definition transfer_byte {tg : Target} (fill_opt j k : Z) : Z :=
  let bytes := fill_opt - 7 in
  to_u8 (Z.shiftr j
           (8 * (if BIG_ENDIAN then bytes - 1 - k mod bytes
                 else k mod bytes))).

(** The bytes of the buffers of a message, null buffers left out. *)
Definition message_bytes {tg : Target} (msg : list spi_transfer) : list Z :=
  flat_map (fun x =>
              (if tx_buf x =? 0 then [] else byte_range (tx_buf x) (len x))
              ++ (if rx_buf x =? 0 then []
                  else byte_range (rx_buf x) (len x))) msg.

(** A transport that transfers nothing and reports success. *)
Definition loopback_idle_bus_env : Loopback.env :=
  Loopback.mk_env 0 0 1 0 (fun _ m => mk_sync 0 0 0 m)
                  (fun _ _ _ _ _ m => (0, m)) 0 0.

(** A full-duplex case of two bytes. *)
Definition loopback_duplex_case : Loopback.spi_test :=
  Loopback.mk_test "duplex" [] 0 0 0 0 1
    [mk_xfer (@Loopback.TX arm32 0) (@Loopback.RX arm32 0) 2] 0 FILL_MEMSET_8.

(** The bound of an alignment axis as the macro computes it: one pass for an
    unconfigured axis, else the controller's alignment if it declares one,
    else the configured count. *)
Definition alignment_count (dma iterate_var : Z) : Z :=
  if iterate_var =? 0 then 1
  else if dma =? 0 then iterate_var else dma.

(** A callee that passes everywhere. *)
Definition pass_always {A : Type} (a : A) (s : unit) : Z * unit := (0, s).

(** A case that leaves its transfer count to be derived and fills all four
    slots of the transfer array. *)
Definition loopback_auto_four : Loopback.spi_test :=
  Loopback.mk_test "auto count" [] 0 0 0 0 0
    (repeat (mk_xfer (@Loopback.TX arm32 0) 0 1) 4) 0 FILL_MEMSET_8.



(** A transmit-only transfer followed by a full-duplex one, with an
    alignment axis for the receive side. *)
Definition loopback_tx_then_duplex : Loopback.spi_test :=
  Loopback.mk_test "tx then duplex" [] 0 2 0 0 2
    [mk_xfer (@Loopback.TX arm32 0) 0 4;
     mk_xfer (@Loopback.TX arm32 16) (@Loopback.RX arm32 16) 4]
    0 FILL_MEMSET_8.

(** An environment whose indeterminate locals happen to hold 0. *)
Definition loopback_bus_env : Loopback.env :=
  Loopback.mk_env 0 0 0 0 (fun _ m => mk_sync 0 0 0 m)
                  (fun _ _ _ _ _ m => (0, m)) 0 0.

(** * Properties *)

(** ** Words *)

Section Words.
Context {tg : Target}.
Hypothesis Hok : target_ok.

Lemma pow_ptr_bits_ge : 2 ^ 32 <= 2 ^ ptr_bits.
Proof. destruct Hok as [Hb _]. apply Z.pow_le_mono_r; lia. Qed.

Lemma pow_ptr_bits_pos : 0 < 2 ^ ptr_bits.
Proof. pose proof pow_ptr_bits_ge. lia. Qed.

Lemma to_size_t_small (v : Z) : 0 <= v < 2 ^ 32 -> to_size_t v = v.
Proof.
  intros Hv. unfold to_size_t. pose proof pow_ptr_bits_ge.
  apply Z.mod_small. lia.
Qed.

Lemma to_size_t_id (v : Z) : 0 <= v < 2 ^ ptr_bits -> to_size_t v = v.
Proof. intros Hv. unfold to_size_t. now apply Z.mod_small. Qed.

Lemma to_size_t_range (v : Z) : 0 <= to_size_t v < 2 ^ ptr_bits.
Proof. unfold to_size_t. apply Z.mod_pos_bound, pow_ptr_bits_pos. Qed.

Lemma to_size_t_idem (v : Z) : to_size_t (to_size_t v) = to_size_t v.
Proof. apply to_size_t_id, to_size_t_range. Qed.

End Words.

Lemma ptr_add_add {tg : Target} (p a b : Z) :
  ptr_add (ptr_add p a) b = ptr_add p (a + b).
Proof.
  unfold ptr_add, to_size_t. rewrite Zplus_mod_idemp_l. f_equal. lia.
Qed.

Lemma to_size_t_succ {tg : Target} (c : Z) :
  to_size_t (to_size_t c + 1) = to_size_t (c + 1).
Proof. unfold to_size_t. apply Zplus_mod_idemp_l. Qed.

(** ** Address translation *)

Ltac bool_true := symmetry; first [apply Z.leb_le | apply Z.ltb_lt | apply Z.eqb_eq]; lia.
Ltac bool_false := symmetry; first [apply Z.leb_gt | apply Z.ltb_ge | apply Z.eqb_neq]; lia.

Section LoopbackTranslate.
Context {tg : Target}.
Hypothesis Hok : target_ok.

Import Loopback.

Lemma loopback_RX_val (off : Z) :
  0 <= off < 2 ^ 31 -> RX off = 2 ^ 30 + off.
Proof.
  intros Hoff. unfold RX, RX_START.
  rewrite (to_size_t_small Hok (2 ^ 30)) by lia.
  apply (to_size_t_small Hok). lia.
Qed.

Lemma loopback_TX_val (off : Z) :
  0 <= off < 2 ^ 31 -> TX off = 2 ^ 31 + off.
Proof.
  intros Hoff. unfold TX, TX_START.
  rewrite (to_size_t_small Hok (2 ^ 31)) by lia.
  apply (to_size_t_small Hok). lia.
Qed.

Lemma loopback_size_plus : 0 < SPI_TEST_MAX_SIZE_PLUS < 2 ^ 30.
Proof.
  destruct Hok as (_ & Hp & Hs).
  unfold SPI_TEST_MAX_SIZE_PLUS, SPI_TEST_MAX_SIZE. lia.
Qed.

(** A null placeholder is left alone, on any target. *)
Lemma loopback_translate_null (len0 tx rx : Z) :
  spi_test_translate 0 len0 tx rx = (0, 0).
Proof. reflexivity. Qed.

(** A range inside the RX region resolves to [rx + off]. *)
Lemma loopback_translate_rx_in_range (off len0 tx rx : Z) :
  0 <= off -> 0 <= len0 -> off + len0 <= SPI_TEST_MAX_SIZE_PLUS ->
  spi_test_translate (RX off) len0 tx rx = (0, ptr_add rx off).
Proof.
  intros Hoff Hlen Hin. pose proof loopback_size_plus as Hs.
  unfold spi_test_translate.
  rewrite (loopback_RX_val off), (loopback_RX_val 0),
    (loopback_RX_val SPI_TEST_MAX_SIZE_PLUS) by lia.
  replace (2 ^ 30 + off =? 0) with false by bool_false.
  replace (2 ^ 30 + 0 <=? 2 ^ 30 + off) with true by bool_true.
  unfold ptr_add at 1. rewrite (to_size_t_small Hok) by lia.
  replace (2 ^ 30 + off + len0 <=? 2 ^ 30 + SPI_TEST_MAX_SIZE_PLUS)
    with true by bool_true.
  cbn [andb]. unfold ptr_diff.
  replace (2 ^ 30 + off - (2 ^ 30 + 0)) with off by lia.
  rewrite (to_size_t_small Hok off) by lia. reflexivity.
Qed.

(** A range inside the TX region resolves to [tx + off]. *)
Lemma loopback_translate_tx_in_range (off len0 tx rx : Z) :
  0 <= off -> 0 <= len0 -> off + len0 <= SPI_TEST_MAX_SIZE_PLUS ->
  spi_test_translate (TX off) len0 tx rx = (0, ptr_add tx off).
Proof.
  intros Hoff Hlen Hin. pose proof loopback_size_plus as Hs.
  unfold spi_test_translate.
  rewrite (loopback_TX_val off), (loopback_RX_val 0), (loopback_TX_val 0),
    (loopback_RX_val SPI_TEST_MAX_SIZE_PLUS),
    (loopback_TX_val SPI_TEST_MAX_SIZE_PLUS) by lia.
  replace (2 ^ 31 + off =? 0) with false by bool_false.
  replace (2 ^ 30 + 0 <=? 2 ^ 31 + off) with true by bool_true.
  unfold ptr_add at 1 3. rewrite (to_size_t_small Hok) by lia.
  replace (2 ^ 31 + off + len0 <=? 2 ^ 30 + SPI_TEST_MAX_SIZE_PLUS)
    with false by bool_false.
  replace (2 ^ 31 + 0 <=? 2 ^ 31 + off) with true by bool_true.
  replace (2 ^ 31 + off + len0 <=? 2 ^ 31 + SPI_TEST_MAX_SIZE_PLUS)
    with true by bool_true.
  cbn [andb]. unfold ptr_diff.
  replace (2 ^ 31 + off - (2 ^ 31 + 0)) with off by lia.
  rewrite (to_size_t_small Hok off) by lia. reflexivity.
Qed.

(** A non-null pointer whose range [ptr, ptr + len0) fits the address space
    and lies in neither region is refused and left as it is: there is no
    clamping. *)
Lemma loopback_translate_outside (ptr len0 tx rx : Z) :
  0 < ptr -> 0 <= len0 -> ptr + len0 < 2 ^ ptr_bits ->
  ~ (2 ^ 30 <= ptr /\ ptr + len0 <= 2 ^ 30 + SPI_TEST_MAX_SIZE_PLUS) ->
  ~ (2 ^ 31 <= ptr /\ ptr + len0 <= 2 ^ 31 + SPI_TEST_MAX_SIZE_PLUS) ->
  spi_test_translate ptr len0 tx rx = (- EINVAL, ptr).
Proof.
  intros Hp Hlen Hfit Hrx Htx. pose proof loopback_size_plus as Hs.
  unfold spi_test_translate.
  rewrite (loopback_RX_val 0), (loopback_TX_val 0),
    (loopback_RX_val SPI_TEST_MAX_SIZE_PLUS),
    (loopback_TX_val SPI_TEST_MAX_SIZE_PLUS) by lia.
  replace (ptr =? 0) with false by bool_false.
  unfold ptr_add. rewrite (to_size_t_id (ptr + len0)) by lia.
  destruct (Z.leb_spec (2 ^ 30 + 0) ptr);
    destruct (Z.leb_spec (ptr + len0) (2 ^ 30 + SPI_TEST_MAX_SIZE_PLUS));
    destruct (Z.leb_spec (2 ^ 31 + 0) ptr);
    destruct (Z.leb_spec (ptr + len0) (2 ^ 31 + SPI_TEST_MAX_SIZE_PLUS));
    cbn [andb]; try reflexivity; exfalso; lia.
Qed.

(** An RX placeholder below the TX base whose range runs past the end of
    the RX region is refused. *)
Lemma loopback_translate_rx_past_end (off len0 tx rx : Z) :
  0 <= off -> 0 <= len0 -> SPI_TEST_MAX_SIZE_PLUS < off + len0 ->
  off < 2 ^ 30 -> 2 ^ 30 + off + len0 < 2 ^ ptr_bits ->
  spi_test_translate (RX off) len0 tx rx = (- EINVAL, RX off).
Proof.
  intros Hoff Hlen Hout Htag Hfit.
  rewrite (loopback_RX_val off) by lia.
  apply loopback_translate_outside; lia.
Qed.

(** A TX placeholder whose range runs past the end of the TX region is
    refused. *)
Lemma loopback_translate_tx_past_end (off len0 tx rx : Z) :
  0 <= off -> 0 <= len0 -> SPI_TEST_MAX_SIZE_PLUS < off + len0 ->
  off < 2 ^ 31 -> 2 ^ 31 + off + len0 < 2 ^ ptr_bits ->
  spi_test_translate (TX off) len0 tx rx = (- EINVAL, TX off).
Proof.
  intros Hoff Hlen Hout Htag Hfit. pose proof loopback_size_plus.
  rewrite (loopback_TX_val off) by lia.
  apply loopback_translate_outside; lia.
Qed.

End LoopbackTranslate.

Section BasicTranslate.
Context {tg : Target}.
Hypothesis Hok : target_ok.

Import Basic.

Lemma basic_RX_val (off : Z) :
  0 <= off < 2 ^ 31 -> RX off = 2 ^ 30 + off.
Proof.
  intros Hoff. unfold RX, RX_START.
  change (to_int (2 ^ 30)) with (2 ^ 30).
  apply (to_size_t_small Hok). lia.
Qed.

Lemma basic_TX_val (off : Z) :
  0 <= off < 2 ^ 31 -> TX off = 2 ^ ptr_bits - 2 ^ 31 + off.
Proof.
  intros Hoff. unfold TX, TX_START.
  change (to_int (2 * 2 ^ 30)) with (- 2 ^ 31).
  unfold to_size_t. pose proof (pow_ptr_bits_ge Hok).
  replace (- 2 ^ 31 + off) with (2 ^ ptr_bits - 2 ^ 31 + off + (-1) * 2 ^ ptr_bits) by lia.
  rewrite Z_mod_plus_full. apply Z.mod_small. lia.
Qed.

(** A range that ends strictly before the end of the RX region resolves. *)
Lemma basic_translate_rx_in_range (off len0 tx rx : Z) :
  0 <= off -> 0 <= len0 -> off + len0 < SPI_TEST_MAX_SIZE ->
  spi_test_translate (RX off) len0 tx rx = (0, ptr_add rx off).
Proof.
  intros Hoff Hlen Hin.
  assert (Hs : 0 < SPI_TEST_MAX_SIZE < 2 ^ 30)
    by (destruct Hok as (_ & ? & ?); unfold SPI_TEST_MAX_SIZE; lia).
  unfold spi_test_translate.
  rewrite (basic_RX_val off), (basic_RX_val 0),
    (basic_RX_val SPI_TEST_MAX_SIZE) by lia.
  replace (2 ^ 30 + off =? 0) with false by bool_false.
  replace (2 ^ 30 + 0 <=? 2 ^ 30 + off) with true by bool_true.
  unfold ptr_add at 1. rewrite (to_size_t_small Hok) by lia.
  replace (2 ^ 30 + off + len0 <? 2 ^ 30 + SPI_TEST_MAX_SIZE)
    with true by bool_true.
  cbn [andb]. unfold ptr_diff.
  replace (2 ^ 30 + off - (2 ^ 30 + 0)) with off by lia.
  rewrite (to_size_t_small Hok off) by lia. reflexivity.
Qed.

(** A range that ends exactly at the end of the RX region is refused: the
    comparison is strict. *)
Lemma basic_translate_rx_at_end (off len0 tx rx : Z) :
  0 <= off -> 0 <= len0 -> off + len0 = SPI_TEST_MAX_SIZE ->
  spi_test_translate (RX off) len0 tx rx = (- EINVAL, RX off).
Proof.
  intros Hoff Hlen Hin.
  assert (Hs : 0 < SPI_TEST_MAX_SIZE < 2 ^ 30)
    by (destruct Hok as (_ & ? & ?); unfold SPI_TEST_MAX_SIZE; lia).
  pose proof (pow_ptr_bits_ge Hok) as Hw.
  unfold spi_test_translate.
  rewrite (basic_RX_val off), (basic_RX_val 0), (basic_TX_val 0),
    (basic_RX_val SPI_TEST_MAX_SIZE), (basic_TX_val SPI_TEST_MAX_SIZE) by lia.
  replace (2 ^ 30 + off =? 0) with false by bool_false.
  unfold ptr_add. rewrite (to_size_t_small Hok) by lia.
  replace (2 ^ 30 + off + len0 <? 2 ^ 30 + SPI_TEST_MAX_SIZE)
    with false by bool_false.
  replace (2 ^ ptr_bits - 2 ^ 31 + 0 <=? 2 ^ 30 + off) with false by bool_false.
  rewrite andb_false_r. reflexivity.
Qed.

End BasicTranslate.

(** ** Loops with early return *)

Section ForEach.
Context {A St : Type}.
Implicit Types (body : A -> St -> Z * St) (l : list A) (s : St).

Lemma for_each_ext body body' l s :
  (forall a s0, body a s0 = body' a s0) ->
  for_each body l s = for_each body' l s.
Proof.
  intros Hext. revert s. induction l as [|a l IH]; intros s; cbn.
  - reflexivity.
  - rewrite Hext. destruct (body' a s) as [r s'].
    destruct (r =? 0); [apply IH | reflexivity].
Qed.

Lemma for_each_app body l1 l2 s :
  for_each body (l1 ++ l2) s =
  let (r, s') := for_each body l1 s in
  if r =? 0 then for_each body l2 s' else (r, s').
Proof.
  revert s. induction l1 as [|a l1 IH]; intros s; cbn.
  - reflexivity.
  - destruct (body a s) as [r s'].
    destruct (Z.eqb_spec r 0) as [->|Hr].
    + apply IH.
    + apply Z.eqb_neq in Hr. now rewrite Hr.
Qed.

End ForEach.

Section Traced.
Context {A St : Type}.
Implicit Types (body : A -> St -> Z * St) (l : list A) (s : St).

(** When every element of [l] passes, the traced loop has called the body on
    all of [l], in order. *)
Lemma for_each_traced_ok body l s s' tr :
  for_each body l s = (0, s') ->
  for_each (traced body) l (s, tr) = (0, (s', tr ++ l)).
Proof.
  revert s tr. induction l as [|a l IH]; intros s tr; cbn.
  - intros [= <-]. now rewrite app_nil_r.
  - unfold traced at 1. cbn [fst snd].
    destruct (body a s) as [r s1].
    destruct (Z.eqb_spec r 0) as [->|Hr].
    + intros H. rewrite (IH s1 (tr ++ [a]) H). now rewrite <- app_assoc.
    + intros [= E _]. congruence.
Qed.

(** The first failing element ends the loop: it is the last one called and
    its return value is the loop's. *)
Lemma for_each_traced_abort body pre p post s s1 s2 e tr :
  for_each body pre s = (0, s1) ->
  body p s1 = (e, s2) -> e <> 0 ->
  for_each (traced body) (pre ++ p :: post) (s, tr)
  = (e, (s2, tr ++ pre ++ [p])).
Proof.
  intros Hpre Hp He. rewrite for_each_app.
  rewrite (for_each_traced_ok body pre s s1 tr Hpre). cbn.
  unfold traced at 1. cbn [fst snd]. rewrite Hp.
  apply Z.eqb_neq in He. rewrite He. now rewrite app_assoc.
Qed.

Lemma for_each_abort body pre p post s s1 s2 e :
  for_each body pre s = (0, s1) ->
  body p s1 = (e, s2) -> e <> 0 ->
  for_each body (pre ++ p :: post) s = (e, s2).
Proof.
  intros Hpre Hp He. rewrite for_each_app, Hpre. cbn. rewrite Hp.
  apply Z.eqb_neq in He. now rewrite He.
Qed.

End Traced.

Lemma for_each_map {A B St : Type} (f : A -> B) (body : B -> St -> Z * St)
  (l : list A) (s : St) :
  for_each body (map f l) s = for_each (fun a => body (f a)) l s.
Proof.
  revert s. induction l as [|a l IH]; intros s; cbn.
  - reflexivity.
  - destruct (body (f a) s) as [r s']. destruct (r =? 0); [apply IH | reflexivity].
Qed.

Lemma for_each_flat_map {A B St : Type} (f : A -> list B)
  (body : B -> St -> Z * St) (l : list A) (s : St) :
  for_each body (flat_map f l) s = for_each (fun a => for_each body (f a)) l s.
Proof.
  revert s. induction l as [|a l IH]; intros s; cbn.
  - reflexivity.
  - rewrite for_each_app. destruct (for_each body (f a) s) as [r s'].
    destruct (r =? 0); [apply IH | reflexivity].
Qed.

Section MacroFacts.
Context {tg : Target} {St : Type}.
Implicit Types (body : Z -> St -> Z * St) (s : St).

Lemma iterate_slots_for_each n idx arr body s :
  iterate_slots n idx arr body s = for_each body (slot_values n idx arr) s.
Proof.
  revert idx s. induction n as [|n IH]; intros idx s; cbn.
  - reflexivity.
  - destruct (to_size_t (nth (Z.to_nat idx) arr 0) =? 0); cbn.
    + reflexivity.
    + destruct (body _ s) as [r s']. destruct (r =? 0); [apply IH | reflexivity].
Qed.

Lemma FOR_EACH_ITERATE_for_each d arr body s :
  FOR_EACH_ITERATE d arr body s = for_each body (iterate_values d arr) s.
Proof.
  unfold FOR_EACH_ITERATE, iterate_values. cbn [for_each].
  destruct (body d s) as [r s']. destruct (r =? 0); [|reflexivity].
  apply iterate_slots_for_each.
Qed.

Lemma alignment_steps_for_each n var body s :
  alignment_steps n var body s = for_each body (count_up n var) s.
Proof.
  revert var s. induction n as [|n IH]; intros var s; cbn.
  - reflexivity.
  - destruct (body var s) as [r s']. destruct (r =? 0); [apply IH | reflexivity].
Qed.

Lemma FOR_EACH_ALIGNMENT_for_each dma it body s :
  FOR_EACH_ALIGNMENT dma it body s
  = for_each body (alignment_values dma it) s.
Proof. apply alignment_steps_for_each. Qed.

Lemma for_each_triples (run_iter : Z * Z * Z -> St -> Z * St) ls ts rs s :
  for_each (fun l => for_each (fun a => for_each (fun b => run_iter (l, a, b)) rs) ts) ls s
  = for_each run_iter (triples ls ts rs) s.
Proof.
  unfold triples. rewrite for_each_flat_map.
  apply for_each_ext. intros l s0. rewrite for_each_flat_map.
  apply for_each_ext. intros a s1. now rewrite for_each_map.
Qed.

(** The loopback driver runs its callee over [loopback_iter_points], unless
    the transfer-limit test fails. *)
Lemma loopback_run_loop_points run_iter dma (t : Loopback.spi_test) s :
  Loopback.transfer_count t < SPI_TEST_MAX_TRANSFERS ->
  Loopback.spi_test_run_loop run_iter dma t s
  = for_each run_iter (loopback_iter_points dma t) s.
Proof.
  intros Hc. unfold Loopback.spi_test_run_loop, loopback_iter_points.
  replace (Loopback.transfer_count t >=? SPI_TEST_MAX_TRANSFERS) with false
    by (symmetry; rewrite Z.geb_leb; apply Z.leb_gt; lia).
  rewrite FOR_EACH_ITERATE_for_each, <- for_each_triples.
  apply for_each_ext. intros l s0. rewrite FOR_EACH_ALIGNMENT_for_each.
  apply for_each_ext. intros a s1. apply FOR_EACH_ALIGNMENT_for_each.
Qed.

(** The basic driver runs its callee over [basic_iter_points]. *)
Lemma basic_run_loop_points run_iter (t : Basic.spi_test) s :
  Basic.spi_test_run_loop run_iter t s
  = for_each run_iter (basic_iter_points t) s.
Proof.
  unfold Basic.spi_test_run_loop, basic_iter_points.
  rewrite FOR_EACH_ITERATE_for_each, <- for_each_triples.
  apply for_each_ext. intros l s0. rewrite FOR_EACH_ITERATE_for_each.
  apply for_each_ext. intros a s1. apply FOR_EACH_ITERATE_for_each.
Qed.

End MacroFacts.

Lemma probe_loop_for_each {T St : Type} (descr : T -> string)
  (run : T -> St -> Z * St) (tests : list T) (s : St) :
  probe_loop descr run tests s
  = for_each run (catalog_entries descr tests) s.
Proof.
  revert s. induction tests as [|t tests IH]; intros s; cbn.
  - reflexivity.
  - destruct (descr t); cbn; [reflexivity|].
    destruct (run t s) as [r s']. destruct (r =? 0); [apply IH | reflexivity].
Qed.

(** ** The iteration driver *)

Lemma nth_repeat_zero (i k : nat) : nth i (repeat 0 k) 0 = 0.
Proof.
  revert i. induction k as [|k IH]; intros [|i]; cbn; auto.
Qed.

Section IterationPoints.
Context {tg : Target}.
Hypothesis Hok : target_ok.

Lemma iterate_values_16_32 (arr : list Z) :
  length_axis_16_32 arr -> iterate_values 0 arr = [0; 16; 32].
Proof.
  intros [k ->]. unfold iterate_values.
  change (Z.to_nat SPI_TEST_MAX_ITERATE) with 12%nat.
  change ([16; 32] ++ repeat 0 k) with (16 :: 32 :: repeat 0 k).
  cbn [slot_values].
  change (Z.to_nat 0) with 0%nat. change (Z.to_nat (0 + 1)) with 1%nat.
  change (Z.to_nat (0 + 1 + 1)) with 2%nat. cbn [nth].
  rewrite nth_repeat_zero.
  rewrite !(to_size_t_small Hok) by lia. reflexivity.
Qed.

Lemma iterate_values_unset (arr : list Z) :
  unset_axis arr -> iterate_values 0 arr = [0].
Proof.
  intros [k ->]. unfold iterate_values.
  change (Z.to_nat SPI_TEST_MAX_ITERATE) with 12%nat.
  cbn [slot_values]. rewrite nth_repeat_zero.
  rewrite (to_size_t_small Hok) by lia. reflexivity.
Qed.

Lemma alignment_values_unset (dma : Z) : alignment_values dma 0 = [0].
Proof.
  unfold alignment_values, alignment_bound. cbn [Z.eqb negb].
  rewrite (to_size_t_small Hok) by lia. reflexivity.
Qed.

End IterationPoints.

(** C3, as the claim states it, fails: run in simulate-only mode on a
    32-bit target, a case whose only configured axis holds the lengths 16
    and 32 is executed at three iteration points, in both generations of
    the driver: the default pass with length 0 comes first. *)
Lemma length_axis_16_32_not_two_points :
  let loopback_run :=
    @Loopback.spi_test_run_loop arm32 _
      (traced (@Loopback.run_iter_at arm32 loopback_sim_env
                 loopback_two_lengths tx_base rx_base))
      0 loopback_two_lengths (zero_mem, []) in
  let basic_run :=
    @Basic.spi_test_run_loop arm32 _
      (traced (@Basic.run_iter_at arm32 basic_sim_env
                 basic_two_lengths tx_base rx_base))
      basic_two_lengths (zero_mem, []) in
  length_axis_16_32 (Loopback.iterate_len loopback_two_lengths) /\
  length_axis_16_32 (Basic.iterate_len basic_two_lengths) /\
  fst loopback_run = 0 /\
  snd (snd loopback_run) = [(0, 0, 0); (16, 0, 0); (32, 0, 0)] /\
  fst basic_run = 0 /\
  snd (snd basic_run) = [(0, 0, 0); (16, 0, 0); (32, 0, 0)] /\
  List.length (snd (snd loopback_run)) <> 2%nat /\
  List.length (snd (snd basic_run)) <> 2%nat.
Proof.
  cbv zeta. repeat split; try (now exists 0%nat); try (vm_compute; reflexivity);
    vm_compute; discriminate.
Qed.

(** C3 (amended): for a test case whose length axis is configured with
    exactly the values 16 and 32 and whose alignment (loopback driver) or
    offset (basic driver) axes are unconfigured, the iteration driver runs
    its callee over exactly three iteration points, in this order: the
    default pass with length 0, then length 16, then length 32, stopping at
    the first one that fails; when none fails, exactly these three points
    are executed.  (The loopback driver first requires a transfer count
    below the limit.) *)
Theorem length_axis_16_32_three_points :
  forall (tg : Target) (St : Type) (run_iter : Z * Z * Z -> St -> Z * St)
         (dma : Z) (t : Loopback.spi_test) (tb : Basic.spi_test) (s : St),
    target_ok ->
    Loopback.transfer_count t < SPI_TEST_MAX_TRANSFERS ->
    length_axis_16_32 (Loopback.iterate_len t) ->
    Loopback.iterate_tx_align t = 0 ->
    Loopback.iterate_rx_align t = 0 ->
    length_axis_16_32 (Basic.iterate_len tb) ->
    unset_axis (Basic.iterate_tx_off tb) ->
    unset_axis (Basic.iterate_rx_off tb) ->
    let points := [(0, 0, 0); (16, 0, 0); (32, 0, 0)] in
    Loopback.spi_test_run_loop run_iter dma t s = for_each run_iter points s /\
    Basic.spi_test_run_loop run_iter tb s = for_each run_iter points s /\
    (forall s', for_each run_iter points s = (0, s') ->
       Loopback.spi_test_run_loop (traced run_iter) dma t (s, [])
         = (0, (s', points)) /\
       Basic.spi_test_run_loop (traced run_iter) tb (s, [])
         = (0, (s', points))).
Proof.
  intros tg St run_iter dma t tb s Hok Hc Hlen Htx Hrx Hblen Hbtx Hbrx points.
  assert (Hlp : loopback_iter_points dma t = points).
  { unfold loopback_iter_points. rewrite Htx, Hrx.
    rewrite (iterate_values_16_32 Hok _ Hlen), (alignment_values_unset Hok).
    reflexivity. }
  assert (Hbp : basic_iter_points tb = points).
  { unfold basic_iter_points.
    rewrite (iterate_values_16_32 Hok _ Hblen),
      (iterate_values_unset Hok _ Hbtx), (iterate_values_unset Hok _ Hbrx).
    reflexivity. }
  split; [|split].
  - rewrite loopback_run_loop_points by assumption. now rewrite Hlp.
  - rewrite basic_run_loop_points. now rewrite Hbp.
  - intros s' Hrun. split.
    + rewrite loopback_run_loop_points by assumption. rewrite Hlp.
      apply (for_each_traced_ok run_iter points s s' [] Hrun).
    + rewrite basic_run_loop_points. rewrite Hbp.
      apply (for_each_traced_ok run_iter points s s' [] Hrun).
Qed.

Lemma length_axis_16_32_three_points_witness :
  @target_ok arm32 /\
  Loopback.transfer_count loopback_two_lengths < SPI_TEST_MAX_TRANSFERS /\
  length_axis_16_32 (Loopback.iterate_len loopback_two_lengths) /\
  length_axis_16_32 (Basic.iterate_len basic_two_lengths) /\
  unset_axis (Basic.iterate_tx_off basic_two_lengths) /\
  @Loopback.spi_test_run_loop arm32 _ fail_at_16 0 loopback_two_lengths tt
    = for_each fail_at_16 [(0, 0, 0); (16, 0, 0); (32, 0, 0)] tt.
Proof.
  assert (Hok : @target_ok arm32) by (unfold target_ok; cbn; lia).
  assert (Hl : length_axis_16_32 [16; 32]) by (exists 0%nat; reflexivity).
  assert (Hu : unset_axis []) by (exists 0%nat; reflexivity).
  assert (Hc : Loopback.transfer_count loopback_two_lengths
               < SPI_TEST_MAX_TRANSFERS) by (cbn; unfold SPI_TEST_MAX_TRANSFERS; lia).
  refine (conj Hok (conj Hc (conj Hl (conj Hl (conj Hu _))))).
  exact (proj1 (length_axis_16_32_three_points arm32 unit fail_at_16 0
                  loopback_two_lengths basic_two_lengths tt
                  Hok Hc Hl eq_refl eq_refl Hl Hu Hu)).
Defined.

(** ** The transfer limit *)

Lemma basic_iter_points_head {tg : Target} (tb : Basic.spi_test) :
  exists rest, basic_iter_points tb = (0, 0, 0) :: rest.
Proof.
  unfold basic_iter_points, triples, iterate_values. cbn [flat_map map app].
  eexists. reflexivity.
Qed.

Lemma basic_run_iter_too_many {tg : Target} (eb : Basic.env)
  (tb : Basic.spi_test) (tx rx l a b : Z) (m : mem) :
  SPI_TEST_MAX_TRANSFERS <= Basic.transfers tb ->
  Basic.spi_test_run_iter eb tb tx rx l a b m = (- E2BIG, m).
Proof.
  intros Hc. unfold Basic.spi_test_run_iter, Basic._spi_test_run.
  cbn [Basic.iter_working_copy Basic.set_xfers Basic.transfers].
  replace (Basic.transfers tb >=? SPI_TEST_MAX_TRANSFERS) with true
    by (symmetry; rewrite Z.geb_leb; apply Z.leb_le; lia).
  reflexivity.
Qed.

(** C8: a test case declaring at least SPI_TEST_MAX_TRANSFERS transfers is
    refused with -E2BIG before anything else happens.  In the loopback
    driver [spi_test_run] returns at once: its callee is never invoked (the
    trace of iteration points stays empty) and the state, buffers included,
    is the one it was given.  In the basic driver [_spi_test_run] returns
    before the translation loop, with the memory untouched, whatever the
    iteration values, so the whole [spi_test_run] fails at its first point.
    With a count strictly below the limit the test passes: the loopback
    driver goes on to iterate, the basic driver to build and execute. *)
Theorem too_many_transfers_rejected :
  forall (tg : Target) (St : Type) (run_iter : Z * Z * Z -> St -> Z * St)
         (dma : Z) (t : Loopback.spi_test) (s : St)
         (e : Loopback.env) (eb : Basic.env) (tb : Basic.spi_test)
         (tx rx : Z) (m : mem),
    (SPI_TEST_MAX_TRANSFERS <= Loopback.transfer_count t ->
       Loopback.spi_test_run_loop run_iter dma t s = (- E2BIG, s) /\
       Loopback.spi_test_run_loop (traced run_iter) dma t (s, [])
         = (- E2BIG, (s, [])) /\
       Loopback.spi_test_run e tx rx t m = (- E2BIG, m)) /\
    (Loopback.transfer_count t < SPI_TEST_MAX_TRANSFERS ->
       Loopback.spi_test_run_loop run_iter dma t s
         = for_each run_iter (loopback_iter_points dma t) s) /\
    (SPI_TEST_MAX_TRANSFERS <= Basic.transfers tb ->
       Basic._spi_test_run eb tb tx rx m = (- E2BIG, m) /\
       (forall l a b,
          Basic.spi_test_run_iter eb tb tx rx l a b m = (- E2BIG, m)) /\
       Basic.spi_test_run eb tx rx tb m = (- E2BIG, m)) /\
    (Basic.transfers tb < SPI_TEST_MAX_TRANSFERS ->
       Basic._spi_test_run eb tb tx rx m
         = Basic.build_and_execute eb tb tx rx m).
Proof.
  intros tg St run_iter dma t s e eb tb tx rx m.
  assert (Hge : forall c, SPI_TEST_MAX_TRANSFERS <= c ->
                          (c >=? SPI_TEST_MAX_TRANSFERS) = true)
    by (intros c Hc; rewrite Z.geb_leb; apply Z.leb_le; lia).
  assert (Hlt : forall c, c < SPI_TEST_MAX_TRANSFERS ->
                          (c >=? SPI_TEST_MAX_TRANSFERS) = false)
    by (intros c Hc; rewrite Z.geb_leb; apply Z.leb_gt; lia).
  split; [|split; [|split]].
  - intros Hc. unfold Loopback.spi_test_run, Loopback.spi_test_run_loop.
    rewrite (Hge _ Hc). auto.
  - intros Hc. now apply loopback_run_loop_points.
  - intros Hc. split; [|split].
    + unfold Basic._spi_test_run. now rewrite (Hge _ Hc).
    + intros l a b. now apply basic_run_iter_too_many.
    + unfold Basic.spi_test_run. rewrite basic_run_loop_points.
      destruct (basic_iter_points_head tb) as [rest ->]. cbn [for_each].
      unfold Basic.run_iter_at at 1.
      rewrite basic_run_iter_too_many by assumption. reflexivity.
  - intros Hc. unfold Basic._spi_test_run. now rewrite (Hlt _ Hc).
Qed.

Lemma too_many_transfers_rejected_witness :
  SPI_TEST_MAX_TRANSFERS <= Loopback.transfer_count loopback_four_transfers /\
  SPI_TEST_MAX_TRANSFERS <= Basic.transfers basic_four_transfers /\
  Loopback.transfer_count loopback_two_lengths < SPI_TEST_MAX_TRANSFERS /\
  Basic.transfers basic_two_lengths < SPI_TEST_MAX_TRANSFERS /\
  @Loopback.spi_test_run arm32 loopback_sim_env tx_base rx_base
     loopback_four_transfers zero_mem = (- E2BIG, zero_mem) /\
  @Loopback.spi_test_run_loop arm32 _ fail_at_16 0 loopback_two_lengths tt
    = for_each fail_at_16 (@loopback_iter_points arm32 0 loopback_two_lengths) tt /\
  @Basic.spi_test_run arm32 basic_sim_env tx_base rx_base
     basic_four_transfers zero_mem = (- E2BIG, zero_mem) /\
  @Basic._spi_test_run arm32 basic_sim_env basic_two_lengths tx_base rx_base
     zero_mem
    = @Basic.build_and_execute arm32 basic_sim_env basic_two_lengths tx_base
        rx_base zero_mem.
Proof.
  assert (H4 : SPI_TEST_MAX_TRANSFERS <= 4) by (vm_compute; discriminate).
  assert (H0 : 0 < SPI_TEST_MAX_TRANSFERS) by reflexivity.
  assert (H1 : 1 < SPI_TEST_MAX_TRANSFERS) by reflexivity.
  pose proof (too_many_transfers_rejected arm32 unit fail_at_16 0
                loopback_four_transfers tt loopback_sim_env basic_sim_env
                basic_four_transfers tx_base rx_base zero_mem)
    as (Hl & _ & Hb & _).
  pose proof (too_many_transfers_rejected arm32 unit fail_at_16 0
                loopback_two_lengths tt loopback_sim_env basic_sim_env
                basic_two_lengths tx_base rx_base zero_mem)
    as (_ & Hl' & _ & Hb').
  refine (conj H4 (conj H4 (conj H0 (conj H1 _)))).
  refine (conj (proj2 (proj2 (Hl H4))) (conj (Hl' H0) _)).
  exact (conj (proj2 (proj2 (Hb H4))) (Hb' H1)).
Defined.

(** ** Abort on the first error *)

(** C9: when an iteration point fails, the iteration driver returns that
    point's error at once; the points called are those before it, which
    passed, and the failing one, none after it.  This holds for whatever
    sequence the enumeration produces, in both generations of the driver.
    The catalog loop of [spi_test_probe] does the same with test cases: the
    first case whose run returns an error is the last one run, and its
    error is what the probe returns, once both buffers are allocated. *)
Theorem first_error_aborts_enumeration :
  forall (tg : Target) (St : Type) (run_iter : Z * Z * Z -> St -> Z * St)
         (dma : Z) (t : Loopback.spi_test) (tb : Basic.spi_test)
         (T : Type) (descr : T -> string) (run : T -> St -> Z * St)
         (tests : list T),
    (forall pre p post s s1 s2 err,
       Loopback.transfer_count t < SPI_TEST_MAX_TRANSFERS ->
       loopback_iter_points dma t = pre ++ p :: post ->
       for_each run_iter pre s = (0, s1) ->
       run_iter p s1 = (err, s2) -> err <> 0 ->
       Loopback.spi_test_run_loop run_iter dma t s = (err, s2) /\
       Loopback.spi_test_run_loop (traced run_iter) dma t (s, [])
         = (err, (s2, pre ++ [p]))) /\
    (forall pre p post s s1 s2 err,
       basic_iter_points tb = pre ++ p :: post ->
       for_each run_iter pre s = (0, s1) ->
       run_iter p s1 = (err, s2) -> err <> 0 ->
       Basic.spi_test_run_loop run_iter tb s = (err, s2) /\
       Basic.spi_test_run_loop (traced run_iter) tb (s, [])
         = (err, (s2, pre ++ [p]))) /\
    (forall pre c post s s1 s2 err,
       catalog_entries descr tests = pre ++ c :: post ->
       for_each run pre s = (0, s1) ->
       run c s1 = (err, s2) -> err <> 0 ->
       probe_loop descr run tests s = (err, s2) /\
       probe_loop descr (traced run) tests (s, [])
         = (err, (s2, pre ++ [c]))) /\
    (forall e spi_tests rx tx pre c post m m1 m2 err,
       rx <> 0 -> tx <> 0 ->
       catalog_entries Loopback.description spi_tests = pre ++ c :: post ->
       for_each (Loopback.spi_test_run e tx rx) pre m = (0, m1) ->
       Loopback.spi_test_run e tx rx c m1 = (err, m2) -> err <> 0 ->
       Loopback.spi_test_probe e spi_tests rx tx m = (err, m2)) /\
    (forall e spi_tests rx tx pre c post m m1 m2 err,
       rx <> 0 -> tx <> 0 ->
       catalog_entries Basic.description spi_tests = pre ++ c :: post ->
       for_each (Basic.spi_test_run e tx rx) pre m = (0, m1) ->
       Basic.spi_test_run e tx rx c m1 = (err, m2) -> err <> 0 ->
       Basic.spi_test_probe e spi_tests rx tx m = (err, m2)).
Proof.
  intros tg St run_iter dma t tb T descr run tests.
  split; [|split; [|split; [|split]]].
  - intros pre p post s s1 s2 err Hc Hpts Hpre Hp Herr.
    rewrite !loopback_run_loop_points by assumption. rewrite Hpts. split.
    + eapply for_each_abort; eassumption.
    + change (pre ++ [p]) with ([] ++ pre ++ [p]).
      eapply for_each_traced_abort; eassumption.
  - intros pre p post s s1 s2 err Hpts Hpre Hp Herr.
    rewrite !basic_run_loop_points. rewrite Hpts. split.
    + eapply for_each_abort; eassumption.
    + change (pre ++ [p]) with ([] ++ pre ++ [p]).
      eapply for_each_traced_abort; eassumption.
  - intros pre c post s s1 s2 err Hpts Hpre Hp Herr.
    rewrite !probe_loop_for_each. rewrite Hpts. split.
    + eapply for_each_abort; eassumption.
    + change (pre ++ [c]) with ([] ++ pre ++ [c]).
      eapply for_each_traced_abort; eassumption.
  - intros e spi_tests rx tx pre c post m m1 m2 err Hrx Htx Hpts Hpre Hp Herr.
    unfold Loopback.spi_test_probe.
    apply Z.eqb_neq in Hrx, Htx. rewrite Hrx, Htx.
    rewrite probe_loop_for_each, Hpts. eapply for_each_abort; eassumption.
  - intros e spi_tests rx tx pre c post m m1 m2 err Hrx Htx Hpts Hpre Hp Herr.
    unfold Basic.spi_test_probe.
    apply Z.eqb_neq in Hrx, Htx. rewrite Hrx, Htx.
    rewrite probe_loop_for_each, Hpts. eapply for_each_abort; eassumption.
Qed.

Lemma first_error_aborts_enumeration_witness :
  Loopback.transfer_count loopback_two_lengths < SPI_TEST_MAX_TRANSFERS /\
  @loopback_iter_points arm32 0 loopback_two_lengths
    = [(0, 0, 0)] ++ (16, 0, 0) :: [(32, 0, 0)] /\
  @basic_iter_points arm32 basic_two_lengths
    = [(0, 0, 0)] ++ (16, 0, 0) :: [(32, 0, 0)] /\
  for_each fail_at_16 [(0, 0, 0)] tt = (0, tt) /\
  fail_at_16 (16, 0, 0) tt = (- EIO, tt) /\
  - EIO <> 0 /\
  catalog_entries Loopback.description example_catalog
    = [named_case "first"] ++ named_case "bad" :: [named_case "third"] /\
  for_each fail_on_bad [named_case "first"] tt = (0, tt) /\
  fail_on_bad (named_case "bad") tt = (- EIO, tt) /\
  @Loopback.spi_test_run_loop arm32 _ (traced fail_at_16) 0
     loopback_two_lengths (tt, [])
    = (- EIO, (tt, [(0, 0, 0); (16, 0, 0)])) /\
  @Basic.spi_test_run_loop arm32 _ (traced fail_at_16)
     basic_two_lengths (tt, [])
    = (- EIO, (tt, [(0, 0, 0); (16, 0, 0)])) /\
  probe_loop Loopback.description (traced fail_on_bad) example_catalog
     (tt, [])
    = (- EIO, (tt, [named_case "first"; named_case "bad"])).
Proof.
  assert (Hc : Loopback.transfer_count loopback_two_lengths
               < SPI_TEST_MAX_TRANSFERS) by reflexivity.
  assert (Hne : - EIO <> 0) by discriminate.
  pose proof (first_error_aborts_enumeration arm32 unit fail_at_16 0
                loopback_two_lengths basic_two_lengths
                Loopback.spi_test Loopback.description fail_on_bad
                example_catalog) as (Hl & Hb & Hp & _).
  refine (conj Hc (conj eq_refl (conj eq_refl (conj eq_refl
            (conj eq_refl (conj Hne (conj eq_refl (conj eq_refl
              (conj eq_refl _))))))))).
  refine (conj _ (conj _ _)).
  - exact (proj2 (Hl [(0, 0, 0)] (16, 0, 0) [(32, 0, 0)] tt tt tt (- EIO)
                    Hc eq_refl eq_refl eq_refl Hne)).
  - exact (proj2 (Hb [(0, 0, 0)] (16, 0, 0) [(32, 0, 0)] tt tt tt (- EIO)
                    eq_refl eq_refl eq_refl Hne)).
  - exact (proj2 (Hp [named_case "first"] (named_case "bad")
                    [named_case "third"] tt tt tt (- EIO)
                    eq_refl eq_refl eq_refl Hne)).
Defined.

(** ** The fill pass *)

Lemma count_up_shift (n : nat) (s : Z) :
  count_up n (s + 1) = map (Z.add 1) (count_up n s).
Proof.
  revert s. induction n as [|n IH]; intros s; cbn [count_up map].
  - reflexivity.
  - rewrite IH. f_equal. lia.
Qed.

Lemma count_up_length (n : nat) (s : Z) : List.length (count_up n s) = n.
Proof. revert s. induction n as [|n IH]; intros s; cbn; auto. Qed.

Lemma count_up_app (n k : nat) (s : Z) :
  count_up (n + k) s = count_up n s ++ count_up k (s + Z.of_nat n).
Proof.
  revert s. induction n as [|n IH]; intros s.
  - cbn. f_equal. lia.
  - cbn [Nat.add count_up app]. rewrite IH. do 3 f_equal. lia.
Qed.

Lemma count_up_In (n : nat) (s a : Z) :
  In a (count_up n s) <-> s <= a < s + Z.of_nat n.
Proof.
  revert s. induction n as [|n IH]; intros s; cbn [count_up In].
  - lia.
  - rewrite IH. lia.
Qed.

Section LoopbackFill.
Context {tg : Target}.

Import Loopback.

Lemma fill_value_none (t : spi_test) (i j c : Z) :
  fill_value t i j c = None <-> fill_supported (fill_option t) = false.
Proof.
  unfold fill_value. destruct (fill_option t) as [|p|p].
  - split; discriminate.
  - do 5 (destruct p as [p|p|]; try (split; (reflexivity || discriminate))).
  - split; reflexivity.
Qed.

Lemma fill_value_some (t : spi_test) (i j c : Z) :
  fill_supported (fill_option t) = true ->
  fill_value t i j c = Some (match fill_value t i j c with
                             | Some v => v | None => 0 end).
Proof.
  intros Hs. destruct (fill_value t i j c) eqn:E; [reflexivity|].
  apply fill_value_none in E. congruence.
Qed.

(** The inner loop, for an option that has a case: it stores [n] bytes at
    consecutive addresses and advances the counter once per byte. *)
Lemma fill_bytes_spec (t : spi_test) (i : Z) (n : nat) :
  forall j p d c,
    fill_supported (fill_option t) = true ->
    fill_bytes t i n j (ptr_add p d) (to_size_t c)
    = (0, to_size_t (c + Z.of_nat n),
       map (fun k => (ptr_add p (d + k),
                      loopback_fill_byte t i (j + k) (to_size_t (c + k))))
           (count_up n 0)).
Proof.
  induction n as [|n IH]; intros j p d c Hs.
  - cbn. now rewrite Z.add_0_r.
  - cbn [fill_bytes]. rewrite (fill_value_some t i j (to_size_t c) Hs).
    rewrite ptr_add_add, to_size_t_succ, (IH (j + 1) p (d + 1) (c + 1) Hs).
    cbn [count_up map]. rewrite (count_up_shift n 0), map_map.
    rewrite !Z.add_0_r.
    replace (c + Z.of_nat (S n)) with (c + 1 + Z.of_nat n) by lia.
    assert (Hhd : to_u8 match fill_value t i j (to_size_t c) with
                        | Some v => v | None => 0 end
                  = loopback_fill_byte t i j (to_size_t c)).
    { unfold loopback_fill_byte.
      now rewrite (fill_value_some t i j (to_size_t c) Hs). }
    rewrite Hhd. do 2 f_equal.
    apply map_ext. intros k. now rewrite !Z.add_assoc.
Qed.

(** The inner loop, for an option without a case: the first byte already
    takes the [default:] branch. *)
Lemma fill_bytes_unsupported (t : spi_test) (i : Z) (n : nat) (j tx c : Z) :
  fill_supported (fill_option t) = false ->
  fill_bytes t i n j tx c
  = (match n with O => 0 | S _ => - EINVAL end, c, []).
Proof.
  intros Hs. destruct n as [|n]; cbn [fill_bytes]; [reflexivity|].
  now rewrite (proj2 (fill_value_none t i j c) Hs).
Qed.

(** The whole pass, for an option that has a case: it succeeds and its
    stores go, in order, to the bytes of the transfers with a transmit
    buffer; the counter ends advanced by the number of stores. *)
Lemma fill_transfers_supported (t : spi_test) (xs : list spi_transfer) :
  forall i c,
    fill_supported (fill_option t) = true ->
    fst (fill_transfers t i xs (to_size_t c)) = 0 /\
    map fst (snd (fill_transfers t i xs (to_size_t c))) = tx_ranges xs.
Proof.
  induction xs as [|x xs IH]; intros i c Hs; cbn [fill_transfers].
  - split; reflexivity.
  - unfold tx_ranges. cbn [flat_map]. fold (tx_ranges xs).
    destruct (tx_buf x =? 0).
    + apply IH, Hs.
    + rewrite (fill_bytes_spec t i _ 0 (tx_buf x) 0 c Hs). cbn [Z.eqb].
      destruct (IH (i + 1) (c + Z.of_nat (Z.to_nat (len x))) Hs) as [Hr Ha].
      destruct (fill_transfers t (i + 1) xs _) as [r ops]. cbn [fst snd] in *.
      split; [assumption|]. rewrite map_app. f_equal; [|exact Ha].
      rewrite map_map. cbn [fst]. unfold byte_range.
      apply map_ext. intros k. now rewrite Z.add_0_l.
Qed.

(** The whole pass, for an option without a case: nothing is stored. *)
Lemma fill_transfers_unsupported (t : spi_test) (xs : list spi_transfer) :
  forall i c,
    fill_supported (fill_option t) = false ->
    snd (fill_transfers t i xs c) = [].
Proof.
  induction xs as [|x xs IH]; intros i c Hs; cbn [fill_transfers].
  - reflexivity.
  - destruct (tx_buf x =? 0); [apply IH, Hs|].
    rewrite (fill_bytes_unsupported t i _ 0 _ c Hs).
    destruct (Z.to_nat (len x)); cbn [Z.eqb Z.opp EINVAL]; [|reflexivity].
    specialize (IH (i + 1) c Hs).
    destruct (fill_transfers t (i + 1) xs c) as [r ops]. exact IH.
Qed.

(** Transfers without a transmit buffer at the head of the list are passed
    over, whatever the fill option, their length or their receive buffer. *)
Lemma fill_transfers_skip_null (t : spi_test) (x : spi_transfer)
  (xs : list spi_transfer) (i c : Z) :
  tx_buf x = 0 ->
  fill_transfers t i (x :: xs) c = fill_transfers t (i + 1) xs c.
Proof. intros Hx. cbn [fill_transfers]. now rewrite Hx. Qed.

(** A list holding only transfers without a transmit buffer is filled
    without a store and without an error, for every fill option. *)
Lemma fill_transfers_all_null (t : spi_test) (xs : list spi_transfer) :
  forall i c,
    Forall (fun x => tx_buf x = 0) xs ->
    fill_transfers t i xs c = (0, []).
Proof.
  induction xs as [|x xs IH]; intros i c Hall.
  - reflexivity.
  - inversion Hall as [|? ? Hx Hxs]; subst.
    rewrite fill_transfers_skip_null by assumption. now apply IH.
Qed.

End LoopbackFill.

Lemma count_up_shift_by (n : nat) (s d : Z) :
  count_up n (s + d) = map (Z.add d) (count_up n s).
Proof.
  revert s. induction n as [|n IH]; intros s; cbn [count_up map].
  - reflexivity.
  - replace (s + d + 1) with (s + 1 + d) by lia. rewrite IH. f_equal. lia.
Qed.

Lemma nth_count_up (n k : nat) (s d : Z) :
  (k < n)%nat -> nth k (count_up n s) d = s + Z.of_nat k.
Proof.
  revert k s. induction n as [|n IH]; intros k s Hk; [lia|].
  destruct k as [|k]; cbn [count_up nth].
  - lia.
  - rewrite IH by lia. lia.
Qed.

Lemma to_size_t_0 {tg : Target} : to_size_t 0 = 0.
Proof. apply Zmod_0_l. Qed.

Section LoopbackCounting.
Context {tg : Target}.

Import Loopback.

Lemma loopback_fill_byte_counting (t : spi_test) (i j c : Z) :
  fill_counting (fill_option t) = true ->
  loopback_fill_byte t i j c = counter_byte (fill_option t) c.
Proof.
  intros Hc. unfold fill_counting in Hc.
  apply andb_prop in Hc as [Hlo Hhi].
  apply Z.leb_le in Hlo. apply Z.leb_le in Hhi.
  assert (Hopt : fill_option t = 4 \/ fill_option t = 5 \/
                 fill_option t = 6 \/ fill_option t = 7) by lia.
  unfold loopback_fill_byte, fill_value, counter_byte, GET_VALUE_BYTE.
  destruct Hopt as [-> | [-> | [-> | ->]]]; cbn [Z.sub Z.add Z.opp Z.pos_sub
    Pos.pred_double Z.succ_double Z.pred_double Z.double].
  - rewrite Z.mod_1_r. now destruct BIG_ENDIAN.
  - now destruct BIG_ENDIAN.
  - now destruct BIG_ENDIAN.
  - now destruct BIG_ENDIAN.
Qed.

(** In the counter modes the [k]-th store of the pass, counted over all the
    transfers, holds the slice of the counter value [c + k]. *)
Lemma fill_transfers_counting (t : spi_test) (xs : list spi_transfer) :
  forall i c,
    fill_counting (fill_option t) = true ->
    map snd (snd (fill_transfers t i xs (to_size_t c)))
    = map (fun k => counter_byte (fill_option t) (to_size_t (c + k)))
          (count_up (List.length (tx_ranges xs)) 0).
Proof.
  induction xs as [|x xs IH]; intros i c Hc; cbn [fill_transfers].
  - reflexivity.
  - assert (Hs : fill_supported (fill_option t) = true).
    { unfold fill_counting in Hc. unfold fill_supported.
      apply andb_prop in Hc as [Hlo Hhi].
      apply Z.leb_le in Hlo. apply Z.leb_le in Hhi.
      replace (0 <=? fill_option t) with true by bool_true.
      replace (fill_option t <=? 11) with true by bool_true. reflexivity. }
    unfold tx_ranges. cbn [flat_map]. fold (tx_ranges xs).
    destruct (tx_buf x =? 0).
    + apply IH, Hc.
    + rewrite (fill_bytes_spec t i _ 0 (tx_buf x) 0 c Hs). cbn [Z.eqb].
      specialize (IH (i + 1) (c + Z.of_nat (Z.to_nat (len x))) Hc).
      destruct (fill_transfers t (i + 1) xs _) as [r ops]. cbn [fst snd] in *.
      rewrite length_app. unfold byte_range at 1.
      rewrite length_map, count_up_length, count_up_app, !map_app.
      f_equal.
      * rewrite map_map. cbn [snd]. apply map_ext. intros k.
        apply loopback_fill_byte_counting, Hc.
      * unfold store_op in *. rewrite IH.
        rewrite (count_up_shift_by _ 0 (Z.of_nat (Z.to_nat (len x)))), map_map.
        apply map_ext. intros k. now rewrite Z.add_assoc.
Qed.

Lemma fill_values_counting (t : spi_test) :
  fill_counting (fill_option t) = true ->
  fill_values t
  = map (fun k => counter_byte (fill_option t) (to_size_t k))
        (count_up (List.length (tx_ranges (active_transfers t))) 0).
Proof.
  intros Hc. unfold fill_values, spi_test_fill_tx.
  rewrite <- to_size_t_0 at 1.
  rewrite (fill_transfers_counting t _ 0 0 Hc).
  apply map_ext. intros k. now rewrite Z.add_0_l.
Qed.

Lemma fill_values_counting_nth (t : spi_test) (k : nat) :
  fill_counting (fill_option t) = true ->
  (k < List.length (tx_ranges (active_transfers t)))%nat ->
  nth k (fill_values t) 0
  = counter_byte (fill_option t) (to_size_t (Z.of_nat k)).
Proof.
  intros Hc Hk. rewrite (fill_values_counting t Hc).
  rewrite (nth_indep _ 0 (counter_byte (fill_option t) (to_size_t 0)))
    by (now rewrite length_map, count_up_length).
  rewrite (map_nth (fun k => counter_byte (fill_option t) (to_size_t k))).
  rewrite nth_count_up by assumption. now rewrite Z.add_0_l.
Qed.

End LoopbackCounting.

(** C2, as the claim states it, fails: in the loopback driver, on a 32-bit
    little-endian target, the byte at a global position is not a function of
    the position modulo the mode width, whether the width is counted in
    bytes, in bits or as the range of the counter.  With FILL_COUNT_16 the
    positions 0 and 96 agree modulo 2 and modulo 16 and receive 0 and 96;
    with FILL_COUNT_24 the positions 3 and 2^24 + 3 agree modulo 2^24 and
    receive 3 and 0. *)
Lemma counter_fill_not_residue_only :
  ~ @residue_only arm32 (counting_case FILL_COUNT_16 97) 2 /\
  ~ @residue_only arm32 (counting_case FILL_COUNT_16 97) 16 /\
  ~ @residue_only arm32 (counting_case FILL_COUNT_24 (2 ^ 24 + 4)) (2 ^ 24).
Proof.
  split; [|split].
  - intros H. specialize (H 0%nat 96%nat).
    assert (Hl : List.length
                   (@fill_values arm32 (counting_case FILL_COUNT_16 97))
                 = 97%nat) by (vm_compute; reflexivity).
    rewrite Hl in H. specialize (H ltac:(lia) ltac:(lia) eq_refl).
    vm_compute in H. discriminate.
  - intros H. specialize (H 0%nat 96%nat).
    assert (Hl : List.length
                   (@fill_values arm32 (counting_case FILL_COUNT_16 97))
                 = 97%nat) by (vm_compute; reflexivity).
    rewrite Hl in H. specialize (H ltac:(lia) ltac:(lia) eq_refl).
    vm_compute in H. discriminate.
  - intros H.
    set (t := counting_case FILL_COUNT_24 (2 ^ 24 + 4)) in *.
    assert (Hc : fill_counting (Loopback.fill_option t) = true)
      by reflexivity.
    assert (Hlen : List.length
                     (@tx_ranges arm32 (Loopback.active_transfers t))
                   = Z.to_nat (2 ^ 24 + 4)).
    { unfold t, tx_ranges, counting_case, Loopback.active_transfers.
      cbn [Loopback.transfer_count Loopback.transfers].
      change (Z.to_nat 1) with 1%nat.
      cbn [firstn flat_map tx_buf len].
      change (tx_base =? 0) with false. cbn iota.
      rewrite app_nil_r. unfold byte_range.
      now rewrite length_map, count_up_length. }
    assert (Hlv : List.length (@fill_values arm32 t)
                  = Z.to_nat (2 ^ 24 + 4)).
    { eapply eq_trans;
        [exact (f_equal (@List.length Z) (@fill_values_counting arm32 t Hc))|].
      eapply eq_trans; [apply length_map|].
      eapply eq_trans; [apply count_up_length|]. exact Hlen. }
    assert (H3 : (3 < List.length
                        (@tx_ranges arm32 (Loopback.active_transfers t)))%nat)
      by (rewrite Hlen; lia).
    assert (Hk : (Z.to_nat (2 ^ 24 + 3)
                  < List.length
                      (@tx_ranges arm32 (Loopback.active_transfers t)))%nat)
      by (rewrite Hlen; lia).
    pose proof (@fill_values_counting_nth arm32 t 3 Hc H3) as E1.
    pose proof (@fill_values_counting_nth arm32 t _ Hc Hk) as E2.
    rewrite Z2Nat.id in E2 by lia.
    assert (Hneq : @counter_byte arm32 6 (@to_size_t arm32 (Z.of_nat 3))
                   <> @counter_byte arm32 6 (@to_size_t arm32 (2 ^ 24 + 3)))
      by (vm_compute; discriminate).
    apply Hneq. change 6 with (Loopback.fill_option t).
    rewrite <- E1, <- E2. clear E1 E2.
    apply H.
    + rewrite Hlv. lia.
    + rewrite Hlv. lia.
    + rewrite Z2Nat.id by lia. reflexivity.
Qed.

(** C2 (amended): in the running-counter fill modes of the loopback driver
    the pass succeeds, stores exactly one byte per byte of every transfer
    that has a transmit buffer, in order, and the byte stored at global
    position k, counted over the whole transfer set, is the slice of the
    counter value k itself (k modulo 2^ptr_bits, as the counter is a
    size_t): slice number k mod width, taken from the low end on
    little-endian targets and from the high end on big-endian ones.  It
    depends on k and on the mode only, never on where the transfers begin:
    the counter advances once per byte written and is not reset between
    transfers.  In particular two consecutive 1-byte transfers filled with
    FILL_COUNT_8 receive the bytes 0 and 1. *)
Theorem counter_fill_follows_position :
  forall (tg : Target) (t : Loopback.spi_test),
    fill_counting (Loopback.fill_option t) = true ->
    fst (Loopback.spi_test_fill_tx t) = 0 /\
    map fst (snd (Loopback.spi_test_fill_tx t))
      = tx_ranges (Loopback.active_transfers t) /\
    fill_values t
      = map (fun k => counter_byte (Loopback.fill_option t) (to_size_t k))
            (count_up (List.length (tx_ranges (Loopback.active_transfers t)))
                      0) /\
    (forall a b,
       target_ok -> a <> 0 -> b <> 0 ->
       Loopback.spi_test_fill_tx (two_byte_case a b)
       = (0, [(ptr_add a 0, 0); (ptr_add b 0, 1)])).
Proof.
  intros tg t Hc.
  assert (Hs : fill_supported (Loopback.fill_option t) = true).
  { unfold fill_counting in Hc. unfold fill_supported.
    apply andb_prop in Hc as [Hlo Hhi].
    apply Z.leb_le in Hlo. apply Z.leb_le in Hhi.
    replace (0 <=? Loopback.fill_option t) with true by bool_true.
    replace (Loopback.fill_option t <=? 11) with true by bool_true.
    reflexivity. }
  unfold Loopback.spi_test_fill_tx. rewrite <- to_size_t_0 at 1 2.
  destruct (fill_transfers_supported t (Loopback.active_transfers t) 0 0 Hs)
    as [Hr Ha].
  split; [exact Hr|]. split; [exact Ha|]. split.
  - apply fill_values_counting, Hc.
  - intros a b Hok Ha0 Hb0.
    unfold Loopback.spi_test_fill_tx, two_byte_case, Loopback.active_transfers.
    cbn [Loopback.transfer_count Loopback.transfers].
    change (Z.to_nat 2) with 2%nat. cbn [firstn Loopback.fill_transfers tx_buf len].
    apply Z.eqb_neq in Ha0, Hb0. rewrite Ha0, Hb0.
    change (Z.to_nat 1) with 1%nat.
    cbn [Loopback.fill_bytes Loopback.fill_value Loopback.fill_option].
    cbn [Z.eqb app]. rewrite (to_size_t_small Hok (0 + 1)) by lia.
    reflexivity.
Qed.

Lemma counter_fill_follows_position_witness :
  fill_counting (Loopback.fill_option (two_byte_case tx_base (tx_base + 64)))
    = true /\
  @target_ok arm32 /\ tx_base <> 0 /\ tx_base + 64 <> 0 /\
  @fill_values arm32 (two_byte_case tx_base (tx_base + 64)) = [0; 1] /\
  @Loopback.spi_test_fill_tx arm32 (two_byte_case tx_base (tx_base + 64))
    = (0, [(tx_base, 0); (tx_base + 64, 1)]).
Proof.
  assert (Hok : @target_ok arm32) by (unfold target_ok; cbn; lia).
  assert (Ha : tx_base <> 0) by discriminate.
  assert (Hb : tx_base + 64 <> 0) by discriminate.
  pose proof (counter_fill_follows_position arm32
                (two_byte_case tx_base (tx_base + 64)) eq_refl)
    as (_ & _ & Hv & Hex).
  refine (conj eq_refl (conj Hok (conj Ha (conj Hb (conj Hv _))))).
  exact (Hex tx_base (tx_base + 64) Hok Ha Hb).
Defined.

(** The loopback driver passes over transfers without a transmit buffer:
    every store of the fill pass goes to a byte of a transfer that has one,
    a list holding none of those is filled without a store or an error
    whatever the fill option, and when the option has a case the pass
    succeeds and stores to every byte of every transmit buffer, in order. *)
Lemma loopback_fill_skips_null (tg : Target) (t : Loopback.spi_test) :
  (forall op, In op (snd (Loopback.spi_test_fill_tx t)) ->
              In (fst op) (tx_ranges (Loopback.active_transfers t))) /\
  (Forall (fun x => tx_buf x = 0) (Loopback.active_transfers t) ->
   Loopback.spi_test_fill_tx t = (0, [])) /\
  (fill_supported (Loopback.fill_option t) = true ->
   fst (Loopback.spi_test_fill_tx t) = 0 /\
   map fst (snd (Loopback.spi_test_fill_tx t))
     = tx_ranges (Loopback.active_transfers t)).
Proof.
  assert (Hsup : fill_supported (Loopback.fill_option t) = true ->
                 fst (Loopback.spi_test_fill_tx t) = 0 /\
                 map fst (snd (Loopback.spi_test_fill_tx t))
                   = tx_ranges (Loopback.active_transfers t)).
  { intros Hs. unfold Loopback.spi_test_fill_tx.
    rewrite <- to_size_t_0 at 1 2.
    now apply fill_transfers_supported. }
  split; [|split; [|exact Hsup]].
  - intros op Hop.
    destruct (fill_supported (Loopback.fill_option t)) eqn:Hs.
    + destruct (Hsup eq_refl) as [_ <-]. now apply in_map.
    + unfold Loopback.spi_test_fill_tx in Hop.
      rewrite fill_transfers_unsupported in Hop by assumption. destruct Hop.
  - intros Hall. now apply fill_transfers_all_null.
Qed.

(** C4 (failing input, basic driver): filling the table's own receive-only
    transfer, whose transmit buffer is null, is not skipped: the pass stores
    a byte through the null pointer.  Run on that entry in simulate-only
    mode, the driver overwrites the byte at address 0.  The loopback driver
    stores nothing for the same transfer. *)
Theorem basic_fill_stores_through_null :
  @Basic.spi_test_fill_tx arm32 basic_simple_rx = (0, [(0, 0)]) /\
  load (store zero_mem 0 170) 0 = 170 /\
  fst (@Basic.spi_test_run_iter arm32 basic_sim_env basic_simple_rx
         tx_base rx_base 0 0 0 (store zero_mem 0 170)) = 0 /\
  load (snd (@Basic.spi_test_run_iter arm32 basic_sim_env basic_simple_rx
               tx_base rx_base 0 0 0 (store zero_mem 0 170))) 0 = 0 /\
  @Loopback.spi_test_fill_tx arm32 loopback_simple_rx = (0, []).
Proof. repeat split; vm_compute; reflexivity. Qed.

(** Address arithmetic wraps: on a 32-bit target the range of length
    2^32 - 1 starting at RX(0) ends, modulo 2^32, just below RX(0) and is
    taken to lie in the RX region, by either generation of the driver. *)
Lemma translate_wrapping_range (tx rx : Z) :
  @Loopback.spi_test_translate arm32 (@Loopback.RX arm32 0) (2 ^ 32 - 1) tx rx
    = (0, @ptr_add arm32 rx 0) /\
  @Basic.spi_test_translate arm32 (@Basic.RX arm32 0) (2 ^ 32 - 1) tx rx
    = (0, @ptr_add arm32 rx 0).
Proof. split; reflexivity. Qed.

(** C1 (failing input, basic driver): a placeholder range that ends exactly
    at the end of the RX region, offset 0 with length SPI_TEST_MAX_SIZE, is
    refused with -EINVAL although offset + length equals the region size;
    the table's own receive-only entry therefore fails at its last
    configured length.  The loopback driver resolves the same range. *)
Theorem basic_translate_refuses_full_region :
  forall tx rx : Z,
    @Basic.spi_test_translate arm32 (@Basic.RX arm32 0)
       (@Basic.SPI_TEST_MAX_SIZE arm32) tx rx
      = (- EINVAL, @Basic.RX arm32 0) /\
    fst (@Basic.spi_test_run_iter arm32 basic_sim_env basic_simple_rx
           tx_base rx_base (@Basic.SPI_TEST_MAX_SIZE arm32) 0 0 zero_mem)
      = - EINVAL /\
    @Loopback.spi_test_translate arm32 (@Loopback.RX arm32 0)
       (@Loopback.SPI_TEST_MAX_SIZE arm32) tx rx
      = (0, @ptr_add arm32 rx 0).
Proof.
  intros tx rx. split; [|split].
  - reflexivity.
  - vm_compute. reflexivity.
  - reflexivity.
Qed.

(** ** Outcome matching *)

Lemma loopback_run_outcome {tg : Target} (e : Loopback.env)
  (t : Loopback.spi_test) (tx rx : Z) (m : mem) (ret : Z) (m2 : mem) :
  loopback_executes e t tx rx m ret m2 ->
  Loopback._spi_test_run e t tx rx m
  = (Loopback.handle_result ret (Loopback.expected_return t), m2).
Proof.
  intros (msg & ops & Htr & Hfill & Hexec). unfold Loopback._spi_test_run.
  rewrite Htr. cbn [Z.eqb negb]. rewrite Hfill. cbn [Z.eqb negb].
  rewrite Hexec. reflexivity.
Qed.

Lemma basic_run_outcome {tg : Target} (e : Basic.env)
  (t : Basic.spi_test) (tx rx : Z) (m : mem) (ret : Z) (m2 : mem) :
  basic_executes e t tx rx m ret m2 ->
  Basic._spi_test_run e t tx rx m
  = (Basic.handle_result ret (Basic.expected_return t), m2).
Proof.
  intros (msg & ops & Hc & Htr & Hfill & Hexec).
  unfold Basic._spi_test_run, Basic.build_and_execute.
  replace (Basic.transfers t >=? SPI_TEST_MAX_TRANSFERS) with false
    by (symmetry; rewrite Z.geb_leb; apply Z.leb_gt; lia).
  rewrite Htr. cbn [Z.eqb negb]. rewrite Hfill. cbn [Z.eqb negb].
  rewrite Hexec. reflexivity.
Qed.

Lemma handle_result_cases (ret expected out : Z) :
  out = (if ret =? expected then 0
         else if negb (ret =? 0) then ret else - EFAULT) ->
  (ret = expected -> out = 0) /\
  (ret <> expected -> ret <> 0 -> out = ret) /\
  (ret <> expected -> ret = 0 ->
   out = - EFAULT /\ out <> 0 /\ (expected <> - EFAULT -> out <> expected)).
Proof.
  intros ->. unfold EFAULT.
  destruct (Z.eqb_spec ret expected); destruct (Z.eqb_spec ret 0);
    cbn [negb]; repeat split; intros; lia.
Qed.

(** C5, as the claim states it, fails: a test case that declares -EFAULT as
    its expected outcome and whose execution succeeds (simulate-only mode
    returns 0) ends with -EFAULT, the very value it expected, in both
    generations of the driver. *)
Lemma unexpected_success_may_equal_expected :
  (exists m2, @loopback_executes arm32 loopback_sim_env
                loopback_expects_efault tx_base rx_base zero_mem 0 m2) /\
  (exists m2, @basic_executes arm32 basic_sim_env
                basic_expects_efault tx_base rx_base zero_mem 0 m2) /\
  Loopback.expected_return loopback_expects_efault <> 0 /\
  ~ (fst (@Loopback._spi_test_run arm32 loopback_sim_env
            loopback_expects_efault tx_base rx_base zero_mem)
     <> Loopback.expected_return loopback_expects_efault) /\
  ~ (fst (@Basic._spi_test_run arm32 basic_sim_env
            basic_expects_efault tx_base rx_base zero_mem)
     <> Basic.expected_return basic_expects_efault).
Proof.
  split; [|split; [|split; [|split]]].
  - eexists. unfold loopback_executes. do 2 eexists. cbv zeta.
    split; [vm_compute; reflexivity|]. split; [vm_compute; reflexivity|].
    reflexivity.
  - eexists. unfold basic_executes. do 2 eexists. cbv zeta.
    split; [reflexivity|].
    split; [vm_compute; reflexivity|]. split; [vm_compute; reflexivity|].
    reflexivity.
  - discriminate.
  - intros H. apply H. vm_compute. reflexivity.
  - intros H. apply H. vm_compute. reflexivity.
Qed.

(** C5 (amended): once the build has succeeded and the execution path,
    custom or default, has produced an actual result, [_spi_test_run]
    returns 0 if the actual result equals the declared expected_return; the
    actual result itself if that is a non-zero error different from
    expected_return; and the fixed code -EFAULT if the actual result is 0
    while something else was expected.  -EFAULT is not zero, and it differs
    from the expected value unless the test case expected -EFAULT itself.
    Both generations of the driver behave so. *)
Theorem outcome_matching :
  forall (tg : Target),
    (forall e t tx rx m ret m2,
       loopback_executes e t tx rx m ret m2 ->
       let out := fst (Loopback._spi_test_run e t tx rx m) in
       let expected := Loopback.expected_return t in
       (ret = expected -> out = 0) /\
       (ret <> expected -> ret <> 0 -> out = ret) /\
       (ret <> expected -> ret = 0 ->
        out = - EFAULT /\ out <> 0 /\
        (expected <> - EFAULT -> out <> expected))) /\
    (forall e t tx rx m ret m2,
       basic_executes e t tx rx m ret m2 ->
       let out := fst (Basic._spi_test_run e t tx rx m) in
       let expected := Basic.expected_return t in
       (ret = expected -> out = 0) /\
       (ret <> expected -> ret <> 0 -> out = ret) /\
       (ret <> expected -> ret = 0 ->
        out = - EFAULT /\ out <> 0 /\
        (expected <> - EFAULT -> out <> expected))).
Proof.
  intros tg. split.
  - intros e t tx rx m ret m2 Hex out expected. subst out expected.
    rewrite (loopback_run_outcome e t tx rx m ret m2 Hex). cbn [fst].
    now apply handle_result_cases.
  - intros e t tx rx m ret m2 Hex out expected. subst out expected.
    rewrite (basic_run_outcome e t tx rx m ret m2 Hex). cbn [fst].
    now apply handle_result_cases.
Qed.

Lemma outcome_matching_witness :
  @loopback_executes arm32 loopback_sim_env loopback_simple_rx
     tx_base rx_base zero_mem 0 (exec_stores [] zero_mem) /\
  @basic_executes arm32 basic_sim_env basic_expects_efault
     tx_base rx_base zero_mem 0
     (exec_stores [(tx_base, 0)] zero_mem) /\
  0 = Loopback.expected_return loopback_simple_rx /\
  0 <> Basic.expected_return basic_expects_efault /\
  fst (@Loopback._spi_test_run arm32 loopback_sim_env loopback_simple_rx
         tx_base rx_base zero_mem) = 0 /\
  fst (@Basic._spi_test_run arm32 basic_sim_env basic_expects_efault
         tx_base rx_base zero_mem) = - EFAULT.
Proof.
  assert (Hl : @loopback_executes arm32 loopback_sim_env loopback_simple_rx
                 tx_base rx_base zero_mem 0 (exec_stores [] zero_mem)).
  { exists [mk_xfer 0 rx_base 1], []. cbv zeta.
    split; [reflexivity|]. split; reflexivity. }
  assert (Hb : @basic_executes arm32 basic_sim_env basic_expects_efault
                 tx_base rx_base zero_mem 0
                 (exec_stores [(tx_base, 0)] zero_mem)).
  { exists [mk_xfer tx_base 0 1], [(tx_base, 0)]. cbv zeta.
    split; [reflexivity|]. split; [reflexivity|]. split; reflexivity. }
  assert (He : 0 = Loopback.expected_return loopback_simple_rx)
    by reflexivity.
  assert (Hn : 0 <> Basic.expected_return basic_expects_efault)
    by discriminate.
  pose proof (outcome_matching arm32) as [HL HB].
  refine (conj Hl (conj Hb (conj He (conj Hn _)))). split.
  - exact (proj1 (HL _ _ _ _ _ _ _ Hl) He).
  - exact (proj1 (proj2 (proj2 (HB _ _ _ _ _ _ _ Hb)) Hn eq_refl)).
Defined.

(** ** The loopback verifier *)

Section LoopbackCheck.
Context {tg : Target}.

Import Loopback.

Lemma check_duplex_ok (m : mem) (x : spi_transfer) (n : nat) :
  forall i,
    check_duplex m x n i = LoopbackOk <->
    (forall k, i <= k < i + Z.of_nat n ->
               load m (ptr_add (tx_buf x) k) = load m (ptr_add (rx_buf x) k)).
Proof.
  induction n as [|n IH]; intros i; cbn [check_duplex].
  - split; [intros _ k Hk; lia | reflexivity].
  - destruct (Z.eqb_spec (load m (ptr_add (tx_buf x) i))
                         (load m (ptr_add (rx_buf x) i))) as [E|E].
    + rewrite IH. split.
      * intros H k Hk. destruct (Z.eq_dec k i) as [->|Hne]; [exact E|].
        apply H. lia.
      * intros H k Hk. apply H. lia.
    + split; [discriminate|]. intros H. exfalso. apply E, H. lia.
Qed.

Lemma check_duplex_first (m : mem) (x : spi_transfer) (n : nat) :
  forall i j,
    i <= j < i + Z.of_nat n ->
    (forall k, i <= k < j ->
               load m (ptr_add (tx_buf x) k) = load m (ptr_add (rx_buf x) k)) ->
    load m (ptr_add (tx_buf x) j) <> load m (ptr_add (rx_buf x) j) ->
    check_duplex m x n i
    = LoopbackMismatch j (load m (ptr_add (tx_buf x) j))
                         (load m (ptr_add (rx_buf x) j)).
Proof.
  induction n as [|n IH]; intros i j Hj Hbefore Hat; [lia|].
  cbn [check_duplex].
  destruct (Z.eq_dec i j) as [->|Hne].
  - apply Z.eqb_neq in Hat. now rewrite Hat.
  - rewrite (proj2 (Z.eqb_eq _ _) (Hbefore i ltac:(lia))).
    apply IH; [lia | | exact Hat]. intros k Hk. apply Hbefore. lia.
Qed.

Lemma check_idle_ok (m : mem) (x : spi_transfer) (b : Z) (n : nat) :
  forall i,
    check_idle m x b n i = LoopbackOk <->
    (forall k, i <= k < i + Z.of_nat n -> load m (ptr_add (rx_buf x) k) = b).
Proof.
  induction n as [|n IH]; intros i; cbn [check_idle].
  - split; [intros _ k Hk; lia | reflexivity].
  - destruct (Z.eqb_spec (load m (ptr_add (rx_buf x) i)) b) as [E|E].
    + rewrite IH. split.
      * intros H k Hk. destruct (Z.eq_dec k i) as [->|Hne]; [exact E|].
        apply H. lia.
      * intros H k Hk. apply H. lia.
    + split; [discriminate|]. intros H. exfalso. apply E, H. lia.
Qed.

Lemma check_idle_first (m : mem) (x : spi_transfer) (b : Z) (n : nat) :
  forall i j,
    i <= j < i + Z.of_nat n ->
    (forall k, i <= k < j -> load m (ptr_add (rx_buf x) k) = b) ->
    load m (ptr_add (rx_buf x) j) <> b ->
    check_idle m x b n i
    = LoopbackMismatch j b (load m (ptr_add (rx_buf x) j)).
Proof.
  induction n as [|n IH]; intros i j Hj Hbefore Hat; [lia|].
  cbn [check_idle].
  destruct (Z.eq_dec i j) as [->|Hne].
  - apply Z.eqb_neq in Hat. now rewrite Hat.
  - rewrite (proj2 (Z.eqb_eq _ _) (Hbefore i ltac:(lia))).
    apply IH; [lia | | exact Hat]. intros k Hk. apply Hbefore. lia.
Qed.

(** A message of one transfer has that transfer's verdict. *)
Lemma check_single (m : mem) (x : spi_transfer) :
  spi_test_check_loopback_result m [x] = check_transfer m x.
Proof.
  cbn [spi_test_check_loopback_result]. now destruct (check_transfer m x).
Qed.

(** The verifier passes a message exactly when it passes each transfer. *)
Lemma check_message_ok (m : mem) (msg : list spi_transfer) :
  spi_test_check_loopback_result m msg = LoopbackOk <->
  Forall (fun x => check_transfer m x = LoopbackOk) msg.
Proof.
  induction msg as [|x msg IH]; cbn [spi_test_check_loopback_result].
  - split; [constructor | reflexivity].
  - destruct (check_transfer m x) eqn:E.
    + rewrite IH. split.
      * intros H. now constructor.
      * intros H. now inversion H.
    + split; [discriminate|]. intros H. inversion H. congruence.
    + split; [discriminate|]. intros H. inversion H. congruence.
Qed.

(** The verifier reports the first transfer it does not pass. *)
Lemma check_message_first (m : mem) (pre post : list spi_transfer)
  (x : spi_transfer) :
  Forall (fun y => check_transfer m y = LoopbackOk) pre ->
  check_transfer m x <> LoopbackOk ->
  spi_test_check_loopback_result m (pre ++ x :: post) = check_transfer m x.
Proof.
  intros Hpre Hx. induction Hpre as [|y pre Hy _ IH];
    cbn [app spi_test_check_loopback_result].
  - destruct (check_transfer m x); congruence.
  - now rewrite Hy.
Qed.

End LoopbackCheck.

(** With the transport succeeding and the lengths agreeing, loopback mode
    makes the verifier's verdict the result of [spi_test_execute_msg]. *)
Lemma execute_msg_runs_verifier {tg : Target} (e : Loopback.env)
  (msg : list spi_transfer) (m : mem) :
  Loopback.simulate_only e = 0 -> Loopback.loopback e <> 0 ->
  sync_ret (Loopback.spi_sync e msg m) = 0 ->
  frame_length (Loopback.spi_sync e msg m)
    = actual_length (Loopback.spi_sync e msg m) ->
  fst (Loopback.spi_test_execute_msg e msg m)
  = Loopback.loopback_ret
      (Loopback.spi_test_check_loopback_result
         (sync_mem (Loopback.spi_sync e msg m)) msg).
Proof.
  intros Hsim Hloop Hret Hlen. unfold Loopback.spi_test_execute_msg.
  rewrite Hsim, Hret, Hlen, !Z.eqb_refl.
  apply Z.eqb_neq in Hloop. now rewrite Hloop.
Qed.

(** C6: for a transfer that has both a receive and a transmit buffer the
    loopback verifier succeeds if and only if the two buffers agree at every
    index from 1 to len - 1; byte 0 is never compared.  At the first index
    where they differ it fails with -EINVAL and reports that index with the
    transmitted and the received byte; so it does for the message of that
    transfer alone and inside any message whose earlier transfers pass.
    With tx = 00 11 22 it accepts
    rx = FF 11 22 and reports index 2, expected 0x22, got 0x23 for
    rx = FF 11 23. *)
Theorem loopback_duplex_verdict :
  forall (tg : Target) (m : mem) (x : spi_transfer),
    rx_buf x <> 0 -> tx_buf x <> 0 ->
    let txb := fun i => load m (ptr_add (tx_buf x) i) in
    let rxb := fun i => load m (ptr_add (rx_buf x) i) in
    (Loopback.spi_test_check_loopback_result m [x] = Loopback.LoopbackOk <->
     (forall i, 1 <= i < len x -> txb i = rxb i)) /\
    (forall i,
       1 <= i < len x ->
       (forall k, 1 <= k < i -> txb k = rxb k) ->
       txb i <> rxb i ->
       Loopback.spi_test_check_loopback_result m [x]
         = Loopback.LoopbackMismatch i (txb i) (rxb i) /\
       Loopback.loopback_ret (Loopback.spi_test_check_loopback_result m [x])
         = - EINVAL) /\
    (forall msg,
       In x msg ->
       Loopback.spi_test_check_loopback_result m msg = Loopback.LoopbackOk ->
       forall i, 1 <= i < len x -> txb i = rxb i) /\
    (forall pre post i,
       Forall (fun y => Loopback.check_transfer m y = Loopback.LoopbackOk) pre ->
       1 <= i < len x ->
       (forall k, 1 <= k < i -> txb k = rxb k) ->
       txb i <> rxb i ->
       Loopback.spi_test_check_loopback_result m (pre ++ x :: post)
         = Loopback.LoopbackMismatch i (txb i) (rxb i)) /\
    @Loopback.spi_test_check_loopback_result arm32
       (mem_with tx_base [0; 17; 34] (mem_with rx_base [255; 17; 34] zero_mem))
       [mk_xfer tx_base rx_base 3]
      = Loopback.LoopbackOk /\
    @Loopback.spi_test_check_loopback_result arm32
       (mem_with tx_base [0; 17; 34] (mem_with rx_base [255; 17; 35] zero_mem))
       [mk_xfer tx_base rx_base 3]
      = Loopback.LoopbackMismatch 2 34 35.
Proof.
  intros tg m x Hrx Htx txb rxb.
  assert (Hct : Loopback.check_transfer m x
                = Loopback.check_duplex m x (Z.to_nat (len x - 1)) 1).
  { unfold Loopback.check_transfer.
    apply Z.eqb_neq in Hrx, Htx. now rewrite Hrx, Htx. }
  assert (Hok : Loopback.check_transfer m x = Loopback.LoopbackOk <->
                (forall i, 1 <= i < len x -> txb i = rxb i)).
  { rewrite Hct, check_duplex_ok. subst txb rxb. cbv beta.
    split; intros H i Hi; apply H; lia. }
  assert (Hfirst : forall i,
             1 <= i < len x ->
             (forall k, 1 <= k < i -> txb k = rxb k) ->
             txb i <> rxb i ->
             Loopback.check_transfer m x
             = Loopback.LoopbackMismatch i (txb i) (rxb i)).
  { intros i Hi Hbefore Hat. rewrite Hct.
    apply check_duplex_first; [lia | | exact Hat].
    intros k Hk. apply Hbefore. lia. }
  rewrite check_single.
  split; [exact Hok|]. split; [|split; [|split; [|split]]].
  - intros i Hi Hbefore Hat. rewrite (Hfirst i Hi Hbefore Hat).
    split; reflexivity.
  - intros msg Hin Hmsg. apply Hok.
    apply check_message_ok in Hmsg.
    exact (proj1 (Forall_forall _ _) Hmsg x Hin).
  - intros pre post i Hpre Hi Hbefore Hat.
    rewrite check_message_first by (rewrite ?(Hfirst i Hi Hbefore Hat);
                                    (assumption || discriminate)).
    now apply Hfirst.
  - vm_compute. reflexivity.
  - vm_compute. reflexivity.
Qed.

Lemma loopback_duplex_verdict_witness :
  let m := mem_with tx_base [0; 17; 34]
             (mem_with rx_base [255; 17; 35] zero_mem) in
  let x := mk_xfer tx_base rx_base 3 in
  rx_buf x <> 0 /\ tx_buf x <> 0 /\ 1 <= 2 < len x /\
  load m (@ptr_add arm32 (tx_buf x) 1) = load m (@ptr_add arm32 (rx_buf x) 1) /\
  load m (@ptr_add arm32 (tx_buf x) 2) <> load m (@ptr_add arm32 (rx_buf x) 2) /\
  @Loopback.spi_test_check_loopback_result arm32 m [x]
    = Loopback.LoopbackMismatch 2 (load m (@ptr_add arm32 (tx_buf x) 2))
                                  (load m (@ptr_add arm32 (rx_buf x) 2)).
Proof.
  intros m x.
  assert (Hr : rx_buf x <> 0) by discriminate.
  assert (Ht : tx_buf x <> 0) by discriminate.
  assert (Hi : 1 <= 2 < len x) by (cbn; lia).
  assert (H1 : load m (@ptr_add arm32 (tx_buf x) 1)
               = load m (@ptr_add arm32 (rx_buf x) 1)) by reflexivity.
  assert (H2 : load m (@ptr_add arm32 (tx_buf x) 2)
               <> load m (@ptr_add arm32 (rx_buf x) 2)) by discriminate.
  refine (conj Hr (conj Ht (conj Hi (conj H1 (conj H2 _))))).
  refine (proj1 (proj1 (proj2 (loopback_duplex_verdict arm32 m x Hr Ht))
                   2 Hi _ H2)).
  intros k Hk. assert (k = 1) as -> by lia. exact H1.
Defined.

(** C7: for a transfer that has a receive buffer and no transmit buffer the
    loopback verifier succeeds if and only if byte 0 of the received data is
    0x00 or 0xFF and every later byte, up to index len - 1, equals byte 0.
    Any other byte 0 fails with -EINVAL reporting that byte; with a valid
    byte 0, the first later byte that differs fails with -EINVAL reporting
    its index.  rx = 00 00 00 passes, rx = 05 05 05 fails on the idle byte
    and rx = FF FF 00 fails at byte 2. *)
Theorem loopback_idle_verdict :
  forall (tg : Target) (m : mem) (x : spi_transfer),
    rx_buf x <> 0 -> tx_buf x = 0 ->
    let rxb := fun i => load m (ptr_add (rx_buf x) i) in
    (Loopback.spi_test_check_loopback_result m [x] = Loopback.LoopbackOk <->
     (rxb 0 = 0 \/ rxb 0 = 255) /\
     (forall i, 1 <= i < len x -> rxb i = rxb 0)) /\
    (rxb 0 <> 0 -> rxb 0 <> 255 ->
     Loopback.spi_test_check_loopback_result m [x]
       = Loopback.LoopbackIdle (rxb 0) /\
     Loopback.loopback_ret (Loopback.spi_test_check_loopback_result m [x])
       = - EINVAL) /\
    (forall i,
       rxb 0 = 0 \/ rxb 0 = 255 ->
       1 <= i < len x ->
       (forall k, 1 <= k < i -> rxb k = rxb 0) ->
       rxb i <> rxb 0 ->
       Loopback.spi_test_check_loopback_result m [x]
         = Loopback.LoopbackMismatch i (rxb 0) (rxb i) /\
       Loopback.loopback_ret (Loopback.spi_test_check_loopback_result m [x])
         = - EINVAL) /\
    (forall msg,
       In x msg ->
       Loopback.spi_test_check_loopback_result m msg = Loopback.LoopbackOk ->
       (rxb 0 = 0 \/ rxb 0 = 255) /\
       (forall i, 1 <= i < len x -> rxb i = rxb 0)) /\
    @Loopback.spi_test_check_loopback_result arm32
       (mem_with rx_base [0; 0; 0] zero_mem) [mk_xfer 0 rx_base 3]
      = Loopback.LoopbackOk /\
    @Loopback.spi_test_check_loopback_result arm32
       (mem_with rx_base [5; 5; 5] zero_mem) [mk_xfer 0 rx_base 3]
      = Loopback.LoopbackIdle 5 /\
    @Loopback.spi_test_check_loopback_result arm32
       (mem_with rx_base [255; 255; 0] zero_mem) [mk_xfer 0 rx_base 3]
      = Loopback.LoopbackMismatch 2 255 0.
Proof.
  intros tg m x Hrx Htx rxb.
  assert (Hct : Loopback.check_transfer m x
                = if (rxb 0 =? 0) || (rxb 0 =? 255)
                  then Loopback.check_idle m x (rxb 0)
                         (Z.to_nat (len x - 1)) 1
                  else Loopback.LoopbackIdle (rxb 0)).
  { unfold Loopback.check_transfer.
    apply Z.eqb_neq in Hrx. now rewrite Hrx, Htx. }
  assert (Hok : Loopback.check_transfer m x = Loopback.LoopbackOk <->
                (rxb 0 = 0 \/ rxb 0 = 255) /\
                (forall i, 1 <= i < len x -> rxb i = rxb 0)).
  { rewrite Hct.
    destruct (Z.eqb_spec (rxb 0) 0) as [E0|E0];
      [|destruct (Z.eqb_spec (rxb 0) 255) as [E1|E1]]; cbn [orb].
    - rewrite check_idle_ok. subst rxb. cbv beta in *. split.
      + intros H. split; [now left|]. intros i Hi. apply H. lia.
      + intros [_ H] i Hi. apply H. lia.
    - rewrite check_idle_ok. subst rxb. cbv beta in *. split.
      + intros H. split; [now right|]. intros i Hi. apply H. lia.
      + intros [_ H] i Hi. apply H. lia.
    - split; [discriminate|]. intros [[H|H] _]; contradiction. }
  rewrite check_single.
  split; [exact Hok|]. split; [|split; [|split; [|split; [|split]]]].
  - intros H0 H1. rewrite Hct.
    apply Z.eqb_neq in H0, H1. rewrite H0, H1. cbn [orb].
    split; reflexivity.
  - intros i Hidle Hi Hbefore Hat. rewrite Hct.
    assert (Hb : (rxb 0 =? 0) || (rxb 0 =? 255) = true).
    { destruct Hidle as [->| ->]; reflexivity. }
    rewrite Hb.
    rewrite (check_idle_first m x (rxb 0) _ 1 i);
      [split; reflexivity | lia | | exact Hat].
    intros k Hk. apply Hbefore. lia.
  - intros msg Hin Hmsg. apply Hok.
    apply check_message_ok in Hmsg.
    exact (proj1 (Forall_forall _ _) Hmsg x Hin).
  - vm_compute. reflexivity.
  - vm_compute. reflexivity.
  - vm_compute. reflexivity.
Qed.

Lemma loopback_idle_verdict_witness :
  let m := mem_with rx_base [255; 255; 0] zero_mem in
  let x := mk_xfer 0 rx_base 3 in
  rx_buf x <> 0 /\ tx_buf x = 0 /\ 1 <= 2 < len x /\
  load m (@ptr_add arm32 (rx_buf x) 0) = 255 /\
  load m (@ptr_add arm32 (rx_buf x) 1) = load m (@ptr_add arm32 (rx_buf x) 0) /\
  load m (@ptr_add arm32 (rx_buf x) 2) <> load m (@ptr_add arm32 (rx_buf x) 0) /\
  @Loopback.spi_test_check_loopback_result arm32 m [x]
    = Loopback.LoopbackMismatch 2 (load m (@ptr_add arm32 (rx_buf x) 0))
                                  (load m (@ptr_add arm32 (rx_buf x) 2)).
Proof.
  intros m x.
  assert (Hr : rx_buf x <> 0) by discriminate.
  assert (Hi : 1 <= 2 < len x) by (cbn; lia).
  assert (H0 : load m (@ptr_add arm32 (rx_buf x) 0) = 255) by reflexivity.
  assert (H1 : load m (@ptr_add arm32 (rx_buf x) 1)
               = load m (@ptr_add arm32 (rx_buf x) 0)) by reflexivity.
  assert (H2 : load m (@ptr_add arm32 (rx_buf x) 2)
               <> load m (@ptr_add arm32 (rx_buf x) 0)) by discriminate.
  refine (conj Hr (conj eq_refl (conj Hi (conj H0 (conj H1 (conj H2 _)))))).
  refine (proj1 (proj1 (proj2 (proj2
            (loopback_idle_verdict arm32 m x Hr eq_refl)))
            2 (or_intror H0) Hi _ H2)).
  intros k Hk. assert (k = 1) as -> by lia. exact H1.
Defined.

(** ** Patching the working copy *)

Lemma firstn_map_firstn_skipn {A : Type} (f : A -> A) (n : nat) (l : list A) :
  firstn n (map f (firstn n l) ++ skipn n l) = map f (firstn n l).
Proof.
  rewrite firstn_app, length_map, length_firstn.
  rewrite (firstn_all2 (map f (firstn n l)))
    by (rewrite length_map, length_firstn; lia).
  destruct (Nat.le_gt_cases n (List.length l)) as [Hle|Hgt].
  - replace (n - Nat.min n (List.length l))%nat with 0%nat by lia.
    cbn [firstn]. apply app_nil_r.
  - rewrite skipn_all2 by lia. rewrite firstn_nil. apply app_nil_r.
Qed.

(** C10: when the loopback driver applies an iteration point other than
    the default (0, 0, 0) to its working copy, every active transfer is
    patched so: the rx offset is added to rx_buf only where the same
    transfer's tx_buf is not null, a transfer without a transmit buffer
    keeps its rx_buf (and its null tx_buf), and the tx offset is added to
    tx_buf wherever tx_buf is not null, whatever the value of the offset. *)
Theorem iteration_patch_offsets :
  forall (tg : Target) (e : Loopback.env) (testtemplate t : Loopback.spi_test)
         (len0 tx_off rx_off : Z),
    len0 <> 0 \/ tx_off <> 0 \/ rx_off <> 0 ->
    Loopback.iter_working_copy e testtemplate len0 tx_off rx_off = Some t ->
    Loopback.active_transfers t
      = map (Loopback.patch_transfer len0 tx_off rx_off)
            (firstn (Z.to_nat (Loopback.transfer_count t))
                    (Loopback.transfers testtemplate)) /\
    (forall x,
       let x' := Loopback.patch_transfer len0 tx_off rx_off x in
       (rx_buf x' <> rx_buf x -> tx_buf x <> 0) /\
       (tx_buf x = 0 -> rx_buf x' = rx_buf x /\ tx_buf x' = 0) /\
       (tx_buf x <> 0 -> tx_buf x' = ptr_add (tx_buf x) tx_off) /\
       (tx_buf x' <> 0 -> rx_buf x' = ptr_add (rx_buf x) rx_off)).
Proof.
  intros tg e tt t len0 tx_off rx_off Hpt Hwc. split.
  - unfold Loopback.iter_working_copy in Hwc.
    destruct (negb (tx_off =? 0) && _); [discriminate|].
    destruct (negb (rx_off =? 0) && _); [discriminate|].
    replace (negb ((len0 =? 0) && (tx_off =? 0) && (rx_off =? 0)))
      with true in Hwc.
    + injection Hwc as <-. unfold Loopback.active_transfers.
      cbn [Loopback.set_transfers Loopback.transfer_count Loopback.transfers].
      apply firstn_map_firstn_skipn.
    + destruct (Z.eqb_spec len0 0); destruct (Z.eqb_spec tx_off 0);
        destruct (Z.eqb_spec rx_off 0); cbn; try reflexivity.
      exfalso. destruct Hpt as [H|[H|H]]; contradiction.
  - intros x x'. subst x'. destruct x as [txp rxp n].
    unfold Loopback.patch_transfer, set_len, set_tx_buf, set_rx_buf.
    cbv zeta.
    destruct (negb (len0 =? 0)); cbn [tx_buf rx_buf len];
      destruct (Z.eqb_spec txp 0) as [->|Htx];
      cbn [negb tx_buf rx_buf len Z.eqb];
      try (destruct (Z.eqb_spec (ptr_add txp tx_off) 0) as [E|E]);
      cbn [negb tx_buf rx_buf len];
      repeat split; intros; cbn [tx_buf rx_buf len] in *; congruence.
Qed.

Lemma iteration_patch_offsets_witness :
  let t := Loopback.mk_test "rx-transfer - only"
             [16; 32; 64; 128; 256; 1024; 4096; 131072] 0 4 0 0 1
             [mk_xfer 0 (@Loopback.RX arm32 1) 16] 0 FILL_MEMSET_8 in
  (16 <> 0 \/ 0 <> 0 \/ 1 <> 0) /\
  @Loopback.iter_working_copy arm32 loopback_sim_env loopback_simple_rx
     16 0 1 = Some (Loopback.mk_test "rx-transfer - only"
             [16; 32; 64; 128; 256; 1024; 4096; 131072] 0 4 0 0 1
             [mk_xfer 0 (@Loopback.RX arm32 0) 16] 0 FILL_MEMSET_8) /\
  @Loopback.iter_working_copy arm32 loopback_sim_env loopback_simple_rx
     16 0 1 <> Some t /\
  Loopback.active_transfers
    (Loopback.mk_test "rx-transfer - only"
       [16; 32; 64; 128; 256; 1024; 4096; 131072] 0 4 0 0 1
       [mk_xfer 0 (@Loopback.RX arm32 0) 16] 0 FILL_MEMSET_8)
    = map (@Loopback.patch_transfer arm32 16 0 1)
          [mk_xfer 0 (@Loopback.RX arm32 0) 1].
Proof.
  intros t.
  assert (Hp : 16 <> 0 \/ 0 <> 0 \/ 1 <> 0) by (left; discriminate).
  assert (Hw : @Loopback.iter_working_copy arm32 loopback_sim_env
                 loopback_simple_rx 16 0 1
               = Some (Loopback.mk_test "rx-transfer - only"
                         [16; 32; 64; 128; 256; 1024; 4096; 131072] 0 4 0 0 1
                         [mk_xfer 0 (@Loopback.RX arm32 0) 16] 0
                         FILL_MEMSET_8)) by reflexivity.
  assert (Hn : @Loopback.iter_working_copy arm32 loopback_sim_env
                 loopback_simple_rx 16 0 1 <> Some t)
    by (rewrite Hw; discriminate).
  refine (conj Hp (conj Hw (conj Hn _))).
  exact (proj1 (iteration_patch_offsets arm32 loopback_sim_env
                  loopback_simple_rx _ 16 0 1 Hp Hw)).
Defined.

(** ** The basic driver's counter modes *)

(** In the basic driver the counter cases end in [count++] and the loop
    header increments [count] again: two consecutive 1-byte transfers
    filled with FILL_COUNT_8 receive 0 and 2. *)
Lemma basic_count8_advances_twice :
  @Basic.spi_test_fill_tx arm32
     (Basic.mk_test "two bytes" [] [] [] 0 0 2
        [mk_xfer tx_base 0 1; mk_xfer (tx_base + 64) 0 1] 0 FILL_COUNT_8)
  = (0, [(tx_base, 0); (tx_base + 64, 2)]).
Proof. vm_compute. reflexivity. Qed.

(** * Further properties of the drivers *)

(** ** Address translation *)

(** X1: in the loopback driver a placeholder range that lies inside its
    region, offset >= 0 and offset + length at most SPI_TEST_MAX_SIZE_PLUS,
    resolves to the matching buffer base plus the offset, for the RX and
    for the TX region alike. *)
Theorem loopback_translate_contained :
  forall (tg : Target) (off len0 tx rx : Z),
    target_ok -> 0 <= off -> 0 <= len0 ->
    off + len0 <= Loopback.SPI_TEST_MAX_SIZE_PLUS ->
    Loopback.spi_test_translate (Loopback.RX off) len0 tx rx
      = (0, ptr_add rx off) /\
    Loopback.spi_test_translate (Loopback.TX off) len0 tx rx
      = (0, ptr_add tx off).
Proof.
  intros tg off len0 tx rx Hok Hoff Hlen Hin. split.
  - now apply loopback_translate_rx_in_range.
  - now apply loopback_translate_tx_in_range.
Qed.

Lemma loopback_translate_contained_witness :
  @target_ok arm32 /\ 0 <= 4092 /\ 0 <= 16 /\
  4092 + 16 <= @Loopback.SPI_TEST_MAX_SIZE_PLUS arm32 /\
  @Loopback.spi_test_translate arm32 (@Loopback.RX arm32 4092) 16
     tx_base rx_base = (0, rx_base + 4092) /\
  @Loopback.spi_test_translate arm32 (@Loopback.TX arm32 4092) 16
     tx_base rx_base = (0, tx_base + 4092).
Proof.
  assert (Hok : @target_ok arm32) by (unfold target_ok; cbn; lia).
  assert (H0 : 0 <= 4092) by lia.
  assert (H1 : 0 <= 16) by lia.
  assert (H2 : 4092 + 16 <= @Loopback.SPI_TEST_MAX_SIZE_PLUS arm32)
    by (vm_compute; discriminate).
  refine (conj Hok (conj H0 (conj H1 (conj H2 _)))).
  exact (loopback_translate_contained arm32 4092 16 tx_base rx_base
           Hok H0 H1 H2).
Defined.

(** X2: in the loopback driver a non-null pointer whose range
    [ptr, ptr + len) does not wrap around the address space and is contained
    in neither the RX nor the TX region is refused with -EINVAL and left as
    it was: a range that only overlaps the end of a region is not clamped. *)
Theorem loopback_translate_uncontained :
  forall (tg : Target) (ptr len0 tx rx : Z),
    target_ok -> 0 < ptr -> 0 <= len0 -> ptr + len0 < 2 ^ ptr_bits ->
    ~ (2 ^ 30 <= ptr /\
       ptr + len0 <= 2 ^ 30 + Loopback.SPI_TEST_MAX_SIZE_PLUS) ->
    ~ (2 ^ 31 <= ptr /\
       ptr + len0 <= 2 ^ 31 + Loopback.SPI_TEST_MAX_SIZE_PLUS) ->
    Loopback.spi_test_translate ptr len0 tx rx = (- EINVAL, ptr).
Proof.
  intros tg ptr len0 tx rx Hok. now apply loopback_translate_outside.
Qed.

Lemma loopback_translate_uncontained_witness :
  let ptr := 2 ^ 30 + 33 * 4096 - 1 in
  @target_ok arm32 /\ 0 < ptr /\ 0 <= 2 /\ ptr + 2 < 2 ^ @ptr_bits arm32 /\
  ptr = @Loopback.RX arm32 (@Loopback.SPI_TEST_MAX_SIZE_PLUS arm32 - 1) /\
  @Loopback.spi_test_translate arm32 ptr 2 tx_base rx_base = (- EINVAL, ptr).
Proof.
  intros ptr.
  assert (Hok : @target_ok arm32) by (unfold target_ok; cbn; lia).
  assert (H0 : 0 < ptr) by reflexivity.
  assert (H1 : 0 <= 2) by lia.
  assert (H2 : ptr + 2 < 2 ^ @ptr_bits arm32) by reflexivity.
  refine (conj Hok (conj H0 (conj H1 (conj H2 (conj eq_refl _))))).
  apply (loopback_translate_uncontained arm32 ptr 2 tx_base rx_base
           Hok H0 H1 H2).
  - intros [_ H]. vm_compute in H. apply H. reflexivity.
  - intros [H _]. vm_compute in H. apply H. reflexivity.
Defined.

Lemma wrap_32 (v : Z) :
  2 ^ 32 <= v < 2 ^ 32 + 2 ^ 32 -> v mod 2 ^ 32 = v - 2 ^ 32.
Proof.
  intros Hv. replace v with (v - 2 ^ 32 + 1 * 2 ^ 32) at 1 by lia.
  rewrite Z_mod_plus_full. apply Z.mod_small. lia.
Qed.

(** X3: neither driver guards the addition ptr + len.  On a 32-bit target
    every length from 2^32 - 2^30 up makes the range that starts at RX(0)
    end, modulo 2^32, below RX(0); both generations accept it and resolve
    the pointer to the start of the receive buffer. *)
Theorem translate_accepts_wrapping_length :
  forall (tg : Target) (len0 tx rx : Z),
    target_ok -> ptr_bits = 32 ->
    2 ^ 32 - 2 ^ 30 <= len0 < 2 ^ 32 ->
    Loopback.spi_test_translate (Loopback.RX 0) len0 tx rx
      = (0, ptr_add rx 0) /\
    Basic.spi_test_translate (Basic.RX 0) len0 tx rx
      = (0, ptr_add rx 0).
Proof.
  intros tg len0 tx rx Hok Hbits Hlen.
  pose proof (loopback_size_plus Hok) as Hs.
  assert (Hb : 0 < Basic.SPI_TEST_MAX_SIZE < 2 ^ 30)
    by (destruct Hok as (_ & ? & ?); unfold Basic.SPI_TEST_MAX_SIZE; lia).
  assert (Hadd : ptr_add (2 ^ 30 + 0) len0 = 2 ^ 30 + len0 - 2 ^ 32).
  { unfold ptr_add, to_size_t. rewrite Hbits. apply wrap_32. lia. }
  assert (Hdiff : ptr_diff (2 ^ 30 + 0) (2 ^ 30 + 0) = 0).
  { unfold ptr_diff, to_size_t. rewrite Z.sub_diag. apply Zmod_0_l. }
  split.
  - unfold Loopback.spi_test_translate.
    rewrite (loopback_RX_val Hok 0),
      (loopback_RX_val Hok Loopback.SPI_TEST_MAX_SIZE_PLUS) by lia.
    rewrite Hadd, Hdiff.
    replace (2 ^ 30 + 0 =? 0) with false by bool_false.
    replace (2 ^ 30 + 0 <=? 2 ^ 30 + 0) with true by bool_true.
    replace (2 ^ 30 + len0 - 2 ^ 32
             <=? 2 ^ 30 + Loopback.SPI_TEST_MAX_SIZE_PLUS)
      with true by bool_true.
    reflexivity.
  - unfold Basic.spi_test_translate.
    rewrite (basic_RX_val Hok 0),
      (basic_RX_val Hok Basic.SPI_TEST_MAX_SIZE) by lia.
    rewrite Hadd, Hdiff.
    replace (2 ^ 30 + 0 =? 0) with false by bool_false.
    replace (2 ^ 30 + 0 <=? 2 ^ 30 + 0) with true by bool_true.
    replace (2 ^ 30 + len0 - 2 ^ 32 <? 2 ^ 30 + Basic.SPI_TEST_MAX_SIZE)
      with true by bool_true.
    reflexivity.
Qed.

Lemma translate_accepts_wrapping_length_witness :
  @target_ok arm32 /\ @ptr_bits arm32 = 32 /\
  2 ^ 32 - 2 ^ 30 <= 2 ^ 32 - 4096 < 2 ^ 32 /\
  @Loopback.spi_test_translate arm32 (@Loopback.RX arm32 0) (2 ^ 32 - 4096)
     tx_base rx_base = (0, rx_base).
Proof.
  assert (Hok : @target_ok arm32) by (unfold target_ok; cbn; lia).
  assert (Hl : 2 ^ 32 - 2 ^ 30 <= 2 ^ 32 - 4096 < 2 ^ 32) by lia.
  refine (conj Hok (conj eq_refl (conj Hl _))).
  exact (proj1 (translate_accepts_wrapping_length arm32 (2 ^ 32 - 4096)
                  tx_base rx_base Hok eq_refl Hl)).
Defined.

Lemma basic_translate_tx_in_range {tg : Target} (off len0 tx rx : Z) :
  target_ok -> 0 <= off -> 0 <= len0 -> off + len0 < Basic.SPI_TEST_MAX_SIZE ->
  Basic.spi_test_translate (Basic.TX off) len0 tx rx = (0, ptr_add tx off).
Proof.
  intros Hok Hoff Hlen Hin.
  assert (Hs : 0 < Basic.SPI_TEST_MAX_SIZE < 2 ^ 30)
    by (destruct Hok as (_ & ? & ?); unfold Basic.SPI_TEST_MAX_SIZE; lia).
  pose proof (pow_ptr_bits_ge Hok) as Hw.
  unfold Basic.spi_test_translate.
  rewrite (basic_TX_val Hok off), (basic_RX_val Hok 0), (basic_TX_val Hok 0),
    (basic_RX_val Hok Basic.SPI_TEST_MAX_SIZE),
    (basic_TX_val Hok Basic.SPI_TEST_MAX_SIZE) by lia.
  replace (2 ^ ptr_bits - 2 ^ 31 + off =? 0) with false by bool_false.
  replace (2 ^ 30 + 0 <=? 2 ^ ptr_bits - 2 ^ 31 + off) with true by bool_true.
  unfold ptr_add at 1 3.
  rewrite (to_size_t_id (2 ^ ptr_bits - 2 ^ 31 + off + len0)) by lia.
  replace (2 ^ ptr_bits - 2 ^ 31 + off + len0
           <? 2 ^ 30 + Basic.SPI_TEST_MAX_SIZE)
    with false by bool_false.
  replace (2 ^ ptr_bits - 2 ^ 31 + 0 <=? 2 ^ ptr_bits - 2 ^ 31 + off)
    with true by bool_true.
  replace (2 ^ ptr_bits - 2 ^ 31 + off + len0
           <? 2 ^ ptr_bits - 2 ^ 31 + Basic.SPI_TEST_MAX_SIZE)
    with true by bool_true.
  cbn [andb]. unfold ptr_diff.
  replace (2 ^ ptr_bits - 2 ^ 31 + off - (2 ^ ptr_bits - 2 ^ 31 + 0))
    with off by lia.
  rewrite (to_size_t_small Hok off) by lia. reflexivity.
Qed.

(** X4: in the basic driver a placeholder range resolves to the buffer
    base plus the offset when it ends strictly before the end of its
    region, offset + length < SPI_TEST_MAX_SIZE, for both regions; a range
    that ends exactly at the end of the RX region is refused with -EINVAL
    and the pointer is left alone. *)
Theorem basic_translate_strictly_contained :
  forall (tg : Target) (off len0 tx rx : Z),
    target_ok -> 0 <= off -> 0 <= len0 ->
    (off + len0 < Basic.SPI_TEST_MAX_SIZE ->
     Basic.spi_test_translate (Basic.RX off) len0 tx rx
       = (0, ptr_add rx off) /\
     Basic.spi_test_translate (Basic.TX off) len0 tx rx
       = (0, ptr_add tx off)) /\
    (off + len0 = Basic.SPI_TEST_MAX_SIZE ->
     Basic.spi_test_translate (Basic.RX off) len0 tx rx
       = (- EINVAL, Basic.RX off)).
Proof.
  intros tg off len0 tx rx Hok Hoff Hlen. split.
  - intros Hin. split.
    + now apply basic_translate_rx_in_range.
    + now apply basic_translate_tx_in_range.
  - intros Hend. now apply basic_translate_rx_at_end.
Qed.

Lemma basic_translate_strictly_contained_witness :
  @target_ok arm32 /\ 0 <= 7 /\ 0 <= 65536 /\
  7 + 65536 < @Basic.SPI_TEST_MAX_SIZE arm32 /\
  @Basic.spi_test_translate arm32 (@Basic.RX arm32 7) 65536 tx_base rx_base
    = (0, rx_base + 7) /\
  @Basic.spi_test_translate arm32 (@Basic.TX arm32 7) 65536 tx_base rx_base
    = (0, tx_base + 7).
Proof.
  assert (Hok : @target_ok arm32) by (unfold target_ok; cbn; lia).
  assert (H0 : 0 <= 7) by lia.
  assert (H1 : 0 <= 65536) by lia.
  assert (H2 : 7 + 65536 < @Basic.SPI_TEST_MAX_SIZE arm32) by reflexivity.
  refine (conj Hok (conj H0 (conj H1 (conj H2 _)))).
  exact (proj1 (basic_translate_strictly_contained arm32 7 65536
                  tx_base rx_base Hok H0 H1) H2).
Defined.

(** ** The translation loop *)

Section LoopbackTranslationLoop.
Context {tg : Target}.

Import Loopback.

Lemma translate_ret_cases (ptr len0 tx rx : Z) :
  fst (spi_test_translate ptr len0 tx rx) = 0 \/
  fst (spi_test_translate ptr len0 tx rx) = - EINVAL.
Proof.
  unfold spi_test_translate.
  destruct (ptr =? 0); [now left|].
  destruct (_ && _); [now left|].
  destruct (_ && _); [now left | now right].
Qed.

Lemma translate_transfers_ok (xs msg : list spi_transfer) (tx rx : Z) :
  translate_transfers xs tx rx = (0, msg) <-> Forall2 (resolves tx rx) xs msg.
Proof.
  revert msg. induction xs as [|x xs IH]; intros msg; cbn [translate_transfers].
  - split.
    + intros [= <-]. constructor.
    + intros H. inversion H. reflexivity.
  - destruct (spi_test_translate (tx_buf x) (len x) tx rx) as [r1 p1] eqn:E1.
    destruct (spi_test_translate (rx_buf x) (len x) tx rx) as [r2 p2] eqn:E2.
    destruct (Z.eqb_spec r1 0) as [->|H1].
    + destruct (Z.eqb_spec r2 0) as [->|H2].
      * destruct (translate_transfers xs tx rx) as [r ys] eqn:E. split.
        -- intros [= -> <-]. constructor.
           ++ unfold resolves. rewrite E1, E2. cbn. auto.
           ++ now apply IH.
        -- intros H. inversion H as [|? y ? ys' (Ha & Hb & Hc) Hrest]; subst.
           apply IH in Hrest. injection Hrest as -> ->.
           rewrite E1 in Ha. rewrite E2 in Hb.
           injection Ha as ->. injection Hb as ->.
           destruct y as [a b c]. cbn in *. now subst.
      * split; [intros [= E _]; congruence|].
        intros H. inversion H as [|? y ? ys' (Ha & Hb & Hc) Hrest]; subst.
        rewrite E2 in Hb. congruence.
    + split; [intros [= E _]; congruence|].
      intros H. inversion H as [|? y ? ys' (Ha & Hb & Hc) Hrest]; subst.
      rewrite E1 in Ha. congruence.
Qed.

Lemma translate_transfers_fails (pre post : list spi_transfer)
  (x : spi_transfer) (tx rx : Z) :
  fst (spi_test_translate (tx_buf x) (len x) tx rx) <> 0 \/
  fst (spi_test_translate (rx_buf x) (len x) tx rx) <> 0 ->
  fst (translate_transfers (pre ++ x :: post) tx rx) = - EINVAL.
Proof.
  intros Hx. induction pre as [|y pre IH]; cbn [app translate_transfers].
  - pose proof (translate_ret_cases (tx_buf x) (len x) tx rx) as C1.
    pose proof (translate_ret_cases (rx_buf x) (len x) tx rx) as C2.
    destruct (spi_test_translate (tx_buf x) (len x) tx rx) as [r1 p1].
    destruct (spi_test_translate (rx_buf x) (len x) tx rx) as [r2 p2].
    cbn [fst] in *.
    destruct (Z.eqb_spec r1 0) as [->|H1];
      [|destruct C1; [contradiction | assumption]].
    destruct (Z.eqb_spec r2 0) as [->|H2];
      [|destruct C2; [contradiction | assumption]].
    destruct Hx; contradiction.
  - pose proof (translate_ret_cases (tx_buf y) (len y) tx rx) as C1.
    pose proof (translate_ret_cases (rx_buf y) (len y) tx rx) as C2.
    destruct (spi_test_translate (tx_buf y) (len y) tx rx) as [r1 p1].
    destruct (spi_test_translate (rx_buf y) (len y) tx rx) as [r2 p2].
    cbn [fst] in *.
    destruct (Z.eqb_spec r1 0) as [->|H1];
      [|destruct C1; [contradiction | assumption]].
    destruct (Z.eqb_spec r2 0) as [->|H2];
      [|destruct C2; [contradiction | assumption]].
    destruct (translate_transfers (pre ++ x :: post) tx rx) as [r ys].
    exact IH.
Qed.

End LoopbackTranslationLoop.

(** X5: the translation loop of the loopback driver's [_spi_test_run]
    succeeds exactly when both pointers of every transfer resolve; the
    message it builds then holds the same transfers in the declared order,
    each with its length unchanged and its two pointers replaced by what
    [spi_test_translate] made of them, so null pointers stay null. *)
Theorem loopback_translation_pointwise :
  forall (tg : Target) (xs msg : list spi_transfer) (tx rx : Z),
    (Loopback.translate_transfers xs tx rx = (0, msg) <->
     Forall2 (resolves tx rx) xs msg) /\
    (Loopback.translate_transfers xs tx rx = (0, msg) ->
     List.length msg = List.length xs /\
     map len msg = map len xs /\
     Forall2 (fun x y => (tx_buf x = 0 -> tx_buf y = 0) /\
                         (rx_buf x = 0 -> rx_buf y = 0)) xs msg).
Proof.
  intros tg xs msg tx rx. split; [apply translate_transfers_ok|].
  intros H. apply translate_transfers_ok in H.
  induction H as [|x y xs msg (Ha & Hb & Hc) _ (IH1 & IH2 & IH3)].
  - repeat split; constructor.
  - cbn [List.length map]. rewrite IH1, IH2, Hc.
    repeat split; try reflexivity. constructor; [|exact IH3]. split.
    + intros E. rewrite E in Ha. cbn in Ha. congruence.
    + intros E. rewrite E in Hb. cbn in Hb. congruence.
Qed.

Lemma loopback_translation_pointwise_witness :
  let xs := [mk_xfer (@Loopback.TX arm32 8) 0 4;
             mk_xfer 0 (@Loopback.RX arm32 0) 16] in
  let msg := [mk_xfer (tx_base + 8) 0 4; mk_xfer 0 rx_base 16] in
  @Loopback.translate_transfers arm32 xs tx_base rx_base = (0, msg) /\
  Forall2 (@resolves arm32 tx_base rx_base) xs msg /\
  map len msg = map len xs.
Proof.
  intros xs msg.
  assert (H : @Loopback.translate_transfers arm32 xs tx_base rx_base
              = (0, msg)) by reflexivity.
  pose proof (loopback_translation_pointwise arm32 xs msg tx_base rx_base)
    as [Hiff Hshape].
  exact (conj H (conj (proj1 Hiff H) (proj1 (proj2 (Hshape H))))).
Defined.

(** X6: when a pointer of any active transfer is refused by
    [spi_test_translate], the loopback driver's [_spi_test_run] returns
    -EINVAL with the memory it was given, whatever the transport and the
    custom test are: nothing is filled and nothing is executed. *)
Theorem loopback_translation_failure_aborts :
  forall (tg : Target) (e : Loopback.env) (t : Loopback.spi_test)
         (tx rx : Z) (m : mem) (pre post : list spi_transfer)
         (x : spi_transfer),
    Loopback.active_transfers t = pre ++ x :: post ->
    fst (Loopback.spi_test_translate (tx_buf x) (len x) tx rx) <> 0 \/
    fst (Loopback.spi_test_translate (rx_buf x) (len x) tx rx) <> 0 ->
    Loopback._spi_test_run e t tx rx m = (- EINVAL, m).
Proof.
  intros tg e t tx rx m pre post x Hact Hx.
  unfold Loopback._spi_test_run. rewrite Hact.
  pose proof (translate_transfers_fails pre post x tx rx Hx) as Hf.
  destruct (Loopback.translate_transfers (pre ++ x :: post) tx rx) as [r msg].
  cbn [fst] in Hf. subst r. reflexivity.
Qed.

Lemma loopback_translation_failure_aborts_witness :
  let x := mk_xfer 0 (@Loopback.RX arm32 (33 * 4096 - 1)) 2 in
  Loopback.active_transfers loopback_overrun_case
    = [mk_xfer (@Loopback.TX arm32 0) 0 4] ++ x :: [] /\
  fst (@Loopback.spi_test_translate arm32 (rx_buf x) (len x) tx_base rx_base)
    <> 0 /\
  @Loopback._spi_test_run arm32 loopback_hostile_env loopback_overrun_case
     tx_base rx_base zero_mem = (- EINVAL, zero_mem).
Proof.
  intros x.
  assert (Ha : Loopback.active_transfers loopback_overrun_case
               = [mk_xfer (@Loopback.TX arm32 0) 0 4] ++ x :: [])
    by reflexivity.
  assert (Hx : fst (@Loopback.spi_test_translate arm32 (rx_buf x) (len x)
                      tx_base rx_base) <> 0) by discriminate.
  refine (conj Ha (conj Hx _)).
  exact (loopback_translation_failure_aborts arm32 loopback_hostile_env
           loopback_overrun_case tx_base rx_base zero_mem _ _ x Ha
           (or_intror Hx)).
Defined.

(** ** The earlier listing *)

Section EarlyTranslate.
Context {tg : Target}.
Hypothesis Hok : target_ok.

Lemma early_RX_val (off : Z) :
  0 <= off < 2 ^ 31 -> Early.RX off = 2 ^ 30 + off.
Proof. exact (basic_RX_val Hok off). Qed.

Lemma early_TX_val (off : Z) :
  0 <= off < 2 ^ 31 -> Early.TX off = 2 ^ ptr_bits - 2 ^ 31 + off.
Proof. exact (basic_TX_val Hok off). Qed.

Lemma early_translate_tx_refused (off len0 tx rx : Z) :
  0 <= off < 2 ^ 31 ->
  Early.spi_test_translate (Early.TX off) len0 tx rx
  = (- EINVAL, Early.TX off).
Proof.
  intros Hoff. pose proof (pow_ptr_bits_ge Hok) as Hw.
  assert (Hs : 0 < Early.SPI_TEST_MAX_SIZE < 2 ^ 30)
    by (destruct Hok as (_ & ? & ?); unfold Early.SPI_TEST_MAX_SIZE; lia).
  unfold Early.spi_test_translate, Early.translate_region.
  rewrite (early_TX_val off), (early_RX_val 0) by lia.
  replace (2 ^ ptr_bits - 2 ^ 31 + off =? 0) with false by bool_false.
  replace (2 ^ 30 + 0 <=? 2 ^ ptr_bits - 2 ^ 31 + off) with true by bool_true.
  unfold ptr_diff.
  rewrite (to_size_t_id (2 ^ ptr_bits - 2 ^ 31 + off - (2 ^ 30 + 0))) by lia.
  replace (2 ^ ptr_bits - 2 ^ 31 + off - (2 ^ 30 + 0)
           >=? Early.SPI_TEST_MAX_SIZE) with true
    by (symmetry; rewrite Z.geb_leb; apply Z.leb_le; lia).
  reflexivity.
Qed.

Lemma early_translate_ignores_tx (ptr len0 tx tx' rx : Z) :
  0 <= ptr ->
  Early.spi_test_translate ptr len0 tx rx
  = Early.spi_test_translate ptr len0 tx' rx.
Proof.
  intros Hptr. pose proof (pow_ptr_bits_ge Hok) as Hw.
  unfold Early.spi_test_translate.
  rewrite (early_TX_val 0), (early_RX_val 0) by lia.
  destruct (ptr =? 0); [reflexivity|].
  destruct (Z.leb_spec (2 ^ 30 + 0) ptr); [reflexivity|].
  replace (2 ^ ptr_bits - 2 ^ 31 + 0 <=? ptr) with false by bool_false.
  reflexivity.
Qed.

End EarlyTranslate.

Lemma early_translate_ret_cases {tg : Target} (ptr len0 tx rx : Z) :
  fst (Early.spi_test_translate ptr len0 tx rx) = 0 \/
  fst (Early.spi_test_translate ptr len0 tx rx) = - EINVAL.
Proof.
  unfold Early.spi_test_translate, Early.translate_region.
  destruct (ptr =? 0); [now left|].
  destruct (Early.RX 0 <=? ptr).
  - destruct (_ >=? _); [now right|]. destruct (_ >=? _); [now right|now left].
  - destruct (Early.TX 0 <=? ptr); [|now right].
    destruct (_ >=? _); [now right|]. destruct (_ >=? _); [now right|now left].
Qed.

Lemma early_translate_xfers_fails {tg : Target} (pre post : list spi_transfer)
  (x : spi_transfer) (tx rx : Z) :
  fst (Early.spi_test_translate (tx_buf x) (len x) tx rx) <> 0 \/
  fst (Early.spi_test_translate (rx_buf x) (len x) tx rx) <> 0 ->
  fst (Early.translate_xfers (pre ++ x :: post) tx rx) = - EINVAL.
Proof.
  intros Hx. induction pre as [|y pre IH]; cbn [app Early.translate_xfers].
  - pose proof (early_translate_ret_cases (tx_buf x) (len x) tx rx) as C1.
    pose proof (early_translate_ret_cases (rx_buf x) (len x) tx rx) as C2.
    destruct (Early.spi_test_translate (tx_buf x) (len x) tx rx) as [r1 p1].
    destruct (Early.spi_test_translate (rx_buf x) (len x) tx rx) as [r2 p2].
    cbn [fst] in *.
    destruct (Z.eqb_spec r1 0) as [->|H1];
      [|destruct C1; [contradiction | assumption]].
    destruct (Z.eqb_spec r2 0) as [->|H2];
      [|destruct C2; [contradiction | assumption]].
    destruct Hx; contradiction.
  - pose proof (early_translate_ret_cases (tx_buf y) (len y) tx rx) as C1.
    pose proof (early_translate_ret_cases (rx_buf y) (len y) tx rx) as C2.
    destruct (Early.spi_test_translate (tx_buf y) (len y) tx rx) as [r1 p1].
    destruct (Early.spi_test_translate (rx_buf y) (len y) tx rx) as [r2 p2].
    cbn [fst] in *.
    destruct (Z.eqb_spec r1 0) as [->|H1];
      [|destruct C1; [contradiction | assumption]].
    destruct (Z.eqb_spec r2 0) as [->|H2];
      [|destruct C2; [contradiction | assumption]].
    destruct (Early.translate_xfers (pre ++ x :: post) tx rx) as [r ys].
    exact IH.
Qed.

(** X7: in the earlier listing the TX branch of [spi_test_translate] cannot
    be reached: every pointer at or above RX(0) is handled as an RX
    placeholder and every pointer below RX(0) is below TX(0) too.  The
    result never depends on the transmit buffer, and every TX placeholder
    is refused with -EINVAL, whatever the length. *)
Theorem early_translate_never_resolves_tx :
  forall (tg : Target) (ptr off len0 tx tx' rx : Z),
    target_ok -> 0 <= ptr -> 0 <= off < 2 ^ 31 ->
    Early.spi_test_translate ptr len0 tx rx
      = Early.spi_test_translate ptr len0 tx' rx /\
    Early.spi_test_translate (Early.TX off) len0 tx rx
      = (- EINVAL, Early.TX off).
Proof.
  intros tg ptr off len0 tx tx' rx Hok Hptr Hoff. split.
  - now apply early_translate_ignores_tx.
  - now apply early_translate_tx_refused.
Qed.

Lemma early_translate_never_resolves_tx_witness :
  @target_ok arm32 /\ 0 <= @Early.RX arm32 16 /\ 0 <= 0 < 2 ^ 31 /\
  @Early.spi_test_translate arm32 (@Early.RX arm32 16) 1 tx_base rx_base
    = (0, rx_base + 16) /\
  @Early.spi_test_translate arm32 (@Early.TX arm32 0) 1 tx_base rx_base
    = (- EINVAL, @Early.TX arm32 0).
Proof.
  assert (Hok : @target_ok arm32) by (unfold target_ok; cbn; lia).
  assert (Hp : 0 <= @Early.RX arm32 16) by discriminate.
  assert (Ho : 0 <= 0 < 2 ^ 31) by lia.
  refine (conj Hok (conj Hp (conj Ho (conj eq_refl _)))).
  exact (proj2 (early_translate_never_resolves_tx arm32 (@Early.RX arm32 16)
                  0 1 tx_base 0 rx_base Hok Hp Ho)).
Defined.

(** X8: the earlier listing's [_spi_test_run] therefore fails with -EINVAL,
    the memory untouched and neither the transport nor a custom test
    called, on every test that has an active transfer with a TX
    placeholder as its transmit buffer. *)
Theorem early_run_rejects_transmit :
  forall (tg : Target) (e : Early.env) (t : Basic.spi_test) (tx rx : Z)
         (m : mem) (pre post : list spi_transfer) (x : spi_transfer)
         (off : Z),
    target_ok ->
    Basic.active_xfers t = pre ++ x :: post ->
    0 <= off < 2 ^ 31 -> tx_buf x = Early.TX off ->
    Early._spi_test_run e t tx rx m = (- EINVAL, m).
Proof.
  intros tg e t tx rx m pre post x off Hok Hact Hoff Htx.
  unfold Early._spi_test_run.
  destruct (Basic.transfers t >=? SPI_TEST_MAX_TRANSFERS); [reflexivity|].
  rewrite Hact.
  assert (Hx : fst (Early.spi_test_translate (tx_buf x) (len x) tx rx) <> 0).
  { rewrite Htx, (early_translate_tx_refused Hok) by assumption.
    discriminate. }
  pose proof (early_translate_xfers_fails pre post x tx rx (or_introl Hx))
    as Hf.
  destruct (Early.translate_xfers (pre ++ x :: post) tx rx) as [r msg].
  cbn [fst] in Hf. subst r. reflexivity.
Qed.

Lemma early_run_rejects_transmit_witness :
  @target_ok arm32 /\
  Basic.active_xfers early_simple_tx
    = [] ++ mk_xfer (@Early.TX arm32 0) 0 1 :: [] /\
  0 <= 0 < 2 ^ 31 /\
  @Early._spi_test_run arm32 early_hostile_env early_simple_tx
     tx_base rx_base zero_mem = (- EINVAL, zero_mem).
Proof.
  assert (Hok : @target_ok arm32) by (unfold target_ok; cbn; lia).
  assert (Ha : Basic.active_xfers early_simple_tx
               = [] ++ mk_xfer (@Early.TX arm32 0) 0 1 :: []) by reflexivity.
  assert (Ho : 0 <= 0 < 2 ^ 31) by lia.
  refine (conj Hok (conj Ha (conj Ho _))).
  exact (early_run_rejects_transmit arm32 early_hostile_env early_simple_tx
           tx_base rx_base zero_mem _ _ _ 0 Hok Ha Ho eq_refl).
Defined.

(** ** The fill pass of the loopback driver *)

Section LoopbackFillOrder.
Context {tg : Target}.

Import Loopback.

Lemma tx_ranges_app (xs ys : list spi_transfer) :
  tx_ranges (xs ++ ys) = tx_ranges xs ++ tx_ranges ys.
Proof. unfold tx_ranges. apply flat_map_app. Qed.

Lemma byte_range_length (p n : Z) :
  List.length (byte_range p n) = Z.to_nat n.
Proof. unfold byte_range. now rewrite length_map, count_up_length. Qed.

(** The stores for one transfer with a transmit buffer, filled as transfer
    number [i] when [c] bytes have been stored before it. *)
Lemma fill_transfers_cons_supported (t : spi_test) (x : spi_transfer)
  (xs : list spi_transfer) (i c : Z) :
  fill_supported (fill_option t) = true -> tx_buf x <> 0 ->
  snd (fill_transfers t i (x :: xs) (to_size_t c))
  = map (fun j => (ptr_add (tx_buf x) j,
                   loopback_fill_byte t i j (to_size_t (c + j))))
        (count_up (Z.to_nat (len x)) 0)
    ++ snd (fill_transfers t (i + 1) xs
              (to_size_t (c + Z.of_nat (Z.to_nat (len x))))).
Proof.
  intros Hs Hx. cbn [fill_transfers].
  apply Z.eqb_neq in Hx. rewrite Hx.
  rewrite (fill_bytes_spec t i _ 0 (tx_buf x) 0 c Hs). cbn [Z.eqb].
  destruct (fill_transfers t (i + 1) xs _) as [r ops]. reflexivity.
Qed.

Lemma fill_transfers_app_supported (t : spi_test)
  (xs ys : list spi_transfer) :
  forall i c,
    fill_supported (fill_option t) = true ->
    snd (fill_transfers t i (xs ++ ys) (to_size_t c))
    = snd (fill_transfers t i xs (to_size_t c))
      ++ snd (fill_transfers t (i + Z.of_nat (List.length xs)) ys
                (to_size_t (c + Z.of_nat (List.length (tx_ranges xs))))).
Proof.
  induction xs as [|x xs IH]; intros i c Hs.
  - cbn [app List.length tx_ranges flat_map fill_transfers snd].
    now rewrite !Z.add_0_r.
  - cbn [app]. destruct (Z.eq_dec (tx_buf x) 0) as [Hx|Hx].
    + rewrite !fill_transfers_skip_null by assumption.
      rewrite (IH (i + 1) c Hs). do 3 f_equal.
      * cbn [List.length]. lia.
      * unfold tx_ranges. cbn [flat_map]. now rewrite Hx.
    + rewrite !fill_transfers_cons_supported by assumption.
      rewrite (IH (i + 1) _ Hs), <- app_assoc. do 4 f_equal.
      * cbn [List.length]. lia.
      * f_equal. change (x :: xs) with ([x] ++ xs).
        rewrite tx_ranges_app, length_app, Nat2Z.inj_add.
        assert (H1 : tx_ranges [x] = byte_range (tx_buf x) (len x)).
        { unfold tx_ranges. cbn [flat_map].
          apply Z.eqb_neq in Hx. now rewrite Hx, app_nil_r. }
        rewrite H1, byte_range_length. lia.
Qed.

(** The stores of the pass split at any transfer with a transmit buffer. *)
Lemma fill_tx_transfer_chunk (t : spi_test) (pre post : list spi_transfer)
  (x : spi_transfer) :
  fill_supported (fill_option t) = true -> tx_buf x <> 0 ->
  active_transfers t = pre ++ x :: post ->
  exists before after,
    snd (spi_test_fill_tx t)
    = before
      ++ map (fun j =>
                (ptr_add (tx_buf x) j,
                 loopback_fill_byte t (Z.of_nat (List.length pre)) j
                   (to_size_t (Z.of_nat (List.length (tx_ranges pre)) + j))))
             (count_up (Z.to_nat (len x)) 0)
      ++ after /\
    List.length before = List.length (tx_ranges pre).
Proof.
  intros Hs Hx Hact. unfold spi_test_fill_tx. rewrite Hact.
  change (fill_transfers t 0 (pre ++ x :: post) 0)
    with (fill_transfers t 0 (pre ++ x :: post) (to_size_t 0)).
  rewrite (fill_transfers_app_supported t pre (x :: post) 0 0 Hs).
  rewrite fill_transfers_cons_supported by assumption.
  rewrite !Z.add_0_l.
  destruct (fill_transfers_supported t pre 0 0 Hs) as [_ Hpre].
  assert (Hlen : List.length (snd (fill_transfers t 0 pre (to_size_t 0)))
                 = List.length (tx_ranges pre)).
  { rewrite <- Hpre. now rewrite length_map. }
  exists (snd (fill_transfers t 0 pre (to_size_t 0))).
  eexists. split; [reflexivity|exact Hlen].
Qed.

End LoopbackFillOrder.

(** X9: with FILL_TRANSFER_NUM the loopback driver fills every byte of a
    transmit buffer with the index of its transfer in the test's list,
    modulo 256; transfers without a transmit buffer are counted in the
    index although they are not filled. *)
Theorem fill_transfer_number :
  forall (tg : Target) (t : Loopback.spi_test)
         (pre post : list spi_transfer) (x : spi_transfer),
    Loopback.fill_option t = FILL_TRANSFER_NUM -> tx_buf x <> 0 ->
    Loopback.active_transfers t = pre ++ x :: post ->
    exists before after,
      snd (Loopback.spi_test_fill_tx t)
      = before
        ++ map (fun a => (a, to_u8 (Z.of_nat (List.length pre))))
               (byte_range (tx_buf x) (len x))
        ++ after /\
      List.length before = List.length (tx_ranges pre).
Proof.
  intros tg t pre post x Hopt Hx Hact.
  assert (Hs : fill_supported (Loopback.fill_option t) = true)
    by (now rewrite Hopt).
  destruct (fill_tx_transfer_chunk t pre post x Hs Hx Hact)
    as (before & after & Heq & Hlen).
  exists before, after. split; [|exact Hlen].
  rewrite Heq. do 2 f_equal. unfold byte_range. rewrite map_map.
  apply map_ext. intros j. f_equal.
  unfold loopback_fill_byte, Loopback.fill_value. now rewrite Hopt.
Qed.

Lemma fill_transfer_number_witness :
  let t := loopback_three_transfers FILL_TRANSFER_NUM in
  let x := mk_xfer (tx_base + 16) 0 2 in
  Loopback.fill_option t = FILL_TRANSFER_NUM /\ tx_buf x <> 0 /\
  Loopback.active_transfers t
    = [mk_xfer tx_base 0 1; mk_xfer 0 rx_base 8] ++ x :: [] /\
  @Loopback.spi_test_fill_tx arm32 t
    = (0, [(tx_base, 0); (tx_base + 16, 2); (tx_base + 17, 2)]) /\
  exists before after,
    snd (@Loopback.spi_test_fill_tx arm32 t)
    = before
      ++ map (fun a => (a, to_u8 2)) (@byte_range arm32 (tx_buf x) (len x))
      ++ after.
Proof.
  intros t x.
  assert (Hx : tx_buf x <> 0) by discriminate.
  assert (Ha : Loopback.active_transfers t
               = [mk_xfer tx_base 0 1; mk_xfer 0 rx_base 8] ++ x :: [])
    by reflexivity.
  refine (conj eq_refl (conj Hx (conj Ha (conj eq_refl _)))).
  destruct (fill_transfer_number arm32 t _ _ x eq_refl Hx Ha)
    as (before & after & Heq & _).
  exists before, after. exact Heq.
Defined.

Section LoopbackFillModes.
Context {tg : Target}.

Import Loopback.

Lemma combine_fst_snd {A B : Type} (l : list (A * B)) :
  combine (map fst l) (map snd l) = l.
Proof.
  induction l as [|[a b] l IH]; cbn [map combine fst snd].
  - reflexivity.
  - now rewrite IH.
Qed.

Lemma loopback_fill_byte_memset (t : spi_test) (i j c : Z) :
  0 <= fill_option t <= 3 ->
  loopback_fill_byte t i j c = memset_byte t c.
Proof.
  intros Hopt.
  assert (H : fill_option t = 0 \/ fill_option t = 1 \/
              fill_option t = 2 \/ fill_option t = 3) by lia.
  unfold loopback_fill_byte, fill_value, memset_byte, GET_VALUE_BYTE.
  destruct H as [-> | [-> | [-> | ->]]]; cbn [Z.add Pos.add Pos.succ Z.sub
    Z.opp Z.pos_sub Pos.pred_double Z.succ_double Z.pred_double Z.double].
  - rewrite Z.mod_1_r. now destruct BIG_ENDIAN.
  - now destruct BIG_ENDIAN.
  - now destruct BIG_ENDIAN.
  - now destruct BIG_ENDIAN.
Qed.

Lemma loopback_fill_byte_transfer (t : spi_test) (i j c : Z) :
  8 <= fill_option t <= 11 ->
  loopback_fill_byte t i j c = transfer_byte (fill_option t) j c.
Proof.
  intros Hopt.
  assert (H : fill_option t = 8 \/ fill_option t = 9 \/
              fill_option t = 10 \/ fill_option t = 11) by lia.
  unfold loopback_fill_byte, fill_value, transfer_byte, GET_VALUE_BYTE.
  destruct H as [-> | [-> | [-> | ->]]]; cbn [Z.add Pos.add Pos.succ Z.sub
    Z.opp Z.pos_sub Pos.pred_double Z.succ_double Z.pred_double Z.double].
  - rewrite Z.mod_1_r. now destruct BIG_ENDIAN.
  - now destruct BIG_ENDIAN.
  - now destruct BIG_ENDIAN.
  - now destruct BIG_ENDIAN.
Qed.

(** Where the stored byte is a function of the counter alone, the [k]-th
    store of the pass holds that function of [c + k]. *)
Lemma fill_transfers_by_count (t : spi_test) (f : Z -> Z)
  (xs : list spi_transfer) :
  fill_supported (fill_option t) = true ->
  (forall i j c, loopback_fill_byte t i j c = f c) ->
  forall i c,
    map snd (snd (fill_transfers t i xs (to_size_t c)))
    = map (fun k => f (to_size_t (c + k)))
          (count_up (List.length (tx_ranges xs)) 0).
Proof.
  intros Hs Hf. induction xs as [|x xs IH]; intros i c.
  - reflexivity.
  - destruct (Z.eq_dec (tx_buf x) 0) as [Hx|Hx].
    + rewrite fill_transfers_skip_null by assumption.
      change (x :: xs) with ([x] ++ xs). rewrite tx_ranges_app.
      assert (H1 : tx_ranges [x] = []).
      { unfold tx_ranges. cbn [flat_map]. now rewrite Hx. }
      rewrite H1. apply IH.
    + rewrite fill_transfers_cons_supported by assumption.
      change (x :: xs) with ([x] ++ xs). rewrite tx_ranges_app.
      assert (H1 : tx_ranges [x] = byte_range (tx_buf x) (len x)).
      { unfold tx_ranges. cbn [flat_map].
        apply Z.eqb_neq in Hx. now rewrite Hx, app_nil_r. }
      rewrite H1, length_app, byte_range_length, count_up_app, !map_app.
      f_equal.
      * rewrite map_map. cbn [snd]. apply map_ext. intros k. apply Hf.
      * rewrite IH.
        rewrite (count_up_shift_by _ 0 (Z.of_nat (Z.to_nat (len x)))), map_map.
        apply map_ext. intros k. now rewrite Z.add_assoc.
Qed.

(** For an option without a case the pass fails at the first byte it has to
    store, and not before. *)
Lemma fill_transfers_unsupported_ret (t : spi_test) (xs : list spi_transfer) :
  fill_supported (fill_option t) = false ->
  forall i c,
    fst (fill_transfers t i xs c)
    = match tx_ranges xs with [] => 0 | _ :: _ => - EINVAL end.
Proof.
  intros Hs. induction xs as [|x xs IH]; intros i c.
  - reflexivity.
  - change (x :: xs) with ([x] ++ xs) at 2. rewrite tx_ranges_app.
    cbn [app fill_transfers]. unfold tx_ranges at 1. cbn [flat_map].
    destruct (tx_buf x =? 0); [apply IH|].
    rewrite (fill_bytes_unsupported t i _ 0 _ c Hs).
    rewrite app_nil_r. unfold byte_range.
    destruct (Z.to_nat (len x)) as [|n]; cbn [count_up map app Z.eqb].
    + specialize (IH (i + 1) c).
      destruct (fill_transfers t (i + 1) xs c) as [r ops]. exact IH.
    + reflexivity.
Qed.

Lemma exec_stores_outside (ops : list store_op) (m : mem) (a : Z) :
  ~ In a (map fst ops) -> exec_stores ops m a = m a.
Proof.
  unfold exec_stores. revert m.
  induction ops as [|[p v] ops IH]; intros m Hn; cbn [fold_left fst snd].
  - reflexivity.
  - rewrite IH by (intros H; apply Hn; now right).
    unfold store. destruct (Z.eqb_spec a p) as [->|_]; [|reflexivity].
    exfalso. apply Hn. now left.
Qed.

(** The working copy after translation: its active transfers are the
    message. *)
Lemma active_transfers_translated (t : spi_test)
  (msg : list spi_transfer) (tx rx : Z) :
  translate_transfers (active_transfers t) tx rx = (0, msg) ->
  active_transfers
    (set_transfers t (transfer_count t)
       (msg ++ skipn (Z.to_nat (transfer_count t)) (transfers t)))
  = msg.
Proof.
  intros H. apply translate_transfers_ok in H.
  apply Forall2_length in H. unfold active_transfers in *.
  cbn [transfer_count transfers set_transfers].
  rewrite length_firstn in H.
  rewrite firstn_app, (firstn_all2 msg) by lia.
  destruct (Nat.le_gt_cases (Z.to_nat (transfer_count t))
              (List.length (transfers t))) as [Hle|Hgt].
  - replace (Z.to_nat (transfer_count t) - List.length msg)%nat
      with 0%nat by lia.
    cbn [firstn]. apply app_nil_r.
  - rewrite skipn_all2 by lia. rewrite firstn_nil. apply app_nil_r.
Qed.

End LoopbackFillModes.

(** X10: with the memset options the loopback fill pass succeeds and stores,
    at the bytes of the transfers that have a transmit buffer, in order, the
    slices of [fill] selected by the running byte count of the whole pass;
    the pattern does not restart at a transfer boundary, and with
    FILL_MEMSET_8 every byte is the low byte of [fill]. *)
Theorem fill_memset_pattern :
  forall (tg : Target) (t : Loopback.spi_test),
    0 <= Loopback.fill_option t <= 3 ->
    Loopback.spi_test_fill_tx t
    = (0, combine (tx_ranges (Loopback.active_transfers t))
            (map (fun k => memset_byte t (to_size_t k))
               (count_up
                  (List.length (tx_ranges (Loopback.active_transfers t)))
                  0))).
Proof.
  intros tg t Hopt.
  assert (Hs : fill_supported (Loopback.fill_option t) = true).
  { unfold fill_supported.
    replace (0 <=? Loopback.fill_option t) with true by bool_true.
    replace (Loopback.fill_option t <=? 11) with true by bool_true.
    reflexivity. }
  pose proof (fill_transfers_supported t (Loopback.active_transfers t) 0 0 Hs)
    as [Hr Ha].
  pose proof (fill_transfers_by_count t (memset_byte t)
                (Loopback.active_transfers t) Hs
                (fun i j c => loopback_fill_byte_memset t i j c Hopt) 0 0)
    as Hv.
  unfold Loopback.spi_test_fill_tx.
  change (Loopback.fill_transfers t 0 (Loopback.active_transfers t) 0)
    with (Loopback.fill_transfers t 0 (Loopback.active_transfers t)
            (to_size_t 0)).
  destruct (Loopback.fill_transfers t 0 (Loopback.active_transfers t)
              (to_size_t 0)) as [r ops].
  cbn [fst snd] in *. subst r. f_equal.
  rewrite <- (combine_fst_snd ops) at 1. unfold store_op in *.
  rewrite Ha, Hv. reflexivity.
Qed.

Lemma fill_memset_pattern_witness :
  0 <= Loopback.fill_option (loopback_three_transfers FILL_MEMSET_16) <= 3 /\
  @Loopback.spi_test_fill_tx arm32 (loopback_three_transfers FILL_MEMSET_16)
  = (0, [(tx_base, 205); (tx_base + 16, 171); (tx_base + 17, 205)]).
Proof.
  assert (H : 0 <= Loopback.fill_option
                     (loopback_three_transfers FILL_MEMSET_16) <= 3)
    by (cbn; lia).
  split; [exact H|].
  exact (fill_memset_pattern arm32
           (loopback_three_transfers FILL_MEMSET_16) H).
Defined.

(** X11: with the transfer-byte options byte [j] of a transfer that has a
    transmit buffer receives the slice of [j] selected by the running byte
    count of the whole pass, that is by the number of bytes filled in the
    transfers before it plus [j], not by [j] alone; with
    FILL_TRANSFER_BYTE_8 the slice is [j] modulo 256. *)
Theorem fill_transfer_byte_slices :
  forall (tg : Target) (t : Loopback.spi_test)
         (pre post : list spi_transfer) (x : spi_transfer),
    8 <= Loopback.fill_option t <= 11 -> tx_buf x <> 0 ->
    Loopback.active_transfers t = pre ++ x :: post ->
    exists before after,
      snd (Loopback.spi_test_fill_tx t)
      = before
        ++ map (fun j =>
                  (ptr_add (tx_buf x) j,
                   transfer_byte (Loopback.fill_option t) j
                     (to_size_t (Z.of_nat (List.length (tx_ranges pre)) + j))))
               (count_up (Z.to_nat (len x)) 0)
        ++ after /\
      List.length before = List.length (tx_ranges pre).
Proof.
  intros tg t pre post x Hopt Hx Hact.
  assert (Hs : fill_supported (Loopback.fill_option t) = true).
  { unfold fill_supported.
    replace (0 <=? Loopback.fill_option t) with true by bool_true.
    replace (Loopback.fill_option t <=? 11) with true by bool_true.
    reflexivity. }
  destruct (fill_tx_transfer_chunk t pre post x Hs Hx Hact)
    as (before & after & Heq & Hlen).
  exists before, after. split; [|exact Hlen].
  rewrite Heq. do 2 f_equal.
  apply map_ext. intros j. f_equal.
  now apply loopback_fill_byte_transfer.
Qed.

Lemma fill_transfer_byte_slices_witness :
  let t := loopback_three_transfers FILL_TRANSFER_BYTE_16 in
  let x := mk_xfer (tx_base + 16) 0 2 in
  8 <= Loopback.fill_option t <= 11 /\ tx_buf x <> 0 /\
  Loopback.active_transfers t
    = [mk_xfer tx_base 0 1; mk_xfer 0 rx_base 8] ++ x :: [] /\
  @Loopback.spi_test_fill_tx arm32 t
    = (0, [(tx_base, 0); (tx_base + 16, 0); (tx_base + 17, 1)]) /\
  exists before after,
    snd (@Loopback.spi_test_fill_tx arm32 t)
    = before
      ++ map (fun j =>
                (@ptr_add arm32 (tx_buf x) j,
                 @transfer_byte arm32 FILL_TRANSFER_BYTE_16 j
                   (@to_size_t arm32
                      (Z.of_nat
                         (List.length
                            (@tx_ranges arm32
                               [mk_xfer tx_base 0 1; mk_xfer 0 rx_base 8]))
                       + j))))
             (count_up (Z.to_nat (len x)) 0)
      ++ after.
Proof.
  intros t x.
  assert (Ho : 8 <= Loopback.fill_option t <= 11) by (cbn; lia).
  assert (Hx : tx_buf x <> 0) by discriminate.
  assert (Ha : Loopback.active_transfers t
               = [mk_xfer tx_base 0 1; mk_xfer 0 rx_base 8] ++ x :: [])
    by reflexivity.
  refine (conj Ho (conj Hx (conj Ha (conj eq_refl _)))).
  destruct (fill_transfer_byte_slices arm32 t _ _ x Ho Hx Ha)
    as (before & after & Heq & _).
  exists before, after. exact Heq.
Defined.

(** X12: the loopback fill pass writes only to bytes of the transfers that
    have a transmit buffer: every other byte of memory is as before the
    pass, whatever the fill option and whether the pass succeeds or not. *)
Theorem fill_writes_only_transmit_bytes :
  forall (tg : Target) (t : Loopback.spi_test) (m : mem) (a : Z),
    ~ In a (tx_ranges (Loopback.active_transfers t)) ->
    exec_stores (snd (Loopback.spi_test_fill_tx t)) m a = m a.
Proof.
  intros tg t m a Hn. apply exec_stores_outside.
  unfold Loopback.spi_test_fill_tx.
  destruct (fill_supported (Loopback.fill_option t)) eqn:Hs.
  - change (Loopback.fill_transfers t 0 (Loopback.active_transfers t) 0)
      with (Loopback.fill_transfers t 0 (Loopback.active_transfers t)
              (to_size_t 0)).
    now rewrite (proj2 (fill_transfers_supported t _ 0 0 Hs)).
  - rewrite (fill_transfers_unsupported t _ 0 0 Hs). intros [].
Qed.

Lemma fill_writes_only_transmit_bytes_witness :
  ~ In rx_base
      (@tx_ranges arm32
         (Loopback.active_transfers (loopback_three_transfers FILL_COUNT_8))) /\
  exec_stores
    (snd (@Loopback.spi_test_fill_tx arm32
            (loopback_three_transfers FILL_COUNT_8)))
    (fun _ => 90) rx_base = 90.
Proof.
  assert (H : ~ In rx_base
                (@tx_ranges arm32
                   (Loopback.active_transfers
                      (loopback_three_transfers FILL_COUNT_8)))).
  { cbv. intros [E|[E|[E|[]]]]; discriminate E. }
  split; [exact H|].
  exact (fill_writes_only_transmit_bytes arm32
           (loopback_three_transfers FILL_COUNT_8) (fun _ => 90) rx_base H).
Defined.

(** X13: with a fill option the switch has no case for, the loopback fill
    pass stores nothing; it returns -EINVAL when some transfer has a
    transmit buffer of non-zero length and 0 when there is no byte to
    fill. *)
Theorem fill_unsupported_option :
  forall (tg : Target) (t : Loopback.spi_test),
    fill_supported (Loopback.fill_option t) = false ->
    Loopback.spi_test_fill_tx t
    = (match tx_ranges (Loopback.active_transfers t) with
       | [] => 0
       | _ :: _ => - EINVAL
       end, []).
Proof.
  intros tg t Hs. unfold Loopback.spi_test_fill_tx.
  pose proof (fill_transfers_unsupported_ret t
                (Loopback.active_transfers t) Hs 0 0) as Hr.
  pose proof (fill_transfers_unsupported t
                (Loopback.active_transfers t) 0 0 Hs) as Ho.
  destruct (Loopback.fill_transfers t 0 (Loopback.active_transfers t) 0)
    as [r ops].
  cbn [fst snd] in *. now subst.
Qed.

Lemma fill_unsupported_option_witness :
  fill_supported (Loopback.fill_option (loopback_three_transfers 12)) = false /\
  @Loopback.spi_test_fill_tx arm32 (loopback_three_transfers 12)
    = (- EINVAL, []) /\
  @Loopback.spi_test_fill_tx arm32
     (Loopback.mk_test "receive only" [] 0 0 0 0 1 [mk_xfer 0 rx_base 8] 0 12)
    = (0, []).
Proof.
  assert (H : fill_supported
                (Loopback.fill_option (loopback_three_transfers 12)) = false)
    by reflexivity.
  refine (conj H (conj _ _)).
  - exact (fill_unsupported_option arm32 (loopback_three_transfers 12) H).
  - exact (fill_unsupported_option arm32
             (Loopback.mk_test "receive only" [] 0 0 0 0 1
                [mk_xfer 0 rx_base 8] 0 12) eq_refl).
Defined.

(** X14: when the fill pass of the loopback driver fails, [_spi_test_run]
    returns -EINVAL with the memory it was given and executes nothing,
    neither the transport nor a custom test; the expected return of the
    case is not consulted, so a case that expects -EINVAL fails too. *)
Theorem loopback_fill_failure_aborts :
  forall (tg : Target) (e : Loopback.env) (t : Loopback.spi_test)
         (tx rx : Z) (m : mem) (msg : list spi_transfer),
    fill_supported (Loopback.fill_option t) = false ->
    Loopback.translate_transfers (Loopback.active_transfers t) tx rx
      = (0, msg) ->
    tx_ranges msg <> [] ->
    Loopback._spi_test_run e t tx rx m = (- EINVAL, m).
Proof.
  intros tg e t tx rx m msg Hs Htr Hne.
  unfold Loopback._spi_test_run. rewrite Htr. cbn [Z.eqb negb].
  set (t' := Loopback.set_transfers t (Loopback.transfer_count t)
               (msg ++ skipn (Z.to_nat (Loopback.transfer_count t))
                             (Loopback.transfers t))).
  assert (Hs' : fill_supported (Loopback.fill_option t') = false)
    by exact Hs.
  pose proof (fill_transfers_unsupported_ret t'
                (Loopback.active_transfers t') Hs' 0 0) as Hr.
  pose proof (fill_transfers_unsupported t'
                (Loopback.active_transfers t') 0 0 Hs') as Ho.
  unfold Loopback.spi_test_fill_tx.
  destruct (Loopback.fill_transfers t' 0 (Loopback.active_transfers t') 0)
    as [r ops].
  cbn [fst snd] in *. subst ops.
  unfold t' in Hr. rewrite (active_transfers_translated t msg tx rx Htr) in Hr.
  destruct (tx_ranges msg) as [|a l]; [congruence|]. subst r. reflexivity.
Qed.

Lemma loopback_fill_failure_aborts_witness :
  let t := Loopback.mk_test "bad option" [] 0 0 0 (- EINVAL) 1
             [mk_xfer (@Loopback.TX arm32 0) 0 4] 0 12 in
  fill_supported (Loopback.fill_option t) = false /\
  @Loopback.translate_transfers arm32 (Loopback.active_transfers t)
     tx_base rx_base = (0, [mk_xfer tx_base 0 4]) /\
  @tx_ranges arm32 [mk_xfer tx_base 0 4] <> [] /\
  @Loopback._spi_test_run arm32 loopback_hostile_env t tx_base rx_base
     zero_mem = (- EINVAL, zero_mem).
Proof.
  intros t.
  assert (Hs : fill_supported (Loopback.fill_option t) = false)
    by reflexivity.
  assert (Htr : @Loopback.translate_transfers arm32
                  (Loopback.active_transfers t) tx_base rx_base
                = (0, [mk_xfer tx_base 0 4])) by reflexivity.
  assert (Hne : @tx_ranges arm32 [mk_xfer tx_base 0 4] <> [])
    by discriminate.
  refine (conj Hs (conj Htr (conj Hne _))).
  exact (loopback_fill_failure_aborts arm32 loopback_hostile_env t
           tx_base rx_base zero_mem _ Hs Htr Hne).
Defined.

(** ** The verifier and the execution path of the loopback driver *)

Section LoopbackCheckFrame.
Context {tg : Target}.

Import Loopback.

Lemma in_byte_range (p n k : Z) :
  0 <= k < n -> In (ptr_add p k) (byte_range p n).
Proof.
  intros Hk. unfold byte_range.
  apply (in_map (fun d => ptr_add p d)), count_up_In. lia.
Qed.

Lemma check_duplex_agree (m1 m2 : mem) (x : spi_transfer) (n : nat) :
  forall i,
    (forall k, i <= k < i + Z.of_nat n ->
       load m1 (ptr_add (tx_buf x) k) = load m2 (ptr_add (tx_buf x) k) /\
       load m1 (ptr_add (rx_buf x) k) = load m2 (ptr_add (rx_buf x) k)) ->
    check_duplex m1 x n i = check_duplex m2 x n i.
Proof.
  induction n as [|n IH]; intros i H; cbn [check_duplex]; [reflexivity|].
  destruct (H i ltac:(lia)) as [-> ->].
  rewrite (IH (i + 1)); [reflexivity|].
  intros k Hk. apply H. lia.
Qed.

Lemma check_idle_agree (m1 m2 : mem) (x : spi_transfer) (b : Z) (n : nat) :
  forall i,
    (forall k, i <= k < i + Z.of_nat n ->
       load m1 (ptr_add (rx_buf x) k) = load m2 (ptr_add (rx_buf x) k)) ->
    check_idle m1 x b n i = check_idle m2 x b n i.
Proof.
  induction n as [|n IH]; intros i H; cbn [check_idle]; [reflexivity|].
  rewrite (H i ltac:(lia)).
  rewrite (IH (i + 1)); [reflexivity|].
  intros k Hk. apply H. lia.
Qed.

Lemma check_transfer_agree (m1 m2 : mem) (x : spi_transfer) :
  0 < len x ->
  (forall a,
     In a ((if tx_buf x =? 0 then [] else byte_range (tx_buf x) (len x))
           ++ (if rx_buf x =? 0 then [] else byte_range (rx_buf x) (len x))) ->
     load m1 a = load m2 a) ->
  check_transfer m1 x = check_transfer m2 x.
Proof.
  intros Hlen H. unfold check_transfer.
  destruct (rx_buf x =? 0); [reflexivity|].
  destruct (tx_buf x =? 0); cbn [app] in H.
  - rewrite (H (ptr_add (rx_buf x) 0)) by (apply in_byte_range; lia).
    destruct (_ || _); [|reflexivity].
    apply check_idle_agree. intros k Hk. apply H, in_byte_range. lia.
  - apply check_duplex_agree. intros k Hk.
    split; apply H, in_or_app; [left | right]; apply in_byte_range; lia.
Qed.

Lemma loopback_ret_ok (r : loopback_report) :
  loopback_ret r = 0 <-> r = LoopbackOk.
Proof. destruct r; cbn; split; (reflexivity || discriminate). Qed.

(** A zero result of [spi_test_execute_msg] outside simulation mode: the
    transport succeeded, the lengths agree and, in loopback mode, the
    verifier has passed the memory the transport left. *)
Lemma execute_msg_zero (e : env) (msg : list spi_transfer) (m m2 : mem) :
  simulate_only e = 0 ->
  spi_test_execute_msg e msg m = (0, m2) ->
  m2 = sync_mem (spi_sync e msg m) /\
  sync_ret (spi_sync e msg m) = 0 /\
  frame_length (spi_sync e msg m) = actual_length (spi_sync e msg m) /\
  (loopback e <> 0 ->
   spi_test_check_loopback_result m2 msg = LoopbackOk).
Proof.
  intros Hsim. unfold spi_test_execute_msg. rewrite Hsim, Z.eqb_refl.
  destruct (Z.eqb_spec (sync_ret (spi_sync e msg m)) 0) as [Hr|Hr].
  - destruct (Z.eqb_spec (frame_length (spi_sync e msg m))
                         (actual_length (spi_sync e msg m))) as [Hl|Hl].
    + destruct (Z.eqb_spec (loopback e) 0) as [Hb|Hb].
      * intros [= <-]. refine (conj eq_refl (conj Hr (conj Hl _))).
        intros; contradiction.
      * intros [= Hv <-]. refine (conj eq_refl (conj Hr (conj Hl _))).
        intros _. now apply loopback_ret_ok.
    + discriminate.
  - intros [= E _]. contradiction.
Qed.

Lemma handle_result_zero (ret expected : Z) :
  handle_result ret expected = 0 -> ret = expected.
Proof.
  unfold handle_result.
  destruct (Z.eqb_spec ret expected) as [E|E]; [intros _; exact E|].
  destruct (Z.eqb_spec ret 0) as [E0|E0]; cbn [negb].
  - discriminate.
  - intros H. contradiction.
Qed.

End LoopbackCheckFrame.

(** X15: the loopback verifier passes over every transfer without a receive
    buffer: its report for a message is its report for the transfers of the
    message that have one. *)
Theorem loopback_check_skips_receiveless :
  forall (tg : Target) (m : mem) (msg : list spi_transfer),
    Loopback.spi_test_check_loopback_result m msg
    = Loopback.spi_test_check_loopback_result m
        (filter (fun x => negb (rx_buf x =? 0)) msg).
Proof.
  intros tg m msg. induction msg as [|x msg IH]; [reflexivity|].
  cbn [filter Loopback.spi_test_check_loopback_result].
  destruct (rx_buf x =? 0) eqn:E; cbn [negb].
  - unfold Loopback.check_transfer. rewrite E. exact IH.
  - cbn [Loopback.spi_test_check_loopback_result].
    destruct (Loopback.check_transfer m x); [exact IH | reflexivity..].
Qed.

(** X16: the report of the loopback verifier depends only on the bytes of
    the buffers of the message: for transfers of non-zero length, two
    memories that agree on those bytes get the same report. *)
Theorem loopback_check_reads_only_buffers :
  forall (tg : Target) (m1 m2 : mem) (msg : list spi_transfer),
    Forall (fun x => 0 < len x) msg ->
    (forall a, In a (message_bytes msg) -> load m1 a = load m2 a) ->
    Loopback.spi_test_check_loopback_result m1 msg
    = Loopback.spi_test_check_loopback_result m2 msg.
Proof.
  intros tg m1 m2 msg Hlen. induction Hlen as [|x msg Hx _ IH]; intros H.
  - reflexivity.
  - cbn [Loopback.spi_test_check_loopback_result].
    unfold message_bytes in H. cbn [flat_map] in H.
    rewrite (check_transfer_agree m1 m2 x Hx)
      by (intros a Ha; apply H, in_or_app; now left).
    rewrite IH by (intros a Ha; apply H, in_or_app; now right).
    reflexivity.
Qed.

Lemma loopback_check_reads_only_buffers_witness :
  let msg := [mk_xfer tx_base rx_base 2] in
  let m2 := store zero_mem 5 77 in
  Forall (fun x => 0 < len x) msg /\
  (forall a, In a (@message_bytes arm32 msg) -> load zero_mem a = load m2 a) /\
  load zero_mem 5 <> load m2 5 /\
  @Loopback.spi_test_check_loopback_result arm32 zero_mem msg
  = @Loopback.spi_test_check_loopback_result arm32 m2 msg.
Proof.
  intros msg m2.
  assert (Hl : Forall (fun x => 0 < len x) msg)
    by (constructor; [cbn; lia | constructor]).
  assert (Ha : forall a, In a (@message_bytes arm32 msg) ->
                         load zero_mem a = load m2 a).
  { intros a H. cbv in H.
    destruct H as [<-|[<-|[<-|[<-|[]]]]]; reflexivity. }
  refine (conj Hl (conj Ha (conj _ _))); [discriminate|].
  exact (loopback_check_reads_only_buffers arm32 zero_mem m2 msg Hl Ha).
Defined.

(** X17: outside simulation mode and in loopback mode, a case without a
    custom test that expects 0 passes [_spi_test_run] only if, in the memory
    the run leaves, every transfer of the message with both buffers has
    received what it transmitted from byte 1 on. *)
Theorem loopback_pass_implies_echo :
  forall (tg : Target) (e : Loopback.env) (t : Loopback.spi_test)
         (tx rx : Z) (m m2 : mem) (msg : list spi_transfer),
    Loopback.simulate_only e = 0 -> Loopback.loopback e <> 0 ->
    Loopback.test t = 0 -> Loopback.expected_return t = 0 ->
    Loopback.translate_transfers (Loopback.active_transfers t) tx rx
      = (0, msg) ->
    Loopback._spi_test_run e t tx rx m = (0, m2) ->
    forall y i,
      In y msg -> tx_buf y <> 0 -> rx_buf y <> 0 -> 1 <= i < len y ->
      load m2 (ptr_add (tx_buf y) i) = load m2 (ptr_add (rx_buf y) i).
Proof.
  intros tg e t tx rx m m2 msg Hsim Hloop Htest Hexp Htr Hrun y i Hy Hty Hry Hi.
  unfold Loopback._spi_test_run in Hrun. rewrite Htr in Hrun.
  cbn [Z.eqb negb] in Hrun.
  destruct (Loopback.spi_test_fill_tx _) as [rf ops].
  destruct (Z.eqb_spec rf 0) as [->|Hrf]; cbn [negb] in Hrun;
    [|injection Hrun as E _; contradiction].
  cbn [Loopback.test Loopback.set_transfers Loopback.expected_return] in Hrun.
  rewrite Htest, Hexp in Hrun. cbn [Z.eqb negb] in Hrun.
  destruct (Loopback.spi_test_execute_msg e msg (exec_stores ops m))
    as [ret m3] eqn:Hex.
  injection Hrun as Hret ->.
  apply handle_result_zero in Hret. subst ret.
  destruct (execute_msg_zero e msg _ _ Hsim Hex) as (_ & _ & _ & Hchk).
  specialize (Hchk Hloop).
  apply check_message_ok in Hchk.
  rewrite Forall_forall in Hchk. specialize (Hchk y Hy).
  unfold Loopback.check_transfer in Hchk.
  apply Z.eqb_neq in Hty. apply Z.eqb_neq in Hry.
  rewrite Hry, Hty in Hchk.
  apply (proj1 (check_duplex_ok m2 y _ 1) Hchk). lia.
Qed.

Lemma loopback_pass_implies_echo_witness :
  let run := @Loopback._spi_test_run arm32 loopback_idle_bus_env
               loopback_duplex_case tx_base rx_base zero_mem in
  let y := mk_xfer tx_base rx_base 2 in
  run = (0, snd run) /\
  load (snd run) (@ptr_add arm32 (tx_buf y) 1)
  = load (snd run) (@ptr_add arm32 (rx_buf y) 1).
Proof.
  intros run y.
  assert (Hrun : run = (0, snd run)).
  { apply injective_projections; [vm_compute; reflexivity | reflexivity]. }
  split; [exact Hrun|].
  refine (loopback_pass_implies_echo arm32 loopback_idle_bus_env
            loopback_duplex_case tx_base rx_base zero_mem (snd run) [y]
            eq_refl _ eq_refl eq_refl eq_refl Hrun y 1 _ _ _ _).
  - discriminate.
  - now left.
  - discriminate.
  - discriminate.
  - cbn. lia.
Defined.



(** ** The iteration macros and the drivers above them *)

Section IterationValues.
Context {tg : Target}.

Lemma slot_values_leading (n : nat) (pre post : list Z) :
  forall done : list Z,
    Forall (fun v => to_size_t v <> 0) pre ->
    (List.length pre <= n)%nat ->
    (List.length pre = n \/ to_size_t (hd 0 post) = 0) ->
    slot_values n (Z.of_nat (List.length done)) (done ++ pre ++ post)
    = map to_size_t pre.
Proof.
  revert n. induction pre as [|v pre IH]; intros n done Hall Hlen Hend.
  - cbn [app map]. destruct n as [|n]; [reflexivity|].
    cbn [slot_values]. rewrite Nat2Z.id, app_nth2, Nat.sub_diag by lia.
    destruct Hend as [Hend|Hend]; [discriminate Hend|].
    replace (nth 0 post 0) with (hd 0 post) by (now destruct post).
    now rewrite Hend.
  - destruct n as [|n]; [cbn in Hlen; lia|].
    inversion Hall as [|? ? Hv Hrest]; subst.
    cbn [slot_values map app].
    rewrite Nat2Z.id, app_nth2, Nat.sub_diag by lia. cbn [nth].
    apply Z.eqb_neq in Hv. rewrite Hv. f_equal.
    replace (Z.of_nat (List.length done) + 1)
      with (Z.of_nat (List.length (done ++ [v])))
      by (rewrite length_app; cbn [List.length]; lia).
    replace (done ++ v :: pre ++ post) with ((done ++ [v]) ++ pre ++ post)
      by (now rewrite <- app_assoc).
    apply IH; [assumption | cbn in Hlen; lia |].
    destruct Hend as [Hend|Hend]; [left; cbn in Hend; lia | now right].
Qed.

Lemma for_each_all_ok {A St : Type} (body : A -> St -> Z * St) (l : list A) :
  (forall a s0, In a l -> fst (body a s0) = 0) ->
  forall s, exists s', for_each body l s = (0, s').
Proof.
  induction l as [|a l IH]; intros H s; cbn [for_each].
  - now exists s.
  - pose proof (H a s (or_introl eq_refl)) as Ha.
    destruct (body a s) as [r s1]. cbn [fst] in Ha. subst r. cbn [Z.eqb].
    apply IH. intros b s0 Hb. apply H. now right.
Qed.

Lemma catalog_entries_sentinel {T : Type} (descr : T -> string)
  (pre post : list T) (c : T) :
  descr c = EmptyString ->
  catalog_entries descr (pre ++ c :: post) = catalog_entries descr pre.
Proof.
  intros Hc. induction pre as [|t pre IH]; cbn [app catalog_entries].
  - now rewrite Hc.
  - destruct (descr t); [reflexivity | now rewrite IH].
Qed.

End IterationValues.

Section LoopbackPlainRun.
Context {tg : Target}.
Hypothesis Hok : target_ok.

Import Loopback.

(** A case that configures no iteration is handed to [spi_test_run_iter]
    once, at the default point. *)
Lemma loopback_run_unset_axes (e : env) (tx rx : Z) (t : spi_test) (m : mem) :
  transfer_count t < SPI_TEST_MAX_TRANSFERS ->
  unset_axis (iterate_len t) ->
  iterate_tx_align t = 0 -> iterate_rx_align t = 0 ->
  spi_test_run e tx rx t m = spi_test_run_iter e t tx rx 0 0 0 m.
Proof.
  intros Hc Hl Ht Hr. unfold spi_test_run.
  rewrite loopback_run_loop_points by assumption.
  unfold loopback_iter_points.
  rewrite (iterate_values_unset Hok _ Hl), Ht, Hr.
  rewrite (alignment_values_unset Hok).
  cbn [triples flat_map map app for_each run_iter_at].
  destruct (spi_test_run_iter e t tx rx 0 0 0 m) as [r m'].
  destruct (Z.eqb_spec r 0) as [->|_]; reflexivity.
Qed.

Lemma count_transfers_leading (n : nat) (pre post : list spi_transfer) :
  Forall (fun x => len x <> 0) pre ->
  (List.length pre <= n)%nat ->
  (List.length pre = n \/ len (hd (mk_xfer 0 0 0) post) = 0) ->
  count_transfers n (pre ++ post) = Z.of_nat (List.length pre).
Proof.
  revert n. induction pre as [|x pre IH]; intros n Hall Hlen Hend.
  - cbn [app List.length]. destruct n as [|n]; [reflexivity|].
    destruct Hend as [Hend|Hend]; [discriminate Hend|].
    destruct post as [|y post]; [reflexivity|].
    cbn [count_transfers hd] in *. now rewrite Hend.
  - destruct n as [|n]; [cbn in Hlen; lia|].
    inversion Hall as [|? ? Hx Hrest]; subst.
    cbn [app count_transfers]. apply Z.eqb_neq in Hx. rewrite Hx.
    rewrite IH; [cbn [List.length]; lia | assumption | cbn in Hlen; lia |].
    destruct Hend as [Hend|Hend]; [left; cbn in Hend; lia | now right].
Qed.

(** At the default point the working copy is the template with its count
    settled; the indeterminate locals play no part. *)
Lemma iter_default_point (e : env) (t : spi_test) :
  iter_working_copy e t 0 0 0
  = Some (set_transfers t
            (if transfer_count t =? 0
             then count_transfers (Z.to_nat SPI_TEST_MAX_TRANSFERS)
                                  (transfers t)
             else transfer_count t)
            (transfers t)).
Proof. reflexivity. Qed.

End LoopbackPlainRun.

(** X19: [FOR_EACH_ITERATE] runs its body on the default value and then on
    the leading entries of the array that are non-zero as a [size_t], in
    order, each converted to [size_t]; it stops at the first zero entry or
    after SPI_TEST_MAX_ITERATE entries, and what follows is never used. *)
Theorem iterate_visits_leading_entries :
  forall (tg : Target) (St : Type) (d : Z) (pre post : list Z)
         (body : Z -> St -> Z * St) (s : St),
    Forall (fun v => to_size_t v <> 0) pre ->
    (List.length pre <= Z.to_nat SPI_TEST_MAX_ITERATE)%nat ->
    (List.length pre = Z.to_nat SPI_TEST_MAX_ITERATE \/
     to_size_t (hd 0 post) = 0) ->
    FOR_EACH_ITERATE d (pre ++ post) body s
    = for_each body (d :: map to_size_t pre) s.
Proof.
  intros tg St d pre post body s Hall Hlen Hend.
  rewrite FOR_EACH_ITERATE_for_each. unfold iterate_values. do 2 f_equal.
  exact (slot_values_leading _ pre post [] Hall Hlen Hend).
Qed.

Lemma iterate_visits_leading_entries_witness :
  Forall (fun v => @to_size_t arm32 v <> 0) [16; 32] /\
  (List.length [16; 32] <= Z.to_nat SPI_TEST_MAX_ITERATE)%nat /\
  @to_size_t arm32 (hd 0 [0; 64]) = 0 /\
  @FOR_EACH_ITERATE arm32 _ 0 ([16; 32] ++ [0; 64]) (traced pass_always)
     (tt, [])
  = (0, (tt, [0; 16; 32])).
Proof.
  assert (Ha : Forall (fun v => @to_size_t arm32 v <> 0) [16; 32])
    by (repeat constructor; discriminate).
  assert (Hl : (List.length [16; 32] <= Z.to_nat SPI_TEST_MAX_ITERATE)%nat)
    by (cbn; lia).
  assert (Hz : @to_size_t arm32 (hd 0 [0; 64]) = 0) by reflexivity.
  refine (conj Ha (conj Hl (conj Hz _))).
  exact (iterate_visits_leading_entries arm32 _ 0 [16; 32] [0; 64]
           (traced pass_always) (tt, []) Ha Hl (or_intror Hz)).
Defined.

(** X20: [FOR_EACH_ALIGNMENT] runs its body on the offsets 0, 1, ... below a
    bound: 1 for an axis the case leaves at 0, the controller's DMA
    alignment when it declares one, whatever non-zero count the case
    configures, and the configured count otherwise. *)
Theorem alignment_axis_offsets :
  forall (tg : Target) (St : Type) (dma v : Z)
         (body : Z -> St -> Z * St) (s : St),
    target_ok -> 0 <= dma < 2 ^ 16 -> 0 <= v < 2 ^ 31 ->
    FOR_EACH_ALIGNMENT dma v body s
    = for_each body (count_up (Z.to_nat (alignment_count dma v)) 0) s.
Proof.
  intros tg St dma v body s Hok Hd Hv.
  rewrite FOR_EACH_ALIGNMENT_for_each.
  unfold alignment_values, alignment_bound, alignment_count.
  destruct (v =? 0); cbn [negb];
    [|destruct (dma =? 0); cbn [negb]];
    now rewrite (to_size_t_small Hok) by lia.
Qed.

Lemma alignment_axis_offsets_witness :
  @target_ok arm32 /\ 0 <= 4 < 2 ^ 16 /\ 0 <= 2 < 2 ^ 31 /\
  @FOR_EACH_ALIGNMENT arm32 _ 4 2 (traced pass_always) (tt, [])
  = (0, (tt, [0; 1; 2; 3])).
Proof.
  assert (Hok : @target_ok arm32) by (unfold target_ok; cbn; lia).
  assert (Hd : 0 <= 4 < 2 ^ 16) by lia.
  assert (Hv : 0 <= 2 < 2 ^ 31) by lia.
  refine (conj Hok (conj Hd (conj Hv _))).
  exact (alignment_axis_offsets arm32 _ 4 2 (traced pass_always) (tt, [])
           Hok Hd Hv).
Defined.

(** X21: when every iteration point passes, both generations of the
    iteration driver call their callee on every point of the enumeration,
    in order, each point once, and return 0. *)
Theorem all_pass_visits_every_point :
  forall (tg : Target) (St : Type) (run_iter : Z * Z * Z -> St -> Z * St)
         (dma : Z) (t : Loopback.spi_test) (tb : Basic.spi_test) (s : St),
    (Loopback.transfer_count t < SPI_TEST_MAX_TRANSFERS ->
     (forall p s0, In p (loopback_iter_points dma t) ->
                   fst (run_iter p s0) = 0) ->
     exists s',
       Loopback.spi_test_run_loop (traced run_iter) dma t (s, [])
       = (0, (s', loopback_iter_points dma t))) /\
    ((forall p s0, In p (basic_iter_points tb) -> fst (run_iter p s0) = 0) ->
     exists s',
       Basic.spi_test_run_loop (traced run_iter) tb (s, [])
       = (0, (s', basic_iter_points tb))).
Proof.
  intros tg St run_iter dma t tb s. split.
  - intros Hc Hall. rewrite loopback_run_loop_points by assumption.
    destruct (for_each_all_ok run_iter _ Hall s) as [s' Hs'].
    exists s'. exact (for_each_traced_ok run_iter _ s s' [] Hs').
  - intros Hall. rewrite basic_run_loop_points.
    destruct (for_each_all_ok run_iter _ Hall s) as [s' Hs'].
    exists s'. exact (for_each_traced_ok run_iter _ s s' [] Hs').
Qed.

Lemma all_pass_visits_every_point_witness :
  @Loopback.spi_test_run_loop arm32 _ (traced pass_always) 0
     loopback_two_lengths (tt, [])
  = (0, (tt, [(0, 0, 0); (16, 0, 0); (32, 0, 0)])) /\
  exists s',
    @Loopback.spi_test_run_loop arm32 _ (traced pass_always) 0
       loopback_two_lengths (tt, [])
    = (0, (s', @loopback_iter_points arm32 0 loopback_two_lengths)).
Proof.
  split; [reflexivity|].
  apply (proj1 (all_pass_visits_every_point arm32 unit pass_always 0
                  loopback_two_lengths basic_two_lengths tt)).
  - reflexivity.
  - intros p s0 _. reflexivity.
Defined.

(** X22: [spi_test_probe] runs the table entries before the first one with
    an empty description and nothing after it: its result does not depend
    on what follows that entry. *)
Theorem probe_stops_at_sentinel :
  forall (tg : Target) (e : Loopback.env)
         (pre post post' : list Loopback.spi_test) (c : Loopback.spi_test)
         (rx tx : Z) (m : mem),
    Loopback.description c = EmptyString ->
    Loopback.spi_test_probe e (pre ++ c :: post) rx tx m
    = Loopback.spi_test_probe e (pre ++ c :: post') rx tx m.
Proof.
  intros tg e pre post post' c rx tx m Hc. unfold Loopback.spi_test_probe.
  destruct (rx =? 0); [reflexivity|]. destruct (tx =? 0); [reflexivity|].
  rewrite !probe_loop_for_each.
  now rewrite !(catalog_entries_sentinel Loopback.description pre _ c Hc).
Qed.

Lemma probe_stops_at_sentinel_witness :
  Loopback.description (named_case "") = EmptyString /\
  @Loopback.spi_test_probe arm32 loopback_sim_env
     ([loopback_simple_rx] ++ named_case "" :: [loopback_four_transfers])
     rx_base tx_base zero_mem
  = @Loopback.spi_test_probe arm32 loopback_sim_env
      ([loopback_simple_rx] ++ named_case "" :: []) rx_base tx_base zero_mem.
Proof.
  split; [reflexivity|].
  exact (probe_stops_at_sentinel arm32 loopback_sim_env [loopback_simple_rx]
           [loopback_four_transfers] [] (named_case "") rx_base tx_base
           zero_mem eq_refl).
Defined.

(** X23: a case of the loopback driver that declares between one and three
    transfers and configures no iteration is run once, exactly as written:
    [spi_test_run] is [_spi_test_run] of the case itself, whatever the
    indeterminate locals of [spi_test_run_iter] hold. *)
Theorem loopback_plain_case_runs_once :
  forall (tg : Target) (e : Loopback.env) (tx rx : Z)
         (t : Loopback.spi_test) (m : mem),
    target_ok ->
    0 < Loopback.transfer_count t < SPI_TEST_MAX_TRANSFERS ->
    unset_axis (Loopback.iterate_len t) ->
    Loopback.iterate_tx_align t = 0 -> Loopback.iterate_rx_align t = 0 ->
    Loopback.spi_test_run e tx rx t m = Loopback._spi_test_run e t tx rx m.
Proof.
  intros tg e tx rx t m Hok Hc Hl Ht Hr.
  rewrite (loopback_run_unset_axes Hok e tx rx t m (proj2 Hc) Hl Ht Hr).
  unfold Loopback.spi_test_run_iter. rewrite iter_default_point.
  replace (Loopback.transfer_count t =? 0) with false by bool_false.
  now destruct t.
Qed.

Lemma loopback_plain_case_runs_once_witness :
  @target_ok arm32 /\
  0 < Loopback.transfer_count loopback_duplex_case < SPI_TEST_MAX_TRANSFERS /\
  unset_axis (Loopback.iterate_len loopback_duplex_case) /\
  @Loopback.spi_test_run arm32 loopback_idle_bus_env tx_base rx_base
     loopback_duplex_case zero_mem
  = @Loopback._spi_test_run arm32 loopback_idle_bus_env
      loopback_duplex_case tx_base rx_base zero_mem.
Proof.
  assert (Hok : @target_ok arm32) by (unfold target_ok; cbn; lia).
  assert (Hc : 0 < Loopback.transfer_count loopback_duplex_case
               < SPI_TEST_MAX_TRANSFERS) by (cbn; unfold SPI_TEST_MAX_TRANSFERS; lia).
  assert (Hl : unset_axis (Loopback.iterate_len loopback_duplex_case))
    by (exists 0%nat; reflexivity).
  refine (conj Hok (conj Hc (conj Hl _))).
  exact (loopback_plain_case_runs_once arm32 loopback_idle_bus_env
           tx_base rx_base loopback_duplex_case zero_mem Hok Hc Hl
           eq_refl eq_refl).
Defined.

(** X24: a case of the loopback driver whose transfer count is 0 is run, at
    the default point, with the number of leading transfers of non-zero
    length as its count, at most SPI_TEST_MAX_TRANSFERS of them. *)
Theorem loopback_auto_count :
  forall (tg : Target) (e : Loopback.env) (t : Loopback.spi_test)
         (tx rx : Z) (m : mem) (pre post : list spi_transfer),
    Loopback.transfer_count t = 0 ->
    Loopback.transfers t = pre ++ post ->
    Forall (fun x => len x <> 0) pre ->
    (List.length pre <= Z.to_nat SPI_TEST_MAX_TRANSFERS)%nat ->
    (List.length pre = Z.to_nat SPI_TEST_MAX_TRANSFERS \/
     len (hd (mk_xfer 0 0 0) post) = 0) ->
    Loopback.spi_test_run_iter e t tx rx 0 0 0 m
    = Loopback._spi_test_run e
        (Loopback.set_transfers t (Z.of_nat (List.length pre))
           (Loopback.transfers t)) tx rx m.
Proof.
  intros tg e t tx rx m pre post Hc Ht Hall Hlen Hend.
  unfold Loopback.spi_test_run_iter. rewrite iter_default_point.
  rewrite Hc. cbn [Z.eqb]. rewrite Ht at 1.
  now rewrite (count_transfers_leading _ pre post Hall Hlen Hend).
Qed.

Lemma loopback_auto_count_witness :
  let t := Loopback.mk_test "auto" [] 0 0 0 0 0
             [mk_xfer (@Loopback.TX arm32 0) 0 2; mk_xfer 0 0 0;
              mk_xfer (@Loopback.TX arm32 8) 0 1] 0 FILL_MEMSET_8 in
  let pre := [mk_xfer (@Loopback.TX arm32 0) 0 2] in
  let post := [mk_xfer 0 0 0; mk_xfer (@Loopback.TX arm32 8) 0 1] in
  Loopback.transfers t = pre ++ post /\
  Forall (fun x => len x <> 0) pre /\
  len (hd (mk_xfer 0 0 0) post) = 0 /\
  @Loopback.spi_test_run_iter arm32 loopback_sim_env t tx_base rx_base
     0 0 0 zero_mem
  = @Loopback._spi_test_run arm32 loopback_sim_env
      (Loopback.set_transfers t 1 (Loopback.transfers t))
      tx_base rx_base zero_mem.
Proof.
  intros t pre post.
  assert (Ht : Loopback.transfers t = pre ++ post) by reflexivity.
  assert (Ha : Forall (fun x => len x <> 0) pre)
    by (repeat constructor; discriminate).
  assert (Hz : len (hd (mk_xfer 0 0 0) post) = 0) by reflexivity.
  refine (conj Ht (conj Ha (conj Hz _))).
  refine (loopback_auto_count arm32 loopback_sim_env t tx_base rx_base
            zero_mem pre post eq_refl Ht Ha _ (or_intror Hz)).
  cbn. lia.
Defined.

(** X25: the transfer limit of the loopback driver is tested on the declared
    count only: a case that declares 0 transfers and fills all four slots
    of its transfer array passes the test of [spi_test_run] and is run with
    four transfers, where a declared count of four is refused. *)
Theorem loopback_auto_count_passes_limit :
  forall (tg : Target) (e : Loopback.env) (tx rx : Z)
         (t : Loopback.spi_test) (m : mem),
    target_ok ->
    Loopback.transfer_count t = 0 ->
    List.length (Loopback.transfers t) = Z.to_nat SPI_TEST_MAX_TRANSFERS ->
    Forall (fun x => len x <> 0) (Loopback.transfers t) ->
    unset_axis (Loopback.iterate_len t) ->
    Loopback.iterate_tx_align t = 0 -> Loopback.iterate_rx_align t = 0 ->
    Loopback.spi_test_run e tx rx t m
    = Loopback._spi_test_run e
        (Loopback.set_transfers t SPI_TEST_MAX_TRANSFERS
           (Loopback.transfers t)) tx rx m /\
    Loopback.spi_test_run e tx rx
      (Loopback.set_transfers t SPI_TEST_MAX_TRANSFERS (Loopback.transfers t))
      m
    = (- E2BIG, m).
Proof.
  intros tg e tx rx t m Hok Hc Hlen Hall Hl Ht Hr. split.
  - rewrite (loopback_run_unset_axes Hok e tx rx t m) by
      (try assumption; rewrite Hc; unfold SPI_TEST_MAX_TRANSFERS; lia).
    unfold Loopback.spi_test_run_iter. rewrite iter_default_point.
    rewrite Hc. cbn [Z.eqb].
    rewrite <- (app_nil_r (Loopback.transfers t)) at 1.
    rewrite (count_transfers_leading _ (Loopback.transfers t) [] Hall)
      by (rewrite ?Hlen; auto).
    rewrite Hlen. reflexivity.
  - reflexivity.
Qed.

Lemma loopback_auto_count_passes_limit_witness :
  @target_ok arm32 /\
  Loopback.transfer_count loopback_auto_four = 0 /\
  Forall (fun x => len x <> 0) (Loopback.transfers loopback_auto_four) /\
  fst (@Loopback.spi_test_run arm32 loopback_sim_env tx_base rx_base
         loopback_auto_four zero_mem) = 0 /\
  @Loopback.spi_test_run arm32 loopback_sim_env tx_base rx_base
     loopback_auto_four zero_mem
  = @Loopback._spi_test_run arm32 loopback_sim_env
      (Loopback.set_transfers loopback_auto_four SPI_TEST_MAX_TRANSFERS
         (Loopback.transfers loopback_auto_four))
      tx_base rx_base zero_mem.
Proof.
  assert (Hok : @target_ok arm32) by (unfold target_ok; cbn; lia).
  assert (Ha : Forall (fun x => len x <> 0)
                 (Loopback.transfers loopback_auto_four))
    by (repeat constructor; discriminate).
  assert (Hl : unset_axis (Loopback.iterate_len loopback_auto_four))
    by (exists 0%nat; reflexivity).
  refine (conj Hok (conj eq_refl (conj Ha (conj eq_refl _)))).
  exact (proj1 (loopback_auto_count_passes_limit arm32 loopback_sim_env
                  tx_base rx_base loopback_auto_four zero_mem Hok eq_refl
                  eq_refl Ha Hl eq_refl eq_refl)).
Defined.

(** ** The fill pass of the basic driver *)

Section BasicFill.
Context {tg : Target}.

Import Basic.








End BasicFill.







(** ** Iteration points and the working copy *)

Section LoopbackWorkingCopy.
Context {tg : Target}.
Hypothesis Hok : target_ok.

Import Loopback.

(** A small non-null pointer lies in neither region. *)
Lemma loopback_translate_small (ptr len0 tx rx : Z) :
  0 < ptr < 2 ^ 30 ->
  spi_test_translate ptr len0 tx rx = (- EINVAL, ptr).
Proof.
  intros Hp. unfold spi_test_translate.
  rewrite (loopback_RX_val Hok 0), (loopback_TX_val Hok 0) by lia.
  replace (ptr =? 0) with false by bool_false.
  replace (2 ^ 30 + 0 <=? ptr) with false by bool_false.
  replace (2 ^ 31 + 0 <=? ptr) with false by bool_false.
  reflexivity.
Qed.

(** Away from the default point the active transfers of the working copy
    are the patched active transfers of the template. *)
Lemma iter_working_copy_active (e : env) (t t' : spi_test)
  (len0 tx_off rx_off : Z) :
  rx_off <> 0 ->
  iter_working_copy e t len0 tx_off rx_off = Some t' ->
  active_transfers t'
  = map (patch_transfer len0 tx_off rx_off)
        (firstn (Z.to_nat (transfer_count t')) (transfers t)).
Proof.
  intros Hrx Hwc. unfold iter_working_copy in Hwc.
  destruct (negb (tx_off =? 0) && _); [discriminate|].
  destruct (negb (rx_off =? 0) && _); [discriminate|].
  apply Z.eqb_neq in Hrx. rewrite Hrx, !andb_false_r in Hwc.
  cbn [negb] in Hwc. injection Hwc as <-. unfold active_transfers.
  cbn [set_transfers transfer_count transfers].
  apply firstn_map_firstn_skipn.
Qed.

End LoopbackWorkingCopy.

Section BasicWorkingCopy.
Context {tg : Target}.

Import Basic.

Lemma basic_patch_default (x : spi_transfer) : patch_xfer 0 0 0 x = x.
Proof. reflexivity. Qed.

Lemma basic_iter_default_point (t : spi_test) : iter_working_copy t 0 0 0 = t.
Proof.
  unfold iter_working_copy, active_xfers.
  rewrite (map_ext _ (fun x => x) basic_patch_default), map_id.
  rewrite firstn_skipn. now destruct t.
Qed.

End BasicWorkingCopy.

(** X29: in the loopback driver a non-zero receive offset is added to the
    null receive pointer of a transmit-only transfer, which then holds the
    offset itself; [spi_test_translate] refuses that pointer, so the
    iteration point fails with -EINVAL before anything is filled or
    executed. *)
Theorem loopback_rx_offset_fails_transmit_only :
  forall (tg : Target) (e : Loopback.env) (t t' : Loopback.spi_test)
         (tx rx : Z) (m : mem) (len0 tx_off rx_off : Z) (x : spi_transfer),
    target_ok ->
    0 < rx_off < 2 ^ 30 ->
    Loopback.iter_working_copy e t len0 tx_off rx_off = Some t' ->
    In x (firstn (Z.to_nat (Loopback.transfer_count t'))
                 (Loopback.transfers t)) ->
    tx_buf x <> 0 -> rx_buf x = 0 -> ptr_add (tx_buf x) tx_off <> 0 ->
    rx_buf (Loopback.patch_transfer len0 tx_off rx_off x) = rx_off /\
    Loopback.spi_test_run_iter e t tx rx len0 tx_off rx_off m = (- EINVAL, m).
Proof.
  intros tg e t t' tx rx m len0 tx_off rx_off x Hok Hoff Hwc Hin Htx Hrx Hnz.
  assert (Hpatch : rx_buf (Loopback.patch_transfer len0 tx_off rx_off x)
                   = rx_off).
  { unfold Loopback.patch_transfer, set_len, set_tx_buf, set_rx_buf.
    cbv zeta. apply Z.eqb_neq in Htx. apply Z.eqb_neq in Hnz.
    destruct (negb (len0 =? 0)); cbn [tx_buf rx_buf len];
      rewrite Htx; cbn [negb tx_buf rx_buf len];
      rewrite Hnz; cbn [negb tx_buf rx_buf len];
      rewrite Hrx; unfold ptr_add; rewrite Z.add_0_l;
      apply (to_size_t_small Hok); lia. }
  split; [exact Hpatch|].
  unfold Loopback.spi_test_run_iter. rewrite Hwc.
  pose proof (iter_working_copy_active e t t' len0 tx_off rx_off
                ltac:(lia) Hwc) as Hact.
  apply in_split in Hin as (pre & post & Hsplit).
  rewrite Hsplit, map_app in Hact. cbn [map] in Hact.
  unfold Loopback._spi_test_run. rewrite Hact.
  assert (Hf : fst (Loopback.translate_transfers
                      (map (Loopback.patch_transfer len0 tx_off rx_off) pre
                       ++ Loopback.patch_transfer len0 tx_off rx_off x
                          :: map (Loopback.patch_transfer len0 tx_off rx_off)
                               post) tx rx) = - EINVAL).
  { apply translate_transfers_fails. right.
    rewrite Hpatch, (loopback_translate_small Hok) by lia. discriminate. }
  destruct (Loopback.translate_transfers _ tx rx) as [r msg].
  cbn [fst] in Hf. subst r. reflexivity.
Qed.

Lemma loopback_rx_offset_fails_transmit_only_witness :
  let x := mk_xfer (@Loopback.TX arm32 0) 0 4 in
  @target_ok arm32 /\ 0 < 1 < 2 ^ 30 /\
  (exists t',
     @Loopback.iter_working_copy arm32 loopback_bus_env
        loopback_tx_then_duplex 0 0 1 = Some t' /\
     In x (firstn (Z.to_nat (Loopback.transfer_count t'))
                  (Loopback.transfers loopback_tx_then_duplex))) /\
  rx_buf (@Loopback.patch_transfer arm32 0 0 1 x) = 1 /\
  @Loopback.spi_test_run_iter arm32 loopback_bus_env loopback_tx_then_duplex
     tx_base rx_base 0 0 1 zero_mem = (- EINVAL, zero_mem).
Proof.
  intros x.
  assert (Hok : @target_ok arm32) by (unfold target_ok; cbn; lia).
  assert (Ho : 0 < 1 < 2 ^ 30) by lia.
  destruct (@Loopback.iter_working_copy arm32 loopback_bus_env
              loopback_tx_then_duplex 0 0 1) as [t'|] eqn:Hwc;
    [|discriminate Hwc].
  assert (Hin : In x (firstn (Z.to_nat (Loopback.transfer_count t'))
                        (Loopback.transfers loopback_tx_then_duplex))).
  { injection Hwc as <-. now left. }
  refine (conj Hok (conj Ho (conj _ _))).
  - exists t'. split; [reflexivity | exact Hin].
  - refine (loopback_rx_offset_fails_transmit_only arm32 loopback_bus_env
              loopback_tx_then_duplex t' tx_base rx_base zero_mem 0 0 1 x
              Hok Ho _ Hin _ eq_refl _).
    + exact Hwc.
    + discriminate.
    + discriminate.
Defined.

(** X30: a case of the basic driver that configures no iteration is run
    once, exactly as written: the working copy of the default point is the
    template, and [spi_test_run] is [_spi_test_run] of the case itself. *)
Theorem basic_plain_case_runs_once :
  forall (tg : Target) (e : Basic.env) (tx rx : Z) (t : Basic.spi_test)
         (m : mem),
    target_ok ->
    unset_axis (Basic.iterate_len t) ->
    unset_axis (Basic.iterate_tx_off t) ->
    unset_axis (Basic.iterate_rx_off t) ->
    Basic.spi_test_run e tx rx t m = Basic._spi_test_run e t tx rx m.
Proof.
  intros tg e tx rx t m Hok Hl Ht Hr. unfold Basic.spi_test_run.
  rewrite basic_run_loop_points. unfold basic_iter_points.
  rewrite !(iterate_values_unset Hok) by assumption.
  cbn [triples flat_map map app for_each Basic.run_iter_at].
  unfold Basic.spi_test_run_iter. rewrite basic_iter_default_point.
  destruct (Basic._spi_test_run e t tx rx m) as [r m'].
  destruct (Z.eqb_spec r 0) as [->|_]; reflexivity.
Qed.

Lemma basic_plain_case_runs_once_witness :
  @target_ok arm32 /\
  unset_axis (Basic.iterate_len basic_expects_efault) /\
  @Basic.spi_test_run arm32 basic_sim_env tx_base rx_base
     basic_expects_efault zero_mem
  = @Basic._spi_test_run arm32 basic_sim_env basic_expects_efault
      tx_base rx_base zero_mem.
Proof.
  assert (Hok : @target_ok arm32) by (unfold target_ok; cbn; lia).
  assert (Hu : unset_axis (@nil Z)) by (exists 0%nat; reflexivity).
  refine (conj Hok (conj Hu _)).
  exact (basic_plain_case_runs_once arm32 basic_sim_env tx_base rx_base
           basic_expects_efault zero_mem Hok Hu Hu Hu).
Defined.
